(** * idl_parser: a shallow embedding of the preprocessor, the scanner
    primitives, the type registry and the declaration parser of
    [idl_parser.cxx] / [idl_parser.h], and the properties of its
    specification settled against it.

    Texts are [string]s (a C string without its terminator), [int] and
    [hash_t] values are [Z], [Vector<T>] is [list T] and the
    [Map<String,String>] of defines is a [gmap string string].

    [error] is [printf] in the source (idl_parser.cxx line 50) and the
    [TRACE_*] macros write to [std::cout]: diagnostics change no state
    and are left out.  What is left of an error path is what the source
    does after the message: it goes on.  Where that is undefined
    behaviour (a write past a fixed buffer, a read past the terminator,
    a vector indexed out of range, a use of the freed buffer) the model
    stops with [Undefined]; [ne_assert(0)] stops it with [Abort]. *)

From Stdlib Require Import ZArith String Ascii List Bool Lia DecimalString.
From stdpp Require Import gmap strings.

Open Scope string_scope.
Open Scope Z_scope.

(** ** Outcomes of fallible code *)

Inductive result (A : Type) : Type :=
| Ok (a : A)      (* the call returns *)
| Abort           (* ne_assert(0) *)
| Undefined       (* the source's behaviour is undefined from here on *)
| Diverges.       (* the recursion of the source does not end (model: out of fuel) *)

Arguments Ok {A} a.
Arguments Abort {A}.
Arguments Undefined {A}.
Arguments Diverges {A}.

Definition bind {A B : Type} (r : result A) (k : A -> result B) : result B :=
  match r with
  | Ok a => k a
  | Abort => Abort
  | Undefined => Undefined
  | Diverges => Diverges
  end.

#[global] Instance result_ret : MRet result := fun A a => Ok a.
#[global] Instance result_bind : MBind result := fun A B k r => bind r k.

(** ** Characters and C strings *)

Definition NUL : ascii := "000"%char.

(** [isdigit], [isalpha] of <ctype.h> in the C locale. *)
Definition isdigit (c : ascii) : bool :=
  ((48 <=? N_of_ascii c) && (N_of_ascii c <=? 57))%N.

Definition isalpha (c : ascii) : bool :=
  (((65 <=? N_of_ascii c) && (N_of_ascii c <=? 90))
   || ((97 <=? N_of_ascii c) && (N_of_ascii c <=? 122)))%N.

(** [strchr(set, c) != NULL] for a character [c] that is not the terminator. *)
Fixpoint strchr (set : string) (c : ascii) : bool :=
  match set with
  | EmptyString => false
  | String x r => Ascii.eqb x c || strchr r c
  end.

(** [s += n]. *)
Fixpoint advance (n : nat) (s : string) : string :=
  match n, s with
  | O, _ => s
  | S k, String _ r => advance k r
  | S _, EmptyString => EmptyString
  end.

(** The character at the cursor, [NUL] at the terminator. *)
Definition peek (s : string) : ascii :=
  match s with
  | EmptyString => NUL
  | String c _ => c
  end.

Definition str1 (c : ascii) : string := String c EmptyString.

(** A destination of [size] bytes holds a text of fewer than [size]
    characters and its terminator; a longer text is written past it. *)
Definition fits {A : Type} (size : nat) (text : string) (a : A) : result A :=
  if (String.length text <? size)%nat then Ok a else Undefined.

(** ** What str.h and common.h provide

    Neither header is part of the sources.  [getHash] is a parameter of
    the development; the string helpers are modelled. *)

(** Modelled from the spec: [Explode] of str.h is absent; the parser
    "splits on single spaces into tokens".  The comment of
    [remove_namespace] ("::name1::name2" gives "0: name1 1: name2") shows
    that empty pieces are not kept. *)
Fixpoint Explode_from (sep : ascii) (s cur : string) : list string :=
  match s with
  | EmptyString => if String.eqb cur "" then [] else [cur]
  | String c r =>
      if Ascii.eqb c sep
      then (if String.eqb cur "" then Explode_from sep r ""
            else cur :: Explode_from sep r "")
      else Explode_from sep r (cur +:+ str1 c)
  end.

Definition Explode (s : string) (sep : ascii) : list string :=
  Explode_from sep s "".

(** Modelled from the spec: [String::replace] of str.h is absent; every
    occurrence of [pat] is replaced, left to right, the inserted text is
    not searched again. *)
Fixpoint replace_from (fuel : nat) (pat by_ s : string) : string :=
  match fuel with
  | O => s
  | S k =>
      match s with
      | EmptyString => EmptyString
      | String c r =>
          if String.prefix pat s && negb (String.eqb pat "")
          then by_ +:+ replace_from k pat by_ (advance (String.length pat) s)
          else String c (replace_from k pat by_ r)
      end
  end.

Definition replace (s pat by_ : string) : string :=
  replace_from (String.length s) pat by_ s.

(** Modelled from the spec: [String::find(pat) != String::npos]. *)
Fixpoint contains (pat s : string) : bool :=
  String.prefix pat s ||
  match s with
  | EmptyString => false
  | String _ r => contains pat r
  end.

(** Modelled from the spec: [String::basename] of str.h is absent; the
    part after the last '/'. *)
Fixpoint basename_from (s cur : string) : string :=
  match s with
  | EmptyString => cur
  | String c r =>
      if Ascii.eqb c "/" then basename_from r "" else basename_from r (cur +:+ str1 c)
  end.

Definition basename (s : string) : string := basename_from s "".

(** [atol] of <stdlib.h>: leading white space, an optional sign, digits. *)
Fixpoint atol_digits (s : string) (acc : Z) : Z :=
  match s with
  | EmptyString => acc
  | String c r =>
      if isdigit c then atol_digits r (10 * acc + (Z.of_N (N_of_ascii c) - 48))
      else acc
  end.

Definition isspace (c : ascii) : bool :=
  ((N_of_ascii c =? 32) || ((9 <=? N_of_ascii c) && (N_of_ascii c <=? 13)))%N.

Fixpoint atol_from (fuel : nat) (s : string) : Z :=
  match fuel, s with
  | S k, String c r =>
      if isspace c then atol_from k r
      else if Ascii.eqb c "-" then - atol_digits r 0
      else if Ascii.eqb c "+" then atol_digits r 0
      else atol_digits s 0
  | _, _ => 0
  end.

(** A value that a [long] of 64 bits cannot hold is answered by the
    nearest bound, as [strtol] does. *)
Definition LONG_MAX : Z := 2 ^ 63 - 1.
Definition LONG_MIN : Z := - 2 ^ 63.

Definition atol (s : string) : Z :=
  Z.max LONG_MIN (Z.min LONG_MAX (atol_from (String.length s) s)).

(** ** Data model (idl_parser.h) *)

(** [enum TypeAndCommande_e]. *)
Definition TYPE_START : Z := 0.
Definition ID_VOID : Z := 0.
Definition ID_OCTET : Z := 1.
Definition ID_INT8 : Z := 2.
Definition ID_INT16 : Z := 3.
Definition ID_SHORT : Z := 4.
Definition ID_INT32 : Z := 5.
Definition ID_INT : Z := 6.
Definition ID_LONG : Z := 7.
Definition ID_INT64 : Z := 8.
Definition ID_LONGLONG : Z := 9.
Definition ID_UINT8 : Z := 10.
Definition ID_UINT16 : Z := 11.
Definition ID_UINT32 : Z := 12.
Definition ID_UINT64 : Z := 13.
Definition ID_BOOL : Z := 14.
Definition ID_BOOLEAN : Z := 15.
Definition ID_CHAR : Z := 16.
Definition ID_FLOAT : Z := 17.
Definition ID_STRING : Z := 18.
Definition ID_DOUBLE : Z := 19.
Definition ID_SEQUENCE : Z := 20.
Definition ID_CONST : Z := 21.
Definition LAST_TYPE : Z := 22.
Definition BASE_START : Z := LAST_TYPE.
Definition ID_STRUCT : Z := BASE_START.
Definition ID_MODULE : Z := 23.
Definition ID_TYPEDEF : Z := 24.
Definition LAST_BASE : Z := 25.
Definition TYPE_SPACER : Z := 1024.
Definition BASE_SPACER : Z := 4096.
Definition USER_BASE_SPACER_TYPEDEF : Z := 8192.
Definition USER_BASE_SPACER_STRUCT : Z := 16384.

Record Enum_t := {
  en_hash : Z; en_type : Z; en_name : string; en_nameSpace : string;
  en_body : string }.

Record Typedef_t := {
  td_hash : Z;            (* hash(name) *)
  td_type : Z;            (* base type *)
  td_name : string;       (* new type name *)
  td_baseName : string;   (* base type name *)
  td_nameSpace : string;
  td_size : Z }.

(** [Typedef_t()]: every field zero or empty, [size] -1. *)
Definition Typedef_t0 : Typedef_t :=
  {| td_hash := 0; td_type := 0; td_name := ""; td_baseName := "";
     td_nameSpace := ""; td_size := -1 |}.

Record Module_t := {
  mo_hash : Z; mo_type : Z; mo_name : string; mo_body : string }.

Record Variable_t := {
  var_hash : Z;           (* hash(name) *)
  var_type : Typedef_t;
  var_is_key : bool;
  var_name : string;
  var_struct_name : string;
  var_fromNamespace : string }.

Record Struct_t := {
  st_hash : Z;            (* hash(name) *)
  st_type : Z;            (* check built-in base *)
  st_name : string;
  st_nameSpace : string;
  st_fields : list Variable_t }.

Record UDefine_t := { ud_line : string }.

(** The members of [Parser] and of [IdlParser] that hold the state of a
    session. *)
Record Parser := {
  enums : list Enum_t;
  typedefs : list Typedef_t;
  structs : list Struct_t;
  variables : list Variable_t;
  modules : list Module_t;
  udefines : list UDefine_t;
  nameSpace : string;
  code : string;
  defines : gmap string string;
  line : string }.

(** [Parser()] and [IdlParser()]. *)
Definition Parser0 : Parser :=
  {| enums := []; typedefs := []; structs := []; variables := [];
     modules := []; udefines := []; nameSpace := ""; code := "";
     defines := ∅; line := "" |}.

Definition set_typedefs (v : list Typedef_t) (p : Parser) : Parser :=
  {| enums := enums p; typedefs := v; structs := structs p;
     variables := variables p; modules := modules p; udefines := udefines p;
     nameSpace := nameSpace p; code := code p; defines := defines p;
     line := line p |}.

Definition set_structs (v : list Struct_t) (p : Parser) : Parser :=
  {| enums := enums p; typedefs := typedefs p; structs := v;
     variables := variables p; modules := modules p; udefines := udefines p;
     nameSpace := nameSpace p; code := code p; defines := defines p;
     line := line p |}.

Definition set_variables (v : list Variable_t) (p : Parser) : Parser :=
  {| enums := enums p; typedefs := typedefs p; structs := structs p;
     variables := v; modules := modules p; udefines := udefines p;
     nameSpace := nameSpace p; code := code p; defines := defines p;
     line := line p |}.

Definition set_modules (v : list Module_t) (p : Parser) : Parser :=
  {| enums := enums p; typedefs := typedefs p; structs := structs p;
     variables := variables p; modules := v; udefines := udefines p;
     nameSpace := nameSpace p; code := code p; defines := defines p;
     line := line p |}.

Definition set_udefines (v : list UDefine_t) (p : Parser) : Parser :=
  {| enums := enums p; typedefs := typedefs p; structs := structs p;
     variables := variables p; modules := modules p; udefines := v;
     nameSpace := nameSpace p; code := code p; defines := defines p;
     line := line p |}.

Definition set_nameSpace (v : string) (p : Parser) : Parser :=
  {| enums := enums p; typedefs := typedefs p; structs := structs p;
     variables := variables p; modules := modules p; udefines := udefines p;
     nameSpace := v; code := code p; defines := defines p; line := line p |}.

Definition set_code (v : string) (p : Parser) : Parser :=
  {| enums := enums p; typedefs := typedefs p; structs := structs p;
     variables := variables p; modules := modules p; udefines := udefines p;
     nameSpace := nameSpace p; code := v; defines := defines p;
     line := line p |}.

Definition set_defines (v : gmap string string) (p : Parser) : Parser :=
  {| enums := enums p; typedefs := typedefs p; structs := structs p;
     variables := variables p; modules := modules p; udefines := udefines p;
     nameSpace := nameSpace p; code := code p; defines := v; line := line p |}.

Definition set_line (v : string) (p : Parser) : Parser :=
  {| enums := enums p; typedefs := typedefs p; structs := structs p;
     variables := variables p; modules := modules p; udefines := udefines p;
     nameSpace := nameSpace p; code := code p; defines := defines p;
     line := v |}.

(** [for (i = from; ...; ++i) if (p(l[i])) return i, l[i]]: the first hit
    of a linear search, with its index. *)
Fixpoint first_hit {A : Type} (p : A -> bool) (l : list A) (i : Z)
  : option (Z * A) :=
  match l with
  | [] => None
  | x :: r => if p x then Some (i, x) else first_hit p r (i + 1)
  end.

(** [v[i]] of a [Vector]; out of range is not defined by the sources. *)
Definition at_index {A : Type} (v : list A) (i : Z) : result A :=
  if i <? 0 then Undefined
  else match nth_error v (Z.to_nat i) with
       | Some a => Ok a
       | None => Undefined
       end.

(** ** The type registry *)

Section Registry.

(** [getHash] of common.h, a deterministic hash of a name. *)
Variable getHash : string -> Z.

Record internal_hash_t := {
  ih_id : Z; ih_name : string; ih_size : Z; ih_hash : Z }.

Definition EVAL (id : Z) (entity : string) : internal_hash_t :=
  {| ih_id := id; ih_name := entity;
     ih_size := Z.of_nat (String.length entity); ih_hash := getHash entity |}.

(** [__internal_hash]. *)
Definition internal_hash : list internal_hash_t :=
  [ EVAL ID_VOID "void"; EVAL ID_OCTET "octet"; EVAL ID_INT8 "int8_t";
    EVAL ID_INT16 "int16_t"; EVAL ID_SHORT "short"; EVAL ID_INT32 "int32_t";
    EVAL ID_INT "int"; EVAL ID_LONG "long"; EVAL ID_INT64 "int64_t";
    EVAL ID_LONGLONG "long long"; EVAL ID_UINT8 "uint8_t";
    EVAL ID_UINT16 "uint16_t"; EVAL ID_UINT32 "uint32_t";
    EVAL ID_UINT64 "uint64_t"; EVAL ID_BOOL "bool"; EVAL ID_BOOLEAN "boolean";
    EVAL ID_CHAR "char"; EVAL ID_FLOAT "float"; EVAL ID_STRING "string";
    EVAL ID_DOUBLE "double"; EVAL ID_SEQUENCE "sequence";
    EVAL ID_CONST "const";
    EVAL ID_STRUCT "struct"; EVAL ID_MODULE "module";
    EVAL ID_TYPEDEF "typedef" ].

(** The entries [from <= i < to] of the table. *)
Definition internal_range (from to : Z) : list internal_hash_t :=
  skipn (Z.to_nat from) (firstn (Z.to_nat to) internal_hash).

(** The [is_*] functions return 1 with [result] set ([Some result]) or 0
    with [result] at -1 ([None]). *)
Definition is_builtin_type (hash : Z) : option Z :=
  match first_hit (fun e => hash =? ih_hash e)
                  (internal_range TYPE_START LAST_TYPE) TYPE_START with
  | Some (i, _) => Some (i + TYPE_SPACER)
  | None => None
  end.

Definition is_builtin_base (hash : Z) : option Z :=
  match first_hit (fun e => hash =? ih_hash e)
                  (internal_range BASE_START LAST_BASE) BASE_START with
  | Some (i, _) => Some (i + BASE_SPACER)
  | None => None
  end.

Definition is_struct (p : Parser) (hash : Z) : option Z :=
  match first_hit (fun s => st_hash s =? hash) (structs p) 0 with
  | Some (i, _) => Some (i + USER_BASE_SPACER_STRUCT)
  | None => None
  end.

Definition is_typedef (p : Parser) (hash : Z) : option Z :=
  match first_hit (fun t => td_hash t =? hash) (typedefs p) 0 with
  | Some (i, _) => Some (i + USER_BASE_SPACER_TYPEDEF)
  | None => None
  end.

Definition is_user_base (p : Parser) (hash : Z) : option Z :=
  match is_typedef p hash with
  | Some r => Some r
  | None => is_struct p hash
  end.

Definition getType (p : Parser) (hash : Z) : Z :=
  match is_builtin_type hash with
  | Some r => r
  | None =>
      match is_builtin_base hash with
      | Some r => r
      | None =>
          match is_user_base p hash with
          | Some r => r
          | None => -1
          end
      end
  end.

(** [getBase]: [ne_assert(0)] when the hash is no base keyword. *)
Definition getBase (hash : Z) : result Z :=
  match is_builtin_base hash with
  | Some r => Ok r
  | None => Abort
  end.

(** [getRealType], [depth] bounding the nesting of its recursive calls. *)
Fixpoint getRealType_rec (depth : nat) (p : Parser) (hash : Z)
  : result Typedef_t :=
  match depth with
  | O => Diverges
  | S k =>
      (* built-in type *)
      match first_hit (fun e => hash =? ih_hash e)
                      (internal_range 0 LAST_TYPE) 0 with
      | Some (i, e) =>
          Ok {| td_hash := hash; td_type := i + TYPE_SPACER;
                td_name := ih_name e; td_baseName := "";
                td_nameSpace := ""; td_size := -1 |}
      | None =>
          (* typedef *)
          match first_hit (fun t => td_hash t =? hash) (typedefs p) 0 with
          | Some (_, t) =>
              if negb (String.eqb (td_baseName t) "")
              then
                (* keep base info (original type + size) *)
                r ← getRealType_rec k p (getHash (td_baseName t));
                Ok {| td_hash := td_hash r; td_type := td_type t;
                      td_name := td_name r; td_baseName := td_baseName r;
                      td_nameSpace := td_nameSpace r; td_size := td_size t |}
              else Ok t
          | None =>
              (* structs *)
              match first_hit (fun s => st_hash s =? hash) (structs p) 0 with
              | Some (_, s) =>
                  Ok {| td_hash := hash;
                        td_type := ID_STRUCT + USER_BASE_SPACER_STRUCT;
                        td_name := st_name s; td_baseName := st_name s;
                        td_nameSpace := nameSpace p; td_size := -1 |}
              | None => Ok Typedef_t0
              end
          end
      end
  end.

(** A chain of typedefs that ends visits each entry of [typedefs] at
    most once, and one more call returns: this depth bounds every
    recursion of the source that ends. *)
Definition getRealType (p : Parser) (hash : Z) : result Typedef_t :=
  getRealType_rec (S (List.length (typedefs p))) p hash.

(** [type2Name]. *)
Definition type2Name (p : Parser) (type : Z) : result string :=
  if USER_BASE_SPACER_STRUCT <=? type
  then s ← at_index (structs p) (type - USER_BASE_SPACER_STRUCT); Ok (st_name s)
  else if USER_BASE_SPACER_TYPEDEF <=? type
  then t ← at_index (typedefs p) (type - USER_BASE_SPACER_TYPEDEF); Ok (td_name t)
  else if BASE_SPACER <=? type
  then e ← at_index internal_hash (type - BASE_SPACER); Ok (ih_name e)
  else if TYPE_SPACER <=? type
  then e ← at_index internal_hash (type - TYPE_SPACER); Ok (ih_name e)
  else Ok "".

(** [getName]. *)
Definition getName (p : Parser) (hash : Z) : string :=
  match first_hit (fun e => hash =? ih_hash e) internal_hash 0 with
  | Some (_, e) => ih_name e
  | None =>
      match first_hit (fun t => hash =? td_hash t) (typedefs p) 0 with
      | Some (_, t) => td_name t
      | None =>
          match first_hit (fun s => hash =? st_hash s) (structs p) 0 with
          | Some (_, s) => st_name s
          | None => ""
          end
      end
  end.

End Registry.

(** ** Scanner primitives *)

Definition LF : ascii := "010"%char.
Definition CR : ascii := "013"%char.
Definition TAB : ascii := "009"%char.
Definition DQ : ascii := "034"%char.   (* the double quote *)
Definition SQ : ascii := "039"%char.   (* the single quote *)
Definition BSL : ascii := "092"%char.  (* the backslash *)

(** The longest prefix of characters that satisfy [p]. *)
Fixpoint span_while (p : ascii -> bool) (s : string) : string :=
  match s with
  | EmptyString => EmptyString
  | String c r => if p c then String c (span_while p r) else EmptyString
  end.

(** [skip_spaces]: the number of leading spaces and line feeds. *)
Definition skip_spaces (src : string) : nat :=
  String.length (span_while (strchr (" " +:+ str1 LF)) src).

(** [get_symbol]: the next character after spaces (the test against
    [symbols] only prints). *)
Definition get_symbol (src : string) : ascii :=
  peek (advance (skip_spaces src) src).

(** [isdigit(c) || isalpha(c) || strchr("_:", c)]. *)
Definition is_name_char (c : ascii) : bool :=
  isdigit c || isalpha c || strchr "_:" c.

(** [read_name]: the text read and the number of characters consumed.
    The tests of a bad name only print; the early return on a line feed
    cannot be taken after [skip_spaces]. *)
Definition read_name (src : string) (size : nat) : result (string * nat) :=
  let k := skip_spaces src in
  let text := span_while is_name_char (advance k src) in
  fits size text (text, (k + String.length text)%nat).

(** [read_token] without [symbols]. *)
Definition read_token (src : string) (size : nat) : result (string * nat) :=
  let k := skip_spaces src in
  match advance k src with
  | EmptyString => Ok ("", 0%nat)
  | s =>
      let text := span_while is_name_char s in
      fits size text (text, (k + String.length text)%nat)
  end.

(** [expect_symbol]: whatever character follows the spaces is consumed. *)
Definition expect_symbol (src : string) (symbol : ascii) : nat :=
  let k := skip_spaces src in
  match advance k src with
  | EmptyString => k
  | String _ _ => S k
  end.

Section ReadBlock.

Variables from to : ascii.

(** [if (from && to)]: [from] at the cursor counts up, else [to] counts down. *)
Definition count_nesting (counter : Z) (c : ascii) : Z :=
  if negb (Ascii.eqb from NUL) && negb (Ascii.eqb to NUL)
  then (if Ascii.eqb c from then counter + 1
        else if Ascii.eqb c to then counter - 1
        else counter)
  else counter.

(** An opening parenthesis counts up, else a closing one counts down. *)
Definition count_braces (braces : Z) (c : ascii) : Z :=
  if Ascii.eqb c "(" then braces + 1
  else if Ascii.eqb c ")" then braces - 1
  else braces.

(** The cursor is at [to] with [counter == 0 && braces == 0]. *)
Definition closes (c : ascii) (counter braces : Z) : bool :=
  Ascii.eqb c to && (counter =? 0) && (braces =? 0).

(** The [while] loop of [read_block]: the text copied to [dest] and
    the number of characters consumed.  [prev] is [*(s - 1)]. *)
Fixpoint read_block_loop (s : string) (prev : ascii) (is_string : bool)
    (braces counter : Z) : result (string * nat) :=
  match s with
  | EmptyString => Ok ("", 0%nat)
  | String c r =>
      if is_string then
        if Ascii.eqb c DQ && negb (Ascii.eqb prev BSL) then
          if Ascii.eqb c to then Ok ("", 1%nat)
          else
            '(t, n) ← read_block_loop r c false braces counter;
            Ok (String c t, S n)
        else
          '(t, n) ← read_block_loop r c true braces counter;
          Ok (String c t, S n)
      else if Ascii.eqb c DQ then
        if closes c counter braces then Ok ("", 1%nat)
        else
          '(t, n) ← read_block_loop r c true braces counter;
          Ok (String c t, S n)
      else
        let braces := count_braces braces c in
        if Ascii.eqb c BSL && Ascii.eqb (peek r) LF then
          (* escape: s++; s++; the rest of the body runs on the new character *)
          match r with
          | String _ (String c2 r2) =>
              let counter := count_nesting counter c2 in
              if closes c2 counter braces then Ok ("", 3%nat)
              else
                '(t, n) ← read_block_loop r2 c2 false braces counter;
                Ok (String c2 t, S (S (S n)))
          | _ => Undefined  (* the terminator is copied and stepped over *)
          end
        else
          let counter := count_nesting counter c in
          if closes c counter braces then Ok ("", 1%nat)
          else
            '(t, n) ← read_block_loop r c false braces counter;
            Ok (String c t, S n)
  end.

(** [read_block] into a destination of [size] bytes.  The "fix the
    block" test of a space cannot hold after the spaces were skipped. *)
Definition read_block (src : string) (size : nat) : result (string * nat) :=
  let k := String.length (span_while (Ascii.eqb " ") src) in
  match advance k src with
  | EmptyString => Ok ("", 0%nat)
  | String c r =>
      let opened := Ascii.eqb c from in
      let is_string := opened && Ascii.eqb c DQ in
      let braces := if opened && Ascii.eqb c "(" then 1 else 0 in
      let counter := if opened then 1 else 0 in
      let s := if opened then r else String c r in
      let n0 := if opened then 1%nat else 0%nat in
      '(t, n) ← read_block_loop s c is_string braces counter;
      fits size t (t, (k + n0 + n)%nat)
  end.

End ReadBlock.

(** ** Scanner primitives: [read_digit] *)

(** [isdigit(c) || strchr("aAbBcCdDeEfF", c)]. *)
Definition is_hex_char (c : ascii) : bool :=
  isdigit c || strchr "aAbBcCdDeEfF" c.

(** The tests of one turn of the decimal loop of [read_digit]: whether
    the character [c] at the cursor is copied.  [prev] is [*(s - 1)],
    [None] when [s] is the first byte of its buffer: the tests of a
    point, an exponent, a sign and a suffix read it. *)
Definition digit_continues (c : ascii) (prev : option ascii) : result bool :=
  if strchr ".eEfF" c then
    match prev with
    | Some b => Ok (isdigit b)
    | None => Undefined  (* the byte before the buffer is read *)
    end
  else if strchr "+-" c then
    match prev with
    | Some b => Ok (Ascii.eqb b "e" || Ascii.eqb b "E")
    | None => Undefined
    end
  else Ok (isdigit c).

(** The decimal loop of [read_digit]: the text copied. *)
Fixpoint read_digit_loop (s : string) (prev : option ascii) : result string :=
  match s with
  | EmptyString => Ok ""
  | String c r =>
      copied ← digit_continues c prev;
      if (copied : bool) then t ← read_digit_loop r (Some c); Ok (String c t)
      else Ok ""
  end.

(** [read_digit] into a destination of [size] bytes; [before] is the
    byte in front of [src], if [src] is not the first byte of its
    buffer. *)
Definition read_digit (before : option ascii) (src : string) (size : nat)
  : result (string * nat) :=
  let k := skip_spaces src in
  let s := advance k src in
  let prev := match k with
              | O => before
              | S j => Some (peek (advance j src))
              end in
  match s with
  | String c0 (String c1 r) =>
      if Ascii.eqb c0 "0" && (Ascii.eqb c1 "x" || Ascii.eqb c1 "X") then
        let text := String c0 (String c1 (span_while is_hex_char r)) in
        fits size text (text, (k + String.length text)%nat)
      else
        text ← read_digit_loop s prev;
        fits size text (text, (k + String.length text)%nat)
  | _ =>
      text ← read_digit_loop s prev;
      fits size text (text, (k + String.length text)%nat)
  end.

(** ** The declaration parser *)

(** [remove_namespace]: the returned name and the [nameSpace] set
    through the reference. *)
Definition remove_namespace (name : string) : string * string :=
  let s := replace name "::" "/" in
  let mar := Explode s "/" in
  match mar with
  | m0 :: m1 :: _ => (basename m1, m0)
  | _ => (s, "")
  end.

(** The conversion of a [long] to an [int] of 32 bits. *)
Definition to_int (z : Z) : Z := (z + 2 ^ 31) mod 2 ^ 32 - 2 ^ 31.

(** [ifdef]. *)
Definition ifdef (p : Parser) (name : string) : bool :=
  match defines p !! name with
  | Some _ => true
  | None => false
  end.

(** [define] and [undef]. *)
Definition define (name value : string) (p : Parser) : Parser :=
  set_defines (<[name := value]> (defines p)) p.

Definition undef (name : string) (p : Parser) : Parser :=
  set_defines (delete name (defines p)) p.

(** The text of [s] before the cursor moved by [n]. *)
Definition consumed_by (n : nat) (s : string) : string := substring 0 n s.

(** The part of a text after its last line feed. *)
Fixpoint last_line_from (s cur : string) : string :=
  match s with
  | EmptyString => cur
  | String c r =>
      if Ascii.eqb c LF then last_line_from r "" else last_line_from r (cur +:+ str1 c)
  end.

Definition last_line (s : string) : string := last_line_from s "".

Section DeclarationParser.

Variable getHash : string -> Z.

(** [parse_variable]. *)
Definition parse_variable (type : Z) (struct_name name fromNamespace : string)
    (is_key : bool) (p : Parser) : result (Variable_t * Parser) :=
  t ← getRealType getHash p type;  (* std type or user type *)
  let v := {| var_hash := getHash name; var_type := t; var_is_key := is_key;
              var_name := name; var_struct_name := struct_name;
              var_fromNamespace := fromNamespace |} in
  Ok (v, set_variables (variables p ++ [v]) p).

(** One statement of a struct body, split into [mar]: the hash of the
    type, the name of the field, the namespace and the key flag handed
    to [parse_variable], or [None] when the statement is skipped. *)
Definition struct_field (mar : list string)
  : result (option (Z * string * string * bool)) :=
  match mar with
  | mar0 :: mar1 :: rest =>
      match rest with
      | mar2 :: _ =>
          if String.eqb mar0 "@key" then
            (* remove any namespace from type string *)
            let '(_, fromNameSpace) := remove_namespace mar0 in
            Ok (Some (getHash mar1, mar2, fromNameSpace, true))
          else Undefined  (* [type] is passed on without a value *)
      | [] =>
          (* remove any namespace from type string *)
          let '(m0, fromNameSpace) := remove_namespace mar0 in
          Ok (Some (getHash m0, mar1, fromNameSpace, false))
      end
  | _ => Ok None
  end.

(** The [while] loop of [parse_struct] over the body. *)
Fixpoint parse_struct_loop (fuel : nat) (name s : string)
    (fields : list Variable_t) (p : Parser)
  : result (list Variable_t * Parser) :=
  match s with
  | EmptyString => Ok (fields, p)
  | String _ _ =>
      match fuel with
      | O => Diverges
      | S k =>
          '(variable, n) ← read_block NUL ";" s 4096;
          let s := advance n s in
          let s := advance (skip_spaces s) s in
          f ← struct_field (Explode variable " ");
          match f with
          | Some (type, varName, fromNameSpace, is_key) =>
              '(v, p) ← parse_variable type name varName fromNameSpace is_key p;
              parse_struct_loop k name s (fields ++ [v]) p
          | None => parse_struct_loop k name s fields p
          end
      end
  end.

(** [parse_struct].  The minified copy of the body is only printed. *)
Definition parse_struct (type : Z) (name body : string) (p : Parser)
  : result Parser :=
  base ← getBase getHash type;
  let s := advance (skip_spaces body) body in
  '(fields, p1) ← parse_struct_loop (S (String.length s)) name s [] p;
  let str := {| st_hash := getHash name; st_type := base; st_name := name;
                st_nameSpace := nameSpace p; st_fields := fields |} in
  Ok (set_structs (structs p1 ++ [str]) p1).

(** [parse_typedef]. *)
Definition parse_typedef (body : string) (p : Parser) : result Parser :=
  let input := replace body ", " "," in
  let mar := Explode input " " in
  let b_hash := if (2 <=? List.length mar)%nat
                then getHash (nth 0 mar "") else 0 in
  let hit := match is_builtin_type getHash b_hash with
             | Some r => Some r
             | None => is_user_base p b_hash
             end in
  match hit with
  | Some result =>
      baseTypeName ← type2Name getHash p result;
      newTypeName ← at_index mar 1;
      (* store new type *)
      let typeDef := {| td_hash := getHash newTypeName; td_type := result;
                        td_name := newTypeName; td_baseName := baseTypeName;
                        td_nameSpace := nameSpace p; td_size := -1 |} in
      Ok (set_typedefs (typedefs p ++ [typeDef]) p)
  | None =>
      mar0 ← at_index mar 0;
      if contains "sequence" mar0 then
        let tStr := replace (replace mar0 "<" " ") ">" " " in
        let mar2 := Explode tStr " " in
        mar1 ← at_index mar 1;
        elem ← at_index mar2 1;
        let seq_type := ID_SEQUENCE + TYPE_SPACER in
        (* check for sequence size *)
        match Explode mar0 "," with
        | m0 :: m1 :: _ =>
            let m0 := replace m0 "<" " " in
            let m1 := replace m1 ">" "" in
            let mar3 := Explode m0 " " in
            baseName ←
              (match mar3 with
               | [_; t1] => t ← getRealType getHash p (getHash t1); Ok (td_name t)
               | _ => Ok elem
               end);
            let typeDef := {| td_hash := getHash mar1; td_type := seq_type;
                              td_name := mar1; td_baseName := baseName;
                              td_nameSpace := nameSpace p;
                              td_size := to_int (atol m1) |} in
            Ok (set_typedefs (typedefs p ++ [typeDef]) p)
        | _ =>
            let typeDef := {| td_hash := getHash mar1; td_type := seq_type;
                              td_name := mar1; td_baseName := elem;
                              td_nameSpace := nameSpace p; td_size := 0 |} in
            Ok (set_typedefs (typedefs p ++ [typeDef]) p)
        end
      else Ok p
  end.

(** The [while] loop of [IdlParser::parse]: [consumed] is the text
    between [src] and the cursor [s]; the result is [s - src] at the
    return. *)
Fixpoint parse_loop (fuel : nat) (consumed s : string) (p : Parser)
  : result (nat * Parser) :=
  match s with
  | EmptyString => Ok (String.length consumed, p)
  | String _ _ =>
      match fuel with
      | O => Diverges
      | S k =>
          let n := skip_spaces s in
          let consumed := consumed +:+ consumed_by n s in
          let s := advance n s in
          (* read current line *)
          '(l, _) ← read_block NUL LF (last_line consumed +:+ s) 1024;
          let p := set_line l p in
          match s with
          | EmptyString => Ok (String.length consumed, p)  (* end of source *)
          | String c r =>
              if Ascii.eqb c ";" then parse_loop k (consumed +:+ ";") r p
              else if Ascii.eqb c "{" then
                '(m, p) ← parse_loop k "" r p;
                parse_loop k (consumed +:+ "{" +:+ consumed_by m r) (advance m r) p
              else if Ascii.eqb c "}" then Ok (S (String.length consumed), p)
              else
                (* read next token *)
                '(buf, n) ← read_token s 256;
                if String.eqb buf "" then Ok (String.length consumed, p)
                else
                  let consumed := consumed +:+ consumed_by n s in
                  let s := advance n s in
                  let b_hash := getHash buf in
                  let type_hit := match is_builtin_type getHash b_hash with
                                  | Some r => Some r
                                  | None => is_user_base p b_hash
                                  end in
                  match type_hit with
                  | Some _ =>
                      (* variable (can be built-in type or user type) *)
                      '(_, _) ← read_name s 1024;
                      '(variables, n) ← read_block NUL ";" s 4096;
                      '(_, p) ← parse_variable b_hash "" variables "" false p;
                      parse_loop k (consumed +:+ consumed_by n s) (advance n s) p
                  | None =>
                      match is_builtin_base getHash b_hash with
                      | Some result =>
                          let id := result - BASE_SPACER in
                          if id =? ID_TYPEDEF then
                            let n0 := skip_spaces s in
                            let consumed := consumed +:+ consumed_by n0 s in
                            let s := advance n0 s in
                            '(body, n) ← read_block NUL ";" s 4096;
                            p ← parse_typedef body p;
                            parse_loop k (consumed +:+ consumed_by n s) (advance n s) p
                          else if id =? ID_STRUCT then
                            '(name, n1) ← read_name s 1024;
                            let consumed := consumed +:+ consumed_by n1 s in
                            let s := advance n1 s in
                            let n2 := expect_symbol s "{" in
                            let consumed := consumed +:+ consumed_by n2 s in
                            let s := advance n2 s in
                            '(dest, n3) ← read_block NUL "}" s (S (String.length s));
                            let consumed := consumed +:+ consumed_by n3 s in
                            let s := advance n3 s in
                            p ← parse_struct b_hash name dest p;
                            if Ascii.eqb (peek s) ";"
                            then parse_loop k (consumed +:+ ";") (advance 1 s) p
                            else parse_loop k consumed s p
                          else if id =? ID_MODULE then
                            '(name, n1) ← read_name s 1024;
                            let consumed := consumed +:+ consumed_by n1 s in
                            let s := advance n1 s in
                            let p := set_nameSpace name p in
                            '(m, p) ← parse_loop k "" s p;
                            parse_loop k (consumed +:+ consumed_by m s) (advance m s) p
                          else parse_loop k consumed s p
                      | None =>
                          (* check if it's a define *)
                          if ifdef p buf then
                            '(variables, n) ← read_block NUL ")" s 4096;
                            let d := {| ud_line := buf +:+ variables +:+ ");" |} in
                            parse_loop k (consumed +:+ consumed_by n s) (advance n s)
                                       (set_udefines (udefines p ++ [d]) p)
                          else
                            (* unknown token *)
                            parse_loop k consumed s p
                      end
                  end
          end
      end
  end.

(** [IdlParser::parse]: every turn of the loop but the last of a call
    consumes a character, and a call is entered after one was consumed. *)
Definition parse (src : string) (p : Parser) : result (nat * Parser) :=
  parse_loop (2 * String.length src + 2) "" src p.

End DeclarationParser.

(** ** Minification ([minify_code]) *)

(** Where the cursor of [minify_code] stands: in the main loop, in the
    loop of a line comment, in the loop of a block comment, on the
    slash that closes one, or in the loop of a string ([*(s - 1)] kept). *)
Inductive minify_mode : Type :=
| InCode
| InLineComment
| InBlockComment
| InBlockEnd
| InStringLit (prev : ascii).

(** What one character does: it is dropped or a character is written. *)
Inductive minify_action : Type :=
| Drop (m : minify_mode)
| Put (c : ascii) (m : minify_mode).

(** The chain of tests of the main loop on [c], [next] the character
    after it. *)
Definition minify_code_char (c next : ascii) : minify_action :=
  if Ascii.eqb c "/" && Ascii.eqb next "/" then Drop InLineComment
  else if Ascii.eqb c "/" && Ascii.eqb next "*" then Drop InBlockComment
  else if Ascii.eqb c DQ then Put c (InStringLit c)
  else if Ascii.eqb c CR then Drop InCode
  else if Ascii.eqb c TAB then Put " " InCode
  else if Ascii.eqb c " " && Ascii.eqb next " " then Drop InCode
  else if Ascii.eqb c LF && Ascii.eqb next LF then Drop InCode
  else Put c InCode.

Definition minify_step (m : minify_mode) (c next : ascii) : minify_action :=
  match m with
  | InCode => minify_code_char c next
  | InLineComment =>
      (* while a line feed is not reached: s++ *)
      if Ascii.eqb c LF then minify_code_char c next else Drop InLineComment
  | InBlockComment =>
      (* while the cursor is not on a star followed by a slash: s++; then s += 2 *)
      if Ascii.eqb c "*" && Ascii.eqb next "/" then Drop InBlockEnd
      else Drop InBlockComment
  | InBlockEnd => Drop InCode
  | InStringLit prev =>
      if Ascii.eqb c DQ && negb (Ascii.eqb prev BSL) then Put c InCode
      else Put c (InStringLit c)
  end.

Fixpoint minify_from (m : minify_mode) (s : string) : result string :=
  match s with
  | EmptyString =>
      match m with
      | InBlockComment => Undefined  (* s += 2 steps over the terminator *)
      | _ => Ok ""
      end
  | String c r =>
      match minify_step m c (peek r) with
      | Drop m' => minify_from m' r
      | Put x m' => t ← minify_from m' r; Ok (String x t)
      end
  end.

(** [minify_code] on a text. *)
Definition minify_code (s : string) : result string := minify_from InCode s.

(** ** The preprocessor *)

(** What a returned [char *] points to. *)
Inductive buffer : Type :=
| Text (s : string)
| Freed.             (* the pointer was passed to N_DEALLOCATE *)

(** The separators of the macro substitution. *)
Definition separators : string :=
  " " +:+ str1 LF +:+ ",.=:;()[]{}<>+-*/%!&|^" +:+ str1 DQ +:+ str1 SQ.

Definition is_separator (c : ascii) : bool := strchr separators c.

(** The scan from [d - 1] back to the last separator: the output before
    [t] and the run [t .. d). *)
Fixpoint last_run (out : string) : string * string :=
  match out with
  | EmptyString => ("", "")
  | String c r =>
      let '(before, run) := last_run r in
      match before with
      | EmptyString =>
          if is_separator c then (str1 c, run) else ("", String c run)
      | _ => (String c before, run)
      end
  end.

(** [String(int)]: the decimal digits. *)
Definition String_of_int (z : Z) : string :=
  DecimalString.NilZero.string_of_int (Z.to_int z).

(** The local variables of [preprocessor] and the session. *)
Record pp_state := {
  pp_out : string;          (* data .. d *)
  pp_rest : string;         (* s .. *)
  pp_defines : list bool;   (* the local [int_v defines], the stack *)
  define_ok : bool;
  current_line : Z;
  pp_this : Parser }.

(** [define_ok = 1; for (...) if (defines[i] == 0) { define_ok = 0; break; }] *)
Definition all_defined (stack : list bool) : bool := forallb (fun b => b) stack.

Definition pp_moved (rest : string) (st : pp_state) : pp_state :=
  {| pp_out := pp_out st; pp_rest := rest; pp_defines := pp_defines st;
     define_ok := define_ok st; current_line := current_line st;
     pp_this := pp_this st |}.

Definition pp_stacked (stack : list bool) (st : pp_state) : pp_state :=
  {| pp_out := pp_out st; pp_rest := pp_rest st; pp_defines := stack;
     define_ok := all_defined stack; current_line := current_line st;
     pp_this := pp_this st |}.

Definition pp_with (p : Parser) (st : pp_state) : pp_state :=
  {| pp_out := pp_out st; pp_rest := pp_rest st; pp_defines := pp_defines st;
     define_ok := define_ok st; current_line := current_line st;
     pp_this := p |}.

Definition pp_wrote (out rest : string) (st : pp_state) : pp_state :=
  {| pp_out := out; pp_rest := rest; pp_defines := pp_defines st;
     define_ok := define_ok st; current_line := current_line st;
     pp_this := pp_this st |}.

(** The loop that copies a string after its opening quote: the text
    copied and what is left of the source.  [prev] is [*(s - 1)]. *)
Fixpoint copy_string (s : string) (prev : ascii) : string * string :=
  match s with
  | EmptyString => ("", "")
  | String c r =>
      if Ascii.eqb c DQ && negb (Ascii.eqb prev BSL) then (str1 c, r)
      else let '(t, r') := copy_string r c in (String c t, r')
  end.

(** "defined words replacement": [out] is the output before [d], [c] the
    character written at [d]; the output up to and with that character. *)
Definition replace_defined (defs : gmap string string) (out : string) (c : ascii)
  : string :=
  if negb (String.eqb out "") && is_separator c then
    let '(before, run) := last_run out in
    if negb (String.eqb run "") then
      match defs !! run with
      | Some value =>
          if negb (Ascii.eqb (peek value) "0")
          then before +:+ value +:+ str1 c
          else before +:+ str1 c
      | None => out +:+ str1 c
      end
    else out +:+ str1 c
  else out +:+ str1 c.

(** [while (the cursor is on neither the terminator nor a line feed) s++]. *)
Fixpoint skip_line (s : string) : string :=
  match s with
  | EmptyString => EmptyString
  | String c r => if Ascii.eqb c LF then s else skip_line r
  end.

(** [defines.pop_back()] and [defines[defines.size() - 1] = v] on a stack
    that is not empty. *)
Definition pop_back (stack : list bool) : list bool := removelast stack.

Definition negate_back (stack : list bool) : list bool :=
  removelast stack ++ [negb (List.last stack false)].

Section Preprocessor.

(** The call [preprocessor(name)] made for an [#include]: it loads the
    file and preprocesses it with the same session. *)
Variable include_file : string -> Parser -> result (buffer * Parser).

(** The [file] argument, which [__FILE__] prints. *)
Variable file : string.

(** The body of [if (the cursor is on a '#')], [r] the text after the
    '#'.  Every directive that is known ends in [continue]. *)
Definition pp_directive (st : pp_state) (r : string) : result pp_state :=
  (* read current line *)
  '(l, _) ← read_block NUL LF (String "#" r) 1024;
  let p := set_line l (pp_this st) in
  let st := pp_with p st in
  '(buf, n) ← read_token r 256;
  let s := advance n r in
  if String.eqb buf "ifdef" then
    '(name, n) ← read_name s 256;
    Ok (pp_stacked (pp_defines st ++ [ifdef p name]) (pp_moved (advance n s) st))
  else if String.eqb buf "elif" then
    Ok (pp_moved (skip_line s) st)
  else if String.eqb buf "ifndef" then
    '(name, n) ← read_name s 256;
    Ok (pp_stacked (pp_defines st ++ [negb (ifdef p name)])
                   (pp_moved (advance n s) st))
  else if String.eqb buf "else" then
    match pp_defines st with
    | [] => Undefined  (* data is freed, the empty stack is indexed *)
    | _ :: _ => Ok (pp_stacked (negate_back (pp_defines st)) (pp_moved s st))
    end
  else if String.eqb buf "endif" then
    match pp_defines st with
    | [] => Undefined  (* data is freed, the empty stack is popped *)
    | _ :: _ => Ok (pp_stacked (pop_back (pp_defines st)) (pp_moved s st))
    end
  else if String.eqb buf "if" then
    Ok (pp_moved (skip_line s) st)
  else if String.eqb buf "define" then
    '(name, n) ← read_name s 256;
    let s := advance n s in
    '(value, s) ←
      (if Ascii.eqb (peek s) LF then Ok ("", advance 1 s)
       else '(value, n) ← read_block NUL LF s 1024; Ok (value, advance n s));
    let p := if define_ok st then define name value p else p in
    Ok (pp_with p (pp_moved s st))
  else if String.eqb buf "undef" then
    '(name, n) ← read_name s 256;
    let p := if define_ok st then undef name p else p in
    Ok (pp_with p (pp_moved (advance n s) st))
  else if String.eqb buf "pragma" then
    '(_, n) ← read_name s 256;
    let s := advance n s in
    '(_, n) ← read_block NUL LF s 1024;
    Ok (pp_moved (advance n s) st)
  else if String.eqb buf "include" then
    let c := get_symbol s in
    '(name, s) ←
      (if Ascii.eqb c DQ
       then '(name, n) ← read_block DQ DQ s 256; Ok (name, advance n s)
       else if Ascii.eqb c "<"
       then '(name, n) ← read_block "<" ">" s 256; Ok (name, advance n s)
       else Ok ("", s));
    if define_ok st then
      '(include, p) ← include_file name p;
      match include with
      | Freed => Undefined  (* strlen of a freed buffer *)
      | Text include =>
          (* the text is spliced in at d, and d = s *)
          Ok (pp_with p (pp_wrote (pp_out st +:+ include) s st))
      end
    else Ok (pp_moved s st)
  else
    (* unknown preprocessor token: data is freed and used again *)
    Undefined.

(** The rest of the body of the loop for a character [c] that is no
    '#', [r] the text after it. *)
Definition pp_character (st : pp_state) (c : ascii) (r : string)
  : result pp_state :=
  (* clear line *)
  let p := set_line "" (pp_this st) in
  (* preprocessor defines *)
  let p := define "__FILE__"
             (str1 DQ +:+ file +:+ ":" +:+ String_of_int (current_line st)
              +:+ str1 DQ) p in
  let p := define "__LINE__" (String_of_int (current_line st)) p in
  let st := pp_with p st in
  if negb (define_ok st) then Ok (pp_moved r st)
  else
    let s1 := peek r in
    let s2 := peek (advance 1 r) in
    let s3 := peek (advance 2 r) in
    (* don't change symbols *)
    if Ascii.eqb c SQ && Ascii.eqb s1 BSL && negb (Ascii.eqb s2 NUL)
       && Ascii.eqb s3 SQ
    then Ok (pp_wrote (pp_out st +:+ String c (String s1 (String s2 (str1 s3))))
                      (advance 3 r) st)
    else if Ascii.eqb c SQ && String.eqb r ""
    then Undefined  (* the byte after the terminator is read; whether the
                       buffer holds one there is not modelled *)
    else if Ascii.eqb c SQ && negb (Ascii.eqb s2 BSL) && Ascii.eqb s2 SQ
    then Ok (pp_wrote (pp_out st +:+ String c (String s1 (str1 s2)))
                      (advance 2 r) st)
    else
      (* defined words replacement *)
      let out := replace_defined (defines p) (pp_out st) c in
      (* don't change strings *)
      if Ascii.eqb c DQ
      then let '(t, r') := copy_string r c in Ok (pp_wrote (out +:+ t) r' st)
      else Ok (pp_wrote out r st).

(** One turn of the [while] loop of the preprocessor. *)
Definition pp_step (st : pp_state) : result pp_state :=
  match pp_rest st with
  | EmptyString => Ok st
  | String c r =>
      (* line counter *)
      let st := {| pp_out := pp_out st; pp_rest := pp_rest st;
                   pp_defines := pp_defines st; define_ok := define_ok st;
                   current_line := if Ascii.eqb c LF then current_line st + 1
                                   else current_line st;
                   pp_this := pp_this st |} in
      if Ascii.eqb c "#" then pp_directive st r else pp_character st c r
  end.

Fixpoint pp_loop (fuel : nat) (st : pp_state) : result pp_state :=
  match pp_rest st with
  | EmptyString => Ok st
  | String _ _ =>
      match fuel with
      | O => Diverges
      | S k => st' ← pp_step st; pp_loop k st'
      end
  end.

(** The state at the entry of the loop, [data] minified. *)
Definition pp_init (data : string) (p : Parser) : pp_state :=
  {| pp_out := ""; pp_rest := data; pp_defines := []; define_ok := true;
     current_line := 0; pp_this := p |}.

(** [preprocessor(path, file, data, len)]: every turn of the loop moves
    the cursor, so the length of the text bounds the turns.  An
    unfinished conditional frees [data] and returns the pointer. *)
Definition preprocessor_text (data : string) (p : Parser)
  : result (buffer * Parser) :=
  data ← minify_code data;
  st ← pp_loop (S (String.length data)) (pp_init data p);
  match pp_defines st with
  | [] => Ok (Text (pp_out st), pp_this st)
  | _ :: _ => Ok (Freed, pp_this st)
  end.

End Preprocessor.

Section Files.

(** [getFile]: the contents of a file, [None] when it cannot be opened. *)
Variable getFile : string -> option string.

(** [preprocessor(name)], [depth] bounding the nesting of includes.  The
    directory [path] cut from [name] is only used after a call returned
    NULL, and none does. *)
Fixpoint preprocessor_file (depth : nat) (name : string) (p : Parser)
  : result (buffer * Parser) :=
  match depth with
  | O => Diverges
  | S k =>
      match getFile name with
      | None => Abort  (* ne_assert(0) *)
      | Some data => preprocessor_text (preprocessor_file k) name data p
      end
  end.

(** [preprocessor(path, file, data, len)] of a session. *)
Definition preprocessor (depth : nat) (file data : string) (p : Parser)
  : result (buffer * Parser) :=
  preprocessor_text (preprocessor_file depth) file data p.

End Files.

(** ** Teardown *)

(** [Parser::clear]. *)
Definition clear (p : Parser) : Parser :=
  set_modules [] (set_udefines [] (set_variables [] (set_structs [] p))).

(** The body of [~IdlParser], then the body of [~Parser]. *)
Definition teardown (p : Parser) : Parser :=
  clear (set_code "" (set_defines ∅ p)).

(** ** The pipeline *)

Section Pipeline.

Variable getHash : string -> Z.
Variable getFile : string -> option string.

(** [IdlParser::optimize] up to the hook [user_optimize]: the text is
    preprocessed, then parsed. *)
Definition optimize (depth : nat) (filename code_ : string) (p : Parser)
  : result Parser :=
  '(rdata, p) ← preprocessor getFile depth filename code_ p;
  match rdata with
  | Freed => Undefined  (* parse reads the freed buffer *)
  | Text rdata => '(_, p) ← parse getHash rdata p; Ok p
  end.

End Pipeline.

(** ** A hash and a file system for closed examples *)

(** A deterministic hash of 32 bits (the multiply-by-33 hash), one
    instance of the parameter [getHash]. *)
Fixpoint hash33 (s : string) (h : Z) : Z :=
  match s with
  | EmptyString => h
  | String c r => hash33 r ((h * 33 + Z.of_N (N_of_ascii c)) mod 2 ^ 32)
  end.

Definition sample_hash (s : string) : Z := hash33 s 5381.

(** No file can be opened. *)
Definition no_files (name : string) : option string := None.

(** Sessions of closed examples: the text is preprocessed and parsed
    with [sample_hash], no file at hand. *)
Definition run_session (text : string) : Parser :=
  match optimize sample_hash no_files 1 "a.idl" text Parser0 with
  | Ok p => p
  | _ => Parser0
  end.

(** * Properties *)

(** ** The chain of calls of [getRealType] *)

Section TypedefChain.

Variable getHash : string -> Z.
Variable p : Parser.

(** The hash that [getRealType] calls itself with, if it does. *)
Definition typedef_step (hash : Z) : option Z :=
  match first_hit (fun e => hash =? ih_hash e)
                  (internal_range getHash 0 LAST_TYPE) 0 with
  | Some _ => None
  | None =>
      match first_hit (fun t => td_hash t =? hash) (typedefs p) 0 with
      | Some (_, t) =>
          if negb (String.eqb (td_baseName t) "")
          then Some (getHash (td_baseName t)) else None
      | None => None
      end
  end.

(** The chain of calls from [hash] ends after [k] nested calls. *)
Inductive chain_ends : Z -> nat -> Prop :=
| chain_ends_here hash : typedef_step hash = None -> chain_ends hash 0
| chain_ends_next hash hash' k :
    typedef_step hash = Some hash' -> chain_ends hash' k ->
    chain_ends hash (S k).

(** [hash'] is called in the chain from [hash]. *)
Inductive chain_calls : Z -> Z -> Prop :=
| chain_calls_here hash : chain_calls hash hash
| chain_calls_next hash hash' hash'' :
    typedef_step hash = Some hash' -> chain_calls hash' hash'' ->
    chain_calls hash hash''.

End TypedefChain.

(** ** Minification: plain texts *)

(** A character outside string literals that is no tab, no carriage
    return and opens no comment. *)
Definition plain_char (c next : ascii) : bool :=
  negb (Ascii.eqb c TAB) && negb (Ascii.eqb c CR)
  && negb (Ascii.eqb c "/" && (Ascii.eqb next "/" || Ascii.eqb next "*")).

(** A text all of whose characters outside string literals are plain;
    the literals are found as [minify_code] finds them. *)
Fixpoint plain_from (m : minify_mode) (s : string) : bool :=
  match m, s with
  | (InLineComment | InBlockComment | InBlockEnd), _ => false
  | _, EmptyString => true
  | InCode, String c r =>
      if Ascii.eqb c DQ then plain_from (InStringLit c) r
      else plain_char c (peek r) && plain_from InCode r
  | InStringLit prev, String c r =>
      if Ascii.eqb c DQ && negb (Ascii.eqb prev BSL) then plain_from InCode r
      else plain_from (InStringLit c) r
  end.

Definition plain (s : string) : bool := plain_from InCode s.

(** ** Macro substitution: runs *)

(** A text without separators, and a text that ends in one. *)
Fixpoint no_separator (s : string) : bool :=
  match s with
  | EmptyString => true
  | String c r => negb (is_separator c) && no_separator r
  end.

Fixpoint ends_with_separator (s : string) : bool :=
  match s with
  | EmptyString => false
  | String c EmptyString => is_separator c
  | String _ r => ends_with_separator r
  end.

(** [run] is the maximal run of characters that are no separators at
    the end of [out], [before] the text in front of it. *)
Definition maximal_run (out before run : string) : Prop :=
  out = before +:+ run
  /\ no_separator run = true
  /\ (before = "" \/ ends_with_separator before = true).

(** ** Macro substitution: the whole text *)

(** The define table at a character of line [line]: the two keys that
    the loop refreshes hold the position. *)
Definition table_at (file : string) (defs : gmap string string) (line : Z)
  : gmap string string :=
  <["__LINE__" := String_of_int line]>
    (<["__FILE__" := str1 DQ +:+ file +:+ ":" +:+ String_of_int line +:+ str1 DQ]>
       defs).

(** What a run becomes in front of a separator. *)
Definition substituted (table : gmap string string) (run : string) : string :=
  if String.eqb run "" then ""
  else match table !! run with
       | Some value => if Ascii.eqb (peek value) "0" then "" else value
       | None => run
       end.

(** Outside or inside a string literal ([prev] the character before). *)
Inductive literal_mode : Type :=
| Outside
| Inside (prev : ascii).

(** The substitution as the amended rule words it, for the whole text:
    every run in front of a separator is substituted, the string
    literals are copied, a run that ends the text stays.  [run] is the
    run read so far, [line] the number of line feeds passed outside the
    literals. *)
Fixpoint substitute_runs (file : string) (defs : gmap string string)
    (m : literal_mode) (line : Z) (run s : string) : string :=
  match s with
  | EmptyString => run
  | String c r =>
      match m with
      | Inside prev =>
          String c (substitute_runs file defs
                      (if Ascii.eqb c DQ && negb (Ascii.eqb prev BSL)
                       then Outside else Inside c) line "" r)
      | Outside =>
          let line := if Ascii.eqb c LF then line + 1 else line in
          if is_separator c then
            substituted (table_at file defs line) run
            +:+ String c (substitute_runs file defs
                            (if Ascii.eqb c DQ then Inside c else Outside)
                            line "" r)
          else substitute_runs file defs Outside line (run +:+ str1 c) r
      end
  end.

(** A text with no directive and no character literal: neither '#' nor
    a single quote. *)
Fixpoint no_directive_no_quote (s : string) : bool :=
  match s with
  | EmptyString => true
  | String c r =>
      negb (Ascii.eqb c "#") && negb (Ascii.eqb c SQ) && no_directive_no_quote r
  end.

(** ** Conditional compilation: the states of the loop *)

(** The states that the loop of the preprocessor goes through from [st0]. *)
Inductive pp_reach (include_file : string -> Parser -> result (buffer * Parser))
    (file : string) (st0 : pp_state) : pp_state -> Prop :=
| pp_reach_start : pp_reach include_file file st0 st0
| pp_reach_turn st st' :
    pp_reach include_file file st0 st ->
    pp_step include_file file st = Ok st' ->
    pp_reach include_file file st0 st'.

(** [define_ok] is the conjunction of the whole stack. *)
Definition enabled_is_and (st : pp_state) : Prop :=
  define_ok st = all_defined (pp_defines st).

(** ** The registry during a struct body *)

(** Two sessions with the same registry: [getRealType] reads no more. *)
Definition same_registry (p q : Parser) : Prop :=
  typedefs p = typedefs q /\ structs p = structs q /\ nameSpace p = nameSpace q.

(** What a field [v] of a struct is made of: a statement [mar] of the
    body that hands the hash [h] to [parse_variable], and the type that
    [h] resolves to in the session [p]. *)
Definition field_resolved_in (getHash : string -> Z) (p : Parser)
    (v : Variable_t) (h : Z) : Prop :=
  exists mar nm ns key,
    struct_field getHash mar = Ok (Some (h, nm, ns, key))
    /\ getRealType getHash p h = Ok (var_type v)
    /\ var_name v = nm /\ var_is_key v = key /\ var_fromNamespace v = ns.

(** ** Modules *)

(** The token that [read_token] reads at a cursor. *)
Definition next_token (s : string) : string :=
  span_while is_name_char (advance (skip_spaces s) s).

(** No cursor in the text stands on a token with the hash of "module":
    the text declares no module. *)
Fixpoint module_free (getHash : string -> Z) (s : string) : bool :=
  negb (getHash (next_token s) =? getHash "module")
  && match s with
     | EmptyString => true
     | String _ r => module_free getHash r
     end.

(** ** A chain of typedefs *)

(** No two of the names have the same hash. *)
Fixpoint collision_free (getHash : string -> Z) (names : list string) : bool :=
  match names with
  | [] => true
  | a :: rest =>
      forallb (fun b => negb (getHash a =? getHash b)) rest
      && collision_free getHash rest
  end.

Definition is_name (names : list string) (a : string) : bool :=
  existsb (String.eqb a) names.

(** The names of the table and of the declarations of the example. *)
Definition chain_names : list string :=
  [ "void"; "octet"; "int8_t"; "int16_t"; "short"; "int32_t"; "int"; "long";
    "int64_t"; "long long"; "uint8_t"; "uint16_t"; "uint32_t"; "uint64_t";
    "bool"; "boolean"; "char"; "float"; "string"; "double"; "sequence";
    "const"; "struct"; "module"; "typedef"; "A"; "B"; "S" ].

Definition chain_text : string :=
  "typedef uint32_t A; typedef A B; struct S { B f; };".

Section ChainEntries.

Variable getHash : string -> Z.

(** What [typedef uint32_t A] and [typedef A B] store. *)
Definition A_entry (ns : string) : Typedef_t :=
  {| td_hash := getHash "A"; td_type := ID_UINT32 + TYPE_SPACER; td_name := "A";
     td_baseName := "uint32_t"; td_nameSpace := ns; td_size := -1 |}.

Definition B_entry (ns : string) : Typedef_t :=
  {| td_hash := getHash "B"; td_type := USER_BASE_SPACER_TYPEDEF; td_name := "B";
     td_baseName := "A"; td_nameSpace := ns; td_size := -1 |}.

(** The type of a field declared with [B]. *)
Definition B_resolved : Typedef_t :=
  {| td_hash := getHash "uint32_t"; td_type := USER_BASE_SPACER_TYPEDEF;
     td_name := "uint32_t"; td_baseName := ""; td_nameSpace := ""; td_size := -1 |}.

Definition f_field : Variable_t :=
  {| var_hash := getHash "f"; var_type := B_resolved; var_is_key := false;
     var_name := "f"; var_struct_name := "S"; var_fromNamespace := "" |}.

Definition S_entry (ns : string) : Struct_t :=
  {| st_hash := getHash "S"; st_type := ID_STRUCT + BASE_SPACER; st_name := "S";
     st_nameSpace := ns; st_fields := [f_field] |}.

End ChainEntries.

(** ** Sessions and states of the closed examples *)

(** A typedef named as a builtin type, and a typedef named as a struct. *)
Definition shadow_session : Parser :=
  run_session "typedef uint32_t int; struct S { int32_t a; }; typedef int32_t S;".

(** A typedef declared in a module. *)
Definition module_session : Parser :=
  run_session "module M { typedef int32_t T; };".

(** A session in the module [A]. *)
Definition outer_session : Parser := set_nameSpace "A" Parser0.

(** The text after [module A {] of a module nested in another one. *)
Definition nested_module_text : string :=
  "module B { typedef int32_t T; }; typedef int32_t U; };".

(** The loop of the preprocessor in front of the separator that follows
    [FOO], with [FOO] defined as 5. *)
Definition foo_state : pp_state :=
  {| pp_out := "int32_t FOO"; pp_rest := ";"; pp_defines := [];
     define_ok := true; current_line := 0;
     pp_this := define "FOO" "5" Parser0 |}.

(** A text with two runs in front of separators and a string literal. *)
Definition foo_text : string :=
  "int32_t FOO = FOO + " +:+ str1 DQ +:+ "FOO" +:+ str1 DQ +:+ ";".

(** The state after the two directives of a text. *)
Definition else_text : string :=
  "#ifndef X" +:+ str1 LF +:+ "#else" +:+ str1 LF +:+ "int32_t a;".

Definition next_state (st : pp_state) : pp_state :=
  match pp_step (preprocessor_file no_files 1) "a.idl" st with
  | Ok st' => st'
  | _ => st
  end.

Definition else_state1 : pp_state := next_state (pp_init else_text Parser0).
Definition else_state2 : pp_state := next_state else_state1.
Definition else_state : pp_state := next_state else_state2.

(** A conditional inside a conditional that is left out: the states
    after [#ifdef X], after the line feed and after [#ifndef X]. *)
Definition nested_text : string :=
  "#ifdef X" +:+ str1 LF +:+ "#ifndef X" +:+ str1 LF +:+ "int32_t a;".

Definition nested_state1 : pp_state := next_state (pp_init nested_text Parser0).
Definition nested_state2 : pp_state := next_state nested_state1.
Definition nested_state : pp_state := next_state nested_state2.

(** ** Blocks without nesting *)

(** A text without [to], quote, parenthesis, backslash and terminator
    character: a block that [read_block] copies as it stands. *)
Fixpoint plain_block (to : ascii) (s : string) : bool :=
  match s with
  | EmptyString => true
  | String c r =>
      negb (Ascii.eqb c to) && negb (Ascii.eqb c DQ) && negb (Ascii.eqb c "(")
      && negb (Ascii.eqb c ")") && negb (Ascii.eqb c BSL)
      && negb (Ascii.eqb c NUL) && plain_block to r
  end.

(** [n] spaces. *)
Fixpoint spaces (n : nat) : string :=
  match n with
  | O => ""
  | S k => String " " (spaces k)
  end.

(** The first character of a text is no space. *)
Definition no_leading_space (s : string) : bool := negb (Ascii.eqb (peek s) " ").

(** No character of [s] is in [set]. *)
Fixpoint avoids (set s : string) : bool :=
  match s with
  | EmptyString => true
  | String c r => negb (strchr set c) && avoids set r
  end.

(** Every character of [s] satisfies [f]. *)
Fixpoint all_chars (f : ascii -> bool) (s : string) : bool :=
  match s with
  | EmptyString => true
  | String c r => f c && all_chars f r
  end.

(** The character at the cursor cannot go on a number: it is no digit,
    point, exponent, sign, suffix or hexadecimal mark. *)
Definition ends_number (s : string) : bool :=
  negb (isdigit (peek s) || strchr ".eEfF+-xX" (peek s)).

(** ** Minification: comments and literals *)

(** A star followed by a slash occurs in the text. *)
Fixpoint has_comment_end (s : string) : bool :=
  match s with
  | EmptyString => false
  | String c r => (Ascii.eqb c "*" && Ascii.eqb (peek r) "/") || has_comment_end r
  end.

(** No tab and no carriage return outside the string literals of a
    text, the literals found as the scanners find them. *)
Fixpoint no_tab_cr (m : literal_mode) (s : string) : bool :=
  match s with
  | EmptyString => true
  | String c r =>
      match m with
      | Outside =>
          negb (Ascii.eqb c TAB) && negb (Ascii.eqb c CR)
          && no_tab_cr (if Ascii.eqb c DQ then Inside c else Outside) r
      | Inside prev =>
          no_tab_cr (if Ascii.eqb c DQ && negb (Ascii.eqb prev BSL)
                     then Outside else Inside c) r
      end
  end.

(** The literal mode of the output while [minify_code] is in mode [m]. *)
Definition written_mode (m : minify_mode) : literal_mode :=
  match m with
  | InStringLit prev => Inside prev
  | _ => Outside
  end.

(** ** Sessions of the closed examples of the registry *)

(** Two aliases of each other, the first declared after a struct of
    the name of the second. *)
Definition alias_cycle_text : string :=
  "struct S { int32_t a; }; typedef S T; typedef T S;".

Definition alias_cycle_session : Parser := run_session alias_cycle_text.

(** ** Declarations: what is registered *)

(** [is_builtin_type(hash, result) || is_user_base(hash, result)], the
    test of a type in [parse] and in [parse_typedef]. *)
Definition type_hit (getHash : string -> Z) (p : Parser) (hash : Z) : option Z :=
  match is_builtin_type getHash hash with
  | Some r => Some r
  | None => is_user_base p hash
  end.

(** The entry that [parse_typedef] stores for an alias. *)
Definition alias_entry (getHash : string -> Z) (p : Parser) (result : Z)
    (baseTypeName newTypeName : string) : Typedef_t :=
  {| td_hash := getHash newTypeName; td_type := result;
     td_name := newTypeName; td_baseName := baseTypeName;
     td_nameSpace := nameSpace p; td_size := -1 |}.

(** [q] holds what [p] holds and what was appended to the tables of
    typedefs, structs, variables and user defines; the other tables,
    the defines and the code are the same. *)
Definition extends (p q : Parser) : Prop :=
  (exists more, typedefs q = (typedefs p ++ more)%list)
  /\ (exists more, structs q = (structs p ++ more)%list)
  /\ (exists more, variables q = (variables p ++ more)%list)
  /\ (exists more, udefines q = (udefines p ++ more)%list)
  /\ enums q = enums p /\ modules q = modules p
  /\ defines q = defines p /\ code q = code p.

(** ** The preprocessor: outcomes and undefined names *)

(** A run that the substitution leaves as it is: it is empty, or no
    key of the table, the two keys of the position included. *)
Definition undefined_run (defs : gmap string string) (run : string) : bool :=
  String.eqb run ""
  || (match defs !! run with None => true | Some _ => false end
      && negb (String.eqb run "__FILE__") && negb (String.eqb run "__LINE__")).

(** Every run of the text in front of a separator, outside the string
    literals, is undefined; [run] is the run read so far. *)
Fixpoint runs_undefined (defs : gmap string string) (m : literal_mode)
    (run s : string) : bool :=
  match s with
  | EmptyString => true
  | String c r =>
      match m with
      | Inside prev =>
          runs_undefined defs
            (if Ascii.eqb c DQ && negb (Ascii.eqb prev BSL)
             then Outside else Inside c) "" r
      | Outside =>
          if is_separator c then
            undefined_run defs run
            && runs_undefined defs (if Ascii.eqb c DQ then Inside c else Outside)
                 "" r
          else runs_undefined defs Outside (run +:+ str1 c) r
      end
  end.

(** The number of line feeds of a text. *)
Fixpoint line_feeds (s : string) : Z :=
  match s with
  | EmptyString => 0
  | String c r => (if Ascii.eqb c LF then 1 else 0) + line_feeds r
  end.

(** The call does not return: the recursion of the source has no end. *)
Definition diverges {A : Type} (r : result A) : bool :=
  match r with
  | Diverges => true
  | _ => false
  end.

(** A text that can stand between the quotes or the angle brackets of
    [#include]: no line feed, quote, parenthesis, backslash and angle
    bracket. *)
Definition include_name (s : string) : bool :=
  plain_block LF s && avoids "<>" s.

(** A directory that holds one file, [b.idl], with one define. *)
Definition one_header (name : string) : option string :=
  if String.eqb name "b.idl" then Some ("#define W 8" +:+ str1 LF) else None.


(** * Proofs *)

(** ** Tools *)

Lemma bind_Ok {A B : Type} (r : result A) (k : A -> result B) (b : B) :
  r ≫= k = Ok b -> exists a, r = Ok a /\ k a = Ok b.
Proof. destruct r; simpl; try discriminate. eauto. Qed.

(** An equation [... = Ok _] is split along the binds and the tests of
    its left side. *)
Ltac split_result H :=
  repeat first
    [ discriminate H
    | match type of H with
      | (?r ≫= _) = Ok _ =>
          let a := fresh "a" in let E := fresh "E" in
          apply bind_Ok in H as (a & E & H); try destruct a; simpl in H
      | (if ?b then _ else _) = Ok _ => let E := fresh "E" in destruct b eqn:E
      | (match ?x with _ => _ end) = Ok _ => let E := fresh "E" in destruct x eqn:E
      end ].

Lemma sapp_cons (c : ascii) (s t : string) : String c s +:+ t = String c (s +:+ t).
Proof. reflexivity. Qed.

Lemma sapp_nil_l (s : string) : "" +:+ s = s.
Proof. reflexivity. Qed.

Lemma sapp_nil_r (s : string) : s +:+ "" = s.
Proof. induction s as [|c s IH]; [reflexivity|]. rewrite sapp_cons, IH. reflexivity. Qed.

Lemma sapp_assoc (s t u : string) : (s +:+ t) +:+ u = s +:+ t +:+ u.
Proof.
  induction s as [|c s IH]; [reflexivity|]. rewrite !sapp_cons, IH. reflexivity.
Qed.

Lemma first_hit_In {A : Type} (f : A -> bool) (l : list A) (i j : Z) (x : A) :
  first_hit f l i = Some (j, x) -> f x = true /\ In x l.
Proof.
  revert i. induction l as [|y l IH]; intros i H; simpl in H; [discriminate|].
  destruct (f y) eqn:E.
  - injection H as <- <-. split; [exact E|left; reflexivity].
  - destruct (IH _ H). split; [assumption|right; assumption].
Qed.

Lemma first_hit_app {A : Type} (f : A -> bool) (l l' : list A) (i : Z) :
  first_hit f (l ++ l') i =
    match first_hit f l i with
    | Some x => Some x
    | None => first_hit f l' (i + Z.of_nat (List.length l))
    end.
Proof.
  revert i. induction l as [|x l IH]; intros i.
  - simpl. rewrite Z.add_0_r. reflexivity.
  - cbn [app first_hit]. destruct (f x); [reflexivity|].
    rewrite IH. destruct (first_hit f l (i + 1)); [reflexivity|].
    f_equal. cbn [List.length]. lia.
Qed.

(** ** The registry: which registration wins *)

Section RegistryFacts.

Variable getHash : string -> Z.

Lemma is_builtin_type_None h :
  is_builtin_type getHash h = None ->
  first_hit (fun e => h =? ih_hash e) (internal_range getHash 0 LAST_TYPE) 0 = None.
Proof.
  unfold is_builtin_type.
  change (internal_range getHash TYPE_START LAST_TYPE)
    with (internal_range getHash 0 LAST_TYPE).
  change TYPE_START with 0.
  destruct (first_hit _ _ 0) as [[i e]|]; [discriminate|reflexivity].
Qed.

Lemma is_user_base_None p h :
  is_user_base p h = None ->
  first_hit (fun t => td_hash t =? h) (typedefs p) 0 = None
  /\ first_hit (fun s => st_hash s =? h) (structs p) 0 = None.
Proof.
  unfold is_user_base, is_typedef, is_struct.
  destruct (first_hit _ (typedefs p) 0) as [[i t]|]; [discriminate|].
  destruct (first_hit _ (structs p) 0) as [[i t]|]; [discriminate|].
  split; reflexivity.
Qed.

Lemma getType_builtin p hash r :
  is_builtin_type getHash hash = Some r -> getType getHash p hash = r.
Proof. intros H. unfold getType. rewrite H. reflexivity. Qed.

Lemma getRealType_builtin p hash r :
  is_builtin_type getHash hash = Some r ->
  exists name,
    getRealType getHash p hash =
      Ok {| td_hash := hash; td_type := r; td_name := name; td_baseName := "";
            td_nameSpace := ""; td_size := -1 |}.
Proof.
  unfold is_builtin_type, getRealType. cbn [getRealType_rec].
  change (internal_range getHash TYPE_START LAST_TYPE)
    with (internal_range getHash 0 LAST_TYPE).
  change TYPE_START with 0.
  destruct (first_hit _ _ 0) as [[i e]|]; [|discriminate].
  intros [= <-]. exists (ih_name e). reflexivity.
Qed.

Lemma is_user_base_typedef p h t :
  is_typedef p h = Some t -> is_user_base p h = Some t.
Proof. intros H. unfold is_user_base. rewrite H. reflexivity. Qed.

Lemma getRealType_typedef p h t :
  is_builtin_type getHash h = None -> is_typedef p h = Some t ->
  forall res, getRealType getHash p h = Ok res ->
  exists e, In e (typedefs p) /\ td_hash e = h
            /\ td_type res = td_type e /\ td_size res = td_size e.
Proof.
  intros Hb. apply is_builtin_type_None in Hb.
  unfold is_typedef, getRealType. cbn [getRealType_rec]. rewrite Hb.
  destruct (first_hit _ (typedefs p) 0) as [[i e]|] eqn:E; [|discriminate].
  intros _ res Hres. apply first_hit_In in E as [E1 E2].
  exists e. split; [exact E2|]. split; [apply Z.eqb_eq, E1|].
  destruct (negb _).
  - apply bind_Ok in Hres as (x & _ & Hres). injection Hres as <-. split; reflexivity.
  - injection Hres as <-. split; reflexivity.
Qed.

Lemma getRealType_unregistered p h :
  is_builtin_type getHash h = None -> is_user_base p h = None ->
  getRealType getHash p h = Ok Typedef_t0.
Proof.
  intros Hb Hu. apply is_builtin_type_None in Hb.
  apply is_user_base_None in Hu as [Ht Hs].
  unfold getRealType. cbn [getRealType_rec]. rewrite Hb, Ht, Hs. reflexivity.
Qed.

Lemma getRealType_appended_struct p q str :
  is_builtin_type getHash (st_hash str) = None ->
  is_user_base p (st_hash str) = None ->
  typedefs q = typedefs p -> structs q = (structs p ++ [str])%list ->
  getRealType getHash q (st_hash str) =
    Ok {| td_hash := st_hash str; td_type := ID_STRUCT + USER_BASE_SPACER_STRUCT;
          td_name := st_name str; td_baseName := st_name str;
          td_nameSpace := nameSpace q; td_size := -1 |}.
Proof.
  intros Hb Hu Ht Hs. apply is_builtin_type_None in Hb.
  apply is_user_base_None in Hu as [Hut Hus].
  unfold getRealType. cbn [getRealType_rec]. rewrite Hb, Ht, Hut, Hs.
  rewrite first_hit_app, Hus. cbn [first_hit]. rewrite Z.eqb_refl. reflexivity.
Qed.

Lemma getRealType_rec_same depth p q hash :
  same_registry p q ->
  getRealType_rec getHash depth p hash = getRealType_rec getHash depth q hash.
Proof.
  intros (Ht & Hs & Hn). revert hash.
  induction depth as [|k IH]; intros hash; [reflexivity|].
  cbn [getRealType_rec]. rewrite Ht, Hs, Hn.
  destruct (first_hit _ (internal_range _ _ _) 0) as [[i e]|]; [reflexivity|].
  destruct (first_hit _ (typedefs q) 0) as [[i t]|]; [|reflexivity].
  rewrite IH. reflexivity.
Qed.

Lemma getRealType_same p q hash :
  same_registry p q -> getRealType getHash p hash = getRealType getHash q hash.
Proof.
  intros H. unfold getRealType. destruct H as (Ht & Hs & Hn). rewrite Ht.
  apply getRealType_rec_same. repeat split; assumption.
Qed.

End RegistryFacts.

(** C1, as amended: a hash registered as a builtin type keyword is
    classified ([getType]) and resolved ([getRealType]) as the builtin,
    whatever typedefs and structs the session holds under the same hash;
    a base keyword wins in [getType] too; among the user registrations
    the typedef is preferred over the struct, in the classification and
    in the resolution, which keeps the type code and the bound of the
    typedef. *)
Theorem builtin_type_shadows_user
    (getHash : string -> Z) (p : Parser) (hash r : Z) :
  is_builtin_type getHash hash = Some r ->
  getType getHash p hash = r
  /\ (exists name,
        getRealType getHash p hash =
          Ok {| td_hash := hash; td_type := r; td_name := name; td_baseName := "";
                td_nameSpace := ""; td_size := -1 |})
  /\ (forall h b, is_builtin_type getHash h = None ->
        is_builtin_base getHash h = Some b -> getType getHash p h = b)
  /\ (forall h t, is_typedef p h = Some t ->
        is_user_base p h = Some t
        /\ (is_builtin_type getHash h = None -> is_builtin_base getHash h = None ->
            getType getHash p h = t)
        /\ (is_builtin_type getHash h = None ->
            forall res, getRealType getHash p h = Ok res ->
            exists e, In e (typedefs p) /\ td_hash e = h
                      /\ td_type res = td_type e /\ td_size res = td_size e)).
Proof.
  intros H. split; [exact (getType_builtin _ _ _ _ H)|].
  split; [exact (getRealType_builtin _ _ _ _ H)|].
  split.
  - intros h b Hn Hb. unfold getType. rewrite Hn, Hb. reflexivity.
  - intros h t Ht. split; [exact (is_user_base_typedef _ _ _ Ht)|]. split.
    + intros Hn Hb. unfold getType.
      rewrite Hn, Hb, (is_user_base_typedef _ _ _ Ht). reflexivity.
    + intros Hn. exact (getRealType_typedef _ _ _ _ Hn Ht).
Qed.

(** The session of [typedef uint32_t int; struct S { int32_t a; };
    typedef int32_t S;]: "int" is a builtin and a typedef, "S" a typedef
    and a struct. *)
Lemma builtin_type_shadows_user_witness :
  is_builtin_type sample_hash (sample_hash "int") = Some (ID_INT + TYPE_SPACER)
  /\ is_typedef shadow_session (sample_hash "int") = Some USER_BASE_SPACER_TYPEDEF
  /\ getType sample_hash shadow_session (sample_hash "int") = ID_INT + TYPE_SPACER
  /\ is_typedef shadow_session (sample_hash "S") = Some (1 + USER_BASE_SPACER_TYPEDEF)
  /\ is_struct shadow_session (sample_hash "S") = Some USER_BASE_SPACER_STRUCT
  /\ is_user_base shadow_session (sample_hash "S") = Some (1 + USER_BASE_SPACER_TYPEDEF).
Proof.
  assert (H : is_builtin_type sample_hash (sample_hash "int") = Some (ID_INT + TYPE_SPACER))
    by (vm_compute; reflexivity).
  assert (HS : is_typedef shadow_session (sample_hash "S")
               = Some (1 + USER_BASE_SPACER_TYPEDEF))
    by (vm_compute; reflexivity).
  destruct (builtin_type_shadows_user sample_hash shadow_session _ _ H)
    as (H1 & _ & _ & H4).
  destruct (H4 _ _ HS) as (H5 & _).
  repeat split; try assumption; vm_compute; reflexivity.
Defined.

(** C1 as stated fails: after [typedef uint32_t int;] the hash of "int"
    is registered as a typedef (code 8192, an alias of uint32_t) and as
    a builtin, and both [getType] and [getRealType] return the builtin
    (code 1030, name "int"), not the typedef. *)
Lemma user_type_does_not_shadow_builtin :
  is_typedef shadow_session (sample_hash "int") = Some 8192
  /\ is_builtin_type sample_hash (sample_hash "int") = Some 1030
  /\ getType sample_hash shadow_session (sample_hash "int") = 1030
  /\ getType sample_hash shadow_session (sample_hash "int") <> 8192
  /\ getRealType sample_hash shadow_session (sample_hash "int") =
       Ok {| td_hash := sample_hash "int"; td_type := 1030; td_name := "int";
             td_baseName := ""; td_nameSpace := ""; td_size := -1 |}
  /\ nth_error (typedefs shadow_session) 0 =
       Some {| td_hash := sample_hash "int"; td_type := 1036; td_name := "int";
               td_baseName := "uint32_t"; td_nameSpace := ""; td_size := -1 |}.
Proof. vm_compute. repeat split; try reflexivity. discriminate. Qed.

(** ** Minification *)

Lemma minify_from_cons m c r :
  minify_from m (String c r) =
    match minify_step m c (peek r) with
    | Drop m' => minify_from m' r
    | Put x m' => t ← minify_from m' r; Ok (String x t)
    end.
Proof. reflexivity. Qed.

Lemma minify_code_char_plain c next :
  Ascii.eqb c DQ = false -> plain_char c next = true ->
  minify_code_char c next =
    if (Ascii.eqb c " " && Ascii.eqb next " ") || (Ascii.eqb c LF && Ascii.eqb next LF)
    then Drop InCode else Put c InCode.
Proof.
  intros Hq Hp. unfold plain_char in Hp. unfold minify_code_char.
  rewrite Hq.
  destruct (Ascii.eqb c TAB), (Ascii.eqb c CR); try discriminate.
  destruct (Ascii.eqb_spec c "/") as [->|Hs].
  - destruct (Ascii.eqb next "/"), (Ascii.eqb next "*"); try discriminate.
    reflexivity.
  - simpl. destruct (Ascii.eqb c " " && Ascii.eqb next " "); reflexivity.
Qed.

(** What a plain text does at its first character: a space or a line
    feed in front of its like is dropped, any other character is
    written as it is, and the same holds in front of any text that
    begins alike. *)
Lemma minify_plain_cons m c r :
  plain_from m (String c r) = true ->
  exists m', plain_from m' r = true /\
    ((minify_step m c (peek r) = Drop m' /\ m = InCode /\ m' = InCode /\ peek r = c)
     \/ (minify_step m c (peek r) = Put c m' /\
         forall next, (m = InCode -> m' = InCode -> next = peek r) ->
                      minify_step m c next = Put c m')).
Proof.
  intros Hp. destruct m; simpl in Hp; try discriminate.
  - destruct (Ascii.eqb_spec c DQ) as [->|Hq].
    + exists (InStringLit DQ). split; [exact Hp|]. right. split; [reflexivity|].
      intros; reflexivity.
    + apply Ascii.eqb_neq in Hq. apply andb_prop in Hp as [Hc Hp].
      exists InCode. split; [exact Hp|]. simpl.
      rewrite (minify_code_char_plain _ _ Hq Hc).
      destruct (_ || _) eqn:Hd.
      * left. repeat split.
        apply orb_prop in Hd as [Hd|Hd]; apply andb_prop in Hd as [H1 H2];
          apply Ascii.eqb_eq in H1, H2; congruence.
      * right. split; [reflexivity|]. intros next Hn.
        rewrite (Hn eq_refl eq_refl).
        rewrite (minify_code_char_plain _ _ Hq Hc), Hd. reflexivity.
  - simpl. destruct (Ascii.eqb c DQ && negb (Ascii.eqb prev BSL)).
    + exists InCode. split; [exact Hp|]. right. split; [reflexivity|].
      intros; reflexivity.
    + exists (InStringLit c). split; [exact Hp|]. right. split; [reflexivity|].
      intros; reflexivity.
Qed.

(** On a plain text the minification returns. *)
Lemma minify_plain_total m s :
  plain_from m s = true -> exists t, minify_from m s = Ok t.
Proof.
  revert m. induction s as [|c r IH]; intros m Hp.
  - destruct m; simpl in *; try discriminate; eauto.
  - destruct (minify_plain_cons _ _ _ Hp) as (m' & Hp' & [(E & _)|(E & _)]);
      rewrite minify_from_cons, E; destruct (IH _ Hp') as [t Ht].
    + eauto.
    + rewrite Ht. simpl. eauto.
Qed.

(** The output begins as the text does. *)
Lemma minify_plain_head s t :
  plain_from InCode s = true -> minify_from InCode s = Ok t -> peek t = peek s.
Proof.
  revert t. induction s as [|c r IH]; intros t Hp Hm.
  - simpl in Hm. injection Hm as <-. reflexivity.
  - rewrite minify_from_cons in Hm.
    destruct (minify_plain_cons _ _ _ Hp) as (m' & Hp' & [(E & _ & -> & Hc)|(E & _)]);
      rewrite E in Hm.
    + rewrite (IH _ Hp' Hm). exact Hc.
    + apply bind_Ok in Hm as (t' & _ & Hm). injection Hm as <-. reflexivity.
Qed.

Lemma minify_plain_fixed m s t :
  plain_from m s = true -> minify_from m s = Ok t -> minify_from m t = Ok t.
Proof.
  revert m t. induction s as [|c r IH]; intros m t Hp Hm.
  - destruct m; simpl in *; try discriminate; injection Hm as <-; reflexivity.
  - rewrite minify_from_cons in Hm.
    destruct (minify_plain_cons _ _ _ Hp) as (m' & Hp' & [(E & -> & -> & _)|(E & Hn)]);
      rewrite E in Hm.
    + eauto.
    + apply bind_Ok in Hm as (t' & Hr & Hm). injection Hm as <-.
      rewrite minify_from_cons, Hn, (IH _ _ Hp' Hr); [reflexivity|].
      intros -> ->. exact (minify_plain_head _ _ Hp' Hr).
Qed.

(** C9, as amended: minification is idempotent on every text that has,
    outside its string literals, no tab, no carriage return and no
    comment: the text is minified, and minifying the result yields the
    result unchanged. *)
Theorem minify_code_idempotent_on_plain (s : string) :
  plain s = true ->
  exists t, minify_code s = Ok t /\ minify_code t = Ok t.
Proof.
  intros Hp. destruct (minify_plain_total _ _ Hp) as [t Ht].
  exists t. split; [exact Ht|]. exact (minify_plain_fixed _ _ _ Hp Ht).
Qed.

(** Runs of spaces and of line feeds around a string literal. *)
Lemma minify_code_idempotent_on_plain_witness :
  exists t,
    minify_code ("a   b" +:+ str1 LF +:+ str1 LF +:+ str1 DQ +:+ "x  //y"
                 +:+ str1 DQ +:+ "  c") = Ok t
    /\ minify_code t = Ok t.
Proof. apply minify_code_idempotent_on_plain. vm_compute. reflexivity. Defined.

(** C9 as stated fails: a tab in front of a space becomes a second
    space, which only a second pass removes. *)
Lemma minify_code_not_idempotent :
  minify_code (str1 TAB +:+ " ") = Ok "  "
  /\ minify_code "  " = Ok " "
  /\ minify_code "  " <> Ok "  ".
Proof. repeat split; discriminate. Qed.

(** ** Macro substitution *)

Lemma last_run_no_separator run :
  no_separator run = true -> last_run run = ("", run).
Proof.
  induction run as [|c r IH]; [reflexivity|]. simpl. intros H.
  apply andb_prop in H as [Hc Hr]. rewrite (IH Hr).
  apply negb_true_iff in Hc. rewrite Hc. reflexivity.
Qed.

(** The scan back from the end of the output finds the maximal run. *)
Lemma last_run_maximal out before run :
  maximal_run out before run -> last_run out = (before, run).
Proof.
  intros (-> & Hrun & Hb). induction before as [|c b IH].
  - rewrite sapp_nil_l. exact (last_run_no_separator _ Hrun).
  - destruct Hb as [Hb|Hb]; [discriminate|].
    rewrite sapp_cons. cbn [last_run]. destruct b as [|c' b'].
    + rewrite sapp_nil_l, (last_run_no_separator _ Hrun).
      simpl in Hb. rewrite Hb. reflexivity.
    + rewrite IH by (right; exact Hb). reflexivity.
Qed.

(** The loop of a string literal takes a prefix of the source as it is. *)
Lemma copy_string_verbatim r prev :
  fst (copy_string r prev) +:+ snd (copy_string r prev) = r.
Proof.
  revert prev. induction r as [|c r IH]; intros prev; [reflexivity|].
  simpl. destruct (_ && _); [reflexivity|].
  specialize (IH c). destruct (copy_string r c) as [t r']. simpl in *.
  rewrite sapp_cons, IH. reflexivity.
Qed.

Section Substitution.

Variable file : string.

Lemma pp_character_separator st c r before run value :
  define_ok st = true ->
  is_separator c = true -> c <> SQ ->
  maximal_run (pp_out st) before run -> run <> "" ->
  run <> "__FILE__" -> run <> "__LINE__" ->
  defines (pp_this st) !! run = Some value ->
  exists st',
    pp_character file st c r = Ok st'
    /\ pp_out st' =
         before +:+ (if Ascii.eqb (peek value) "0" then "" else value) +:+ str1 c
         +:+ (if Ascii.eqb c DQ then fst (copy_string r c) else "")
    /\ pp_rest st' = (if Ascii.eqb c DQ then snd (copy_string r c) else r).
Proof.
  intros Hok Hsep Hsq Hmax Hne Hf Hl Hv.
  unfold pp_character. cbn [define_ok pp_with]. rewrite Hok. cbn [negb].
  apply Ascii.eqb_neq in Hsq. rewrite Hsq. cbn [andb].
  unfold replace_defined. cbn [pp_out pp_with].
  rewrite (last_run_maximal _ _ _ Hmax), Hsep.
  assert (Hout : String.eqb (pp_out st) "" = false).
  { apply String.eqb_neq. destruct Hmax as (-> & _). intros E.
    destruct before; [|discriminate]. apply Hne. exact E. }
  rewrite Hout. cbn [negb andb].
  apply String.eqb_neq in Hne. rewrite Hne. cbn [negb].
  assert (Hlook : defines
            (define "__LINE__" (String_of_int (current_line st))
               (define "__FILE__"
                  (str1 DQ +:+ file +:+ ":" +:+ String_of_int (current_line st)
                   +:+ str1 DQ) (set_line "" (pp_this st)))) !! run = Some value).
  { unfold define. cbn [defines set_defines set_line].
    rewrite !lookup_insert_ne by congruence. exact Hv. }
  rewrite Hlook.
  destruct (Ascii.eqb c DQ) eqn:Hq.
  - destruct (copy_string r c) as [t r'] eqn:Hc. eexists. split; [reflexivity|].
    cbn [pp_out pp_rest pp_wrote fst snd].
    destruct (Ascii.eqb (peek value) "0"); cbn [negb];
      rewrite ?sapp_nil_l, ?sapp_assoc; split; reflexivity.
  - eexists. split; [reflexivity|]. cbn [pp_out pp_rest pp_wrote].
    destruct (Ascii.eqb (peek value) "0"); cbn [negb];
      rewrite ?sapp_nil_l, ?sapp_nil_r, ?sapp_assoc; split; reflexivity.
Qed.

Lemma pp_character_string st r :
  define_ok st = true ->
  exists st' literal out,
    pp_character file st DQ r = Ok st'
    /\ pp_out st' = out +:+ literal
    /\ literal +:+ pp_rest st' = r
    /\ literal = fst (copy_string r DQ)
    /\ out = replace_defined (defines (pp_this st')) (pp_out st) DQ.
Proof.
  intros Hok. unfold pp_character. cbn [define_ok pp_with]. rewrite Hok.
  cbn [negb]. change (Ascii.eqb DQ SQ) with false. cbn [andb].
  change (Ascii.eqb DQ DQ) with true. cbn [pp_out pp_with].
  pose proof (copy_string_verbatim r DQ) as Hcopy.
  destruct (copy_string r DQ) as [t r'] eqn:Hc.
  eexists _, t, _. split; [reflexivity|]. cbn [pp_out pp_rest pp_wrote pp_this].
  repeat split. exact Hcopy.
Qed.

End Substitution.

Lemma substitute_runs_inside file defs line r prev :
  substitute_runs file defs (Inside prev) line "" r =
    fst (copy_string r prev)
    +:+ substitute_runs file defs Outside line "" (snd (copy_string r prev)).
Proof.
  revert prev. induction r as [|c r IH]; intros prev; [reflexivity|].
  cbn [substitute_runs copy_string]. destruct (Ascii.eqb c DQ && negb (Ascii.eqb prev BSL)).
  - reflexivity.
  - rewrite IH. destruct (copy_string r c) as [t r']. reflexivity.
Qed.

Lemma copy_string_length r prev :
  (String.length (snd (copy_string r prev)) <= String.length r)%nat.
Proof.
  revert prev. induction r as [|c r IH]; intros prev; [simpl; lia|].
  cbn [copy_string]. destruct (_ && _); [simpl; lia|].
  specialize (IH c). destruct (copy_string r c) as [t r']. simpl in *. lia.
Qed.

Lemma no_directive_no_quote_copy r prev :
  no_directive_no_quote r = true ->
  no_directive_no_quote (snd (copy_string r prev)) = true.
Proof.
  revert prev. induction r as [|c r IH]; intros prev H; [reflexivity|].
  cbn [copy_string]. cbn [no_directive_no_quote] in H.
  apply andb_prop in H as [_ H].
  destruct (_ && _); [exact H|].
  specialize (IH c H). destruct (copy_string r c) as [t r']. exact IH.
Qed.

Lemma replace_defined_substituted defs out before run c :
  maximal_run out before run -> is_separator c = true ->
  replace_defined defs out c = before +:+ substituted defs run +:+ str1 c.
Proof.
  intros Hmax Hsep. unfold replace_defined, substituted.
  rewrite (last_run_maximal _ _ _ Hmax), Hsep.
  destruct Hmax as (-> & _ & _).
  destruct (String.eqb run "") eqn:Hrun.
  - apply String.eqb_eq in Hrun. subst run. rewrite sapp_nil_r.
    destruct (negb (String.eqb before "") && true); reflexivity.
  - assert (Hout : String.eqb (before +:+ run) "" = false).
    { apply String.eqb_neq. intros E. apply String.eqb_neq in Hrun.
      destruct before; [|discriminate]. apply Hrun. exact E. }
    rewrite Hout. cbn [negb andb].
    destruct (defs !! run) as [value|]; [|rewrite sapp_assoc; reflexivity].
    destruct (Ascii.eqb (peek value) "0"); cbn [negb];
      rewrite ?sapp_nil_l; reflexivity.
Qed.

Lemma replace_defined_plain defs out c :
  is_separator c = false -> replace_defined defs out c = out +:+ str1 c.
Proof.
  intros H. unfold replace_defined. rewrite H, andb_false_r. reflexivity.
Qed.

Lemma no_separator_app run c :
  no_separator run = true -> is_separator c = false ->
  no_separator (run +:+ str1 c) = true.
Proof.
  intros Hr Hc. induction run as [|a r IH].
  - simpl. rewrite Hc. reflexivity.
  - rewrite sapp_cons. cbn [no_separator] in *.
    apply andb_prop in Hr as [Ha Hr]. rewrite Ha, (IH Hr). reflexivity.
Qed.

Lemma ends_with_separator_app a b :
  ends_with_separator b = true -> ends_with_separator (a +:+ b) = true.
Proof.
  intros Hb. induction a as [|c a IH]; [rewrite sapp_nil_l; exact Hb|].
  rewrite sapp_cons. cbn [ends_with_separator].
  destruct (a +:+ b) eqn:E; [|exact IH].
  destruct a; [rewrite sapp_nil_l in E; subst b; discriminate|discriminate].
Qed.

Lemma copy_string_closed r prev :
  snd (copy_string r prev) <> "" ->
  ends_with_separator (fst (copy_string r prev)) = true.
Proof.
  revert prev. induction r as [|c r IH]; intros prev; [intros H; contradiction H; reflexivity|].
  cbn [copy_string]. destruct (Ascii.eqb c DQ && negb (Ascii.eqb prev BSL)) eqn:E.
  - intros _. apply andb_prop in E as [E _]. apply Ascii.eqb_eq in E. subst c.
    reflexivity.
  - specialize (IH c). destruct (copy_string r c) as [t r']. cbn [fst snd] in *.
    intros H. specialize (IH H). cbn [ends_with_separator].
    destruct t; [discriminate|exact IH].
Qed.

Lemma table_at_lookup file (m defs : gmap string string) line k :
  (forall k, k <> "__FILE__" -> k <> "__LINE__" -> m !! k = defs !! k) ->
  table_at file m line !! k = table_at file defs line !! k.
Proof.
  intros H. unfold table_at.
  destruct (decide (k = "__LINE__")) as [->|Hl].
  { rewrite !lookup_insert_eq. reflexivity. }
  rewrite !(lookup_insert_ne _ "__LINE__") by congruence.
  destruct (decide (k = "__FILE__")) as [->|Hf].
  { rewrite !lookup_insert_eq. reflexivity. }
  rewrite !lookup_insert_ne by congruence. apply H; assumption.
Qed.

Lemma substituted_ext (m1 m2 : gmap string string) run :
  (forall k, m1 !! k = m2 !! k) -> substituted m1 run = substituted m2 run.
Proof. intros H. unfold substituted. rewrite H. reflexivity. Qed.

Ltac sapp_norm :=
  unfold str1;
  repeat (rewrite sapp_assoc || rewrite sapp_cons || rewrite sapp_nil_l
          || rewrite sapp_nil_r);
  reflexivity.

Section Expansion.

Variable include_file : string -> Parser -> result (buffer * Parser).
Variable file : string.
Variable defs : gmap string string.

Lemma pp_loop_substitute_runs fuel :
  forall st before run,
    (String.length (pp_rest st) < fuel)%nat ->
    define_ok st = true ->
    maximal_run (pp_out st) before run ->
    (forall k, k <> "__FILE__" -> k <> "__LINE__" ->
               defines (pp_this st) !! k = defs !! k) ->
    no_directive_no_quote (pp_rest st) = true ->
    exists st',
      pp_loop include_file file fuel st = Ok st'
      /\ pp_out st' =
           before +:+ substitute_runs file defs Outside (current_line st) run (pp_rest st)
      /\ pp_defines st' = pp_defines st.
Proof.
  induction fuel as [|k IH]; intros st before run Hlen Hok Hmax Hdefs Hplain;
    [lia|].
  destruct st as [out rest stack ok line p]. cbn [pp_rest pp_out define_ok
    current_line pp_this pp_defines] in *. subst ok.
  destruct rest as [|c r].
  { exists {| pp_out := out; pp_rest := ""; pp_defines := stack;
              define_ok := true; current_line := line; pp_this := p |}.
    cbn [pp_loop pp_rest pp_out substitute_runs pp_defines].
    destruct Hmax as (-> & _). repeat split. }
  cbn [no_directive_no_quote] in Hplain.
  apply andb_prop in Hplain as [Hc Hplain]. apply andb_prop in Hc as [Hh Hq].
  apply negb_true_iff in Hh, Hq.
  cbn [pp_loop pp_rest]. unfold pp_step. cbn [pp_rest pp_out pp_defines
    define_ok current_line pp_this]. rewrite Hh.
  unfold pp_character. cbn [define_ok pp_with negb pp_out pp_this pp_defines
    current_line]. rewrite Hq. cbn [andb].
  set (line' := if Ascii.eqb c LF then line + 1 else line).
  set (p' := define "__LINE__" _ (define "__FILE__" _ (set_line "" p))).
  assert (Hp' : forall k, defines p' !! k = table_at file defs line' !! k).
  { intros k0. subst p'. unfold define. cbn [defines set_defines set_line].
    apply table_at_lookup. exact Hdefs. }
  assert (Hkeep : forall k, k <> "__FILE__" -> k <> "__LINE__" ->
                            defines p' !! k = defs !! k).
  { intros k0 Hf Hl. rewrite Hp'. unfold table_at.
    rewrite !lookup_insert_ne by congruence. reflexivity. }
  cbn [substitute_runs]. fold line'.
  destruct (is_separator c) eqn:Hsep.
  - rewrite (replace_defined_substituted _ _ _ _ _ Hmax Hsep).
    rewrite (substituted_ext _ _ run Hp').
    set (out1 := before +:+ substituted (table_at file defs line') run +:+ str1 c).
    assert (Hout1 : ends_with_separator out1 = true).
    { subst out1. rewrite <- sapp_assoc. apply ends_with_separator_app.
      simpl. exact Hsep. }
    destruct (Ascii.eqb c DQ) eqn:Hdq.
    + apply Ascii.eqb_eq in Hdq. subst c.
      pose proof (copy_string_length r DQ) as Hl.
      pose proof (no_directive_no_quote_copy r DQ Hplain) as Hpl.
      pose proof (copy_string_closed r DQ) as Hcl.
      rewrite substitute_runs_inside.
      destruct (copy_string r DQ) as [t r'] eqn:Hcopy. cbn [fst snd] in *.
      cbn [bind mbind result_bind].
      destruct r' as [|c' r''].
      * eexists. split; [destruct k; reflexivity|].
        cbn [pp_out pp_wrote pp_defines pp_with substitute_runs]. split; [|reflexivity].
        subst out1. sapp_norm.
      * destruct (IH (pp_wrote (out1 +:+ t) (String c' r'')
                       (pp_with p' {| pp_out := out; pp_rest := String DQ r;
                          pp_defines := stack; define_ok := true;
                          current_line := line'; pp_this := p |}))
                     (out1 +:+ t) "") as (st' & Hrun & Hres & Hst).
        -- cbn [pp_rest pp_wrote]. simpl in Hlen, Hl |- *. lia.
        -- reflexivity.
        -- cbn [pp_out pp_wrote]. split; [rewrite sapp_nil_r; reflexivity|].
           split; [reflexivity|]. right. apply ends_with_separator_app.
           apply Hcl. discriminate.
        -- exact Hkeep.
        -- exact Hpl.
        -- exists st'. split; [exact Hrun|]. split; [|exact Hst].
           rewrite Hres. cbn [current_line pp_wrote pp_with pp_rest].
           subst out1. sapp_norm.
    + cbn [bind mbind result_bind].
      destruct (IH (pp_wrote out1 r
                       (pp_with p' {| pp_out := out; pp_rest := String c r;
                          pp_defines := stack; define_ok := true;
                          current_line := line'; pp_this := p |}))
                   out1 "") as (st' & Hrun & Hres & Hst).
      * cbn [pp_rest pp_wrote]. simpl in Hlen |- *. lia.
      * reflexivity.
      * cbn [pp_out pp_wrote]. split; [rewrite sapp_nil_r; reflexivity|].
        split; [reflexivity|]. right. exact Hout1.
      * exact Hkeep.
      * exact Hplain.
      * exists st'. split; [exact Hrun|]. split; [|exact Hst].
        rewrite Hres. cbn [current_line pp_wrote pp_with pp_rest].
        subst out1. sapp_norm.
  - rewrite (replace_defined_plain _ _ _ Hsep).
    assert (Hdq : Ascii.eqb c DQ = false).
    { apply Ascii.eqb_neq. intros ->. discriminate. }
    rewrite Hdq. cbn [bind mbind result_bind].
    destruct Hmax as (Hout & Hrun & Hb).
    destruct (IH (pp_wrote (out +:+ str1 c) r
                     (pp_with p' {| pp_out := out; pp_rest := String c r;
                        pp_defines := stack; define_ok := true;
                        current_line := line'; pp_this := p |}))
                 before (run +:+ str1 c)) as (st' & Hrun' & Hres & Hst).
    + cbn [pp_rest pp_wrote]. simpl in Hlen |- *. lia.
    + reflexivity.
    + cbn [pp_out pp_wrote]. split; [rewrite Hout, sapp_assoc; reflexivity|].
      split; [apply no_separator_app; assumption|exact Hb].
    + exact Hkeep.
    + exact Hplain.
    + exists st'. split; [exact Hrun'|]. split; [|exact Hst]. exact Hres.
Qed.

End Expansion.

(** The preprocessor on a text that minifies to [text], when [text] has
    no directive and no character literal. *)
Lemma preprocessor_text_substitute_runs include_file file data text p :
  minify_code data = Ok text ->
  no_directive_no_quote text = true ->
  exists p',
    preprocessor_text include_file file data p
    = Ok (Text (substitute_runs file (defines p) Outside 0 "" text), p').
Proof.
  intros Hmin Hplain. unfold preprocessor_text. rewrite Hmin.
  cbn [bind mbind result_bind].
  destruct (pp_loop_substitute_runs include_file file (defines p)
              (S (String.length text)) (pp_init text p) "" "")
    as (st' & Hrun & Hout & Hst).
  - cbn [pp_init pp_rest]. lia.
  - reflexivity.
  - repeat split. left. reflexivity.
  - intros k _ _. reflexivity.
  - exact Hplain.
  - rewrite Hrun. cbn [bind mbind result_bind].
    cbn [pp_init pp_defines pp_rest current_line] in Hst, Hout.
    rewrite Hst, Hout. exists (pp_this st'). reflexivity.
Qed.

(** C2, as amended.  While the text is enabled, when a separator [c]
    other than a single quote is copied, the maximal run of characters
    that are no separators written just before it, if it is a key of
    the define table (other than the two keys refreshed at every
    character), is replaced by the bound text when that text does not
    begin with the character 0 (an empty text too, which removes the
    run) and is deleted when it begins with 0.  A string literal is
    copied from the source as it stands.  On a text with no directive
    and no character literal the output of the preprocessor is the text
    with this rule applied to every run in front of a separator.  With
    [#define FOO 5] the line [int32_t FOO;] becomes [int32_t 5;], and a
    string literal that contains FOO is unchanged. *)
Theorem macro_substitution_at_separator :
  (forall (file : string) (st : pp_state) (c : ascii) (r before run value : string),
      define_ok st = true ->
      is_separator c = true -> c <> SQ ->
      maximal_run (pp_out st) before run -> run <> "" ->
      run <> "__FILE__" -> run <> "__LINE__" ->
      defines (pp_this st) !! run = Some value ->
      exists st',
        pp_character file st c r = Ok st'
        /\ pp_out st' =
             before +:+ (if Ascii.eqb (peek value) "0" then "" else value)
             +:+ str1 c
             +:+ (if Ascii.eqb c DQ then fst (copy_string r c) else "")
        /\ pp_rest st' = (if Ascii.eqb c DQ then snd (copy_string r c) else r))
  /\ (forall (file : string) (st : pp_state) (r : string),
      define_ok st = true ->
      exists st' literal out,
        pp_character file st DQ r = Ok st'
        /\ pp_out st' = out +:+ literal
        /\ literal +:+ pp_rest st' = r
        /\ literal = fst (copy_string r DQ)
        /\ out = replace_defined (defines (pp_this st')) (pp_out st) DQ)
  /\ (forall (include_file : string -> Parser -> result (buffer * Parser))
             (file data text : string) (p : Parser),
      minify_code data = Ok text ->
      no_directive_no_quote text = true ->
      exists p',
        preprocessor_text include_file file data p
        = Ok (Text (substitute_runs file (defines p) Outside 0 "" text), p'))
  /\ (forall (getFile : string -> option string) (depth : nat),
      (exists p,
         preprocessor getFile depth "a.idl"
           ("#define FOO 5" +:+ str1 LF +:+ "int32_t FOO;") Parser0
         = Ok (Text "int32_t 5;", p))
      /\ (exists p,
         preprocessor getFile depth "a.idl"
           ("#define FOO 5" +:+ str1 LF +:+ "string s = " +:+ str1 DQ
            +:+ "a FOO b" +:+ str1 DQ +:+ ";") Parser0
         = Ok (Text ("string s = " +:+ str1 DQ +:+ "a FOO b" +:+ str1 DQ +:+ ";"),
               p))).
Proof.
  split; [exact pp_character_separator|]. split; [exact pp_character_string|].
  split; [exact preprocessor_text_substitute_runs|].
  intros getFile depth. split; eexists; vm_compute; reflexivity.
Qed.

(** The separator after [int32_t FOO], with [FOO] defined as 5, and a
    text with two runs and a string literal. *)
Lemma macro_substitution_at_separator_witness :
  (exists st',
     pp_character "a.idl" foo_state ";" "" = Ok st'
     /\ pp_out st' = "int32_t 5;" /\ pp_rest st' = "")
  /\ (exists p',
     preprocessor_text (preprocessor_file no_files 1) "a.idl" foo_text
       (define "FOO" "5" Parser0)
     = Ok (Text ("int32_t 5 = 5 + " +:+ str1 DQ +:+ "FOO" +:+ str1 DQ +:+ ";"),
           p')).
Proof.
  destruct macro_substitution_at_separator as (Hrule & _ & Htext & _).
  split.
  - destruct (Hrule "a.idl" foo_state ";"%char "" "int32_t " "FOO" "5")
      as (st' & H1 & H2 & H3).
    + reflexivity.
    + reflexivity.
    + discriminate.
    + repeat split. right. reflexivity.
    + discriminate.
    + discriminate.
    + discriminate.
    + vm_compute. reflexivity.
    + exists st'. split; [exact H1|]. split; [exact H2|exact H3].
  - destruct (Htext (preprocessor_file no_files 1) "a.idl" foo_text foo_text
                (define "FOO" "5" Parser0)) as (p' & H).
    + vm_compute. reflexivity.
    + vm_compute. reflexivity.
    + exists p'. exact H.
Defined.

(** C2 as stated fails: 0x10 is not empty and is not "0", and the run
    bound to it is deleted, not replaced. *)
Lemma macro_with_leading_zero_deleted :
  exists p,
    preprocessor no_files 1 "a.idl"
      ("#define FOO 0x10" +:+ str1 LF +:+ "int32_t FOO;") Parser0
    = Ok (Text "int32_t ;", p)
    /\ defines p !! "FOO" = Some "0x10"
    /\ "int32_t ;" <> "int32_t 0x10;".
Proof. eexists. split; [vm_compute; reflexivity|]. split; [reflexivity|discriminate]. Qed.

(** ** The turns of the loops

    The loops of the model take a number of turns to spend; the lemmas
    below show that the numbers they start with never run out: the
    result of a loop is the same for every larger number. *)

Lemma advance_length n s : (String.length (advance n s) <= String.length s)%nat.
Proof.
  revert s. induction n as [|n IH]; intros s; [simpl; lia|].
  destruct s as [|c r]; [simpl; lia|]. cbn [advance]. specialize (IH r). simpl. lia.
Qed.

Lemma skip_line_length s : (String.length (skip_line s) <= String.length s)%nat.
Proof.
  induction s as [|c r IH]; [simpl; lia|]. cbn [skip_line].
  destruct (Ascii.eqb c LF); simpl in *; lia.
Qed.

Ltac note_lengths :=
  repeat match goal with
    | |- context [advance ?n ?s] =>
        lazymatch goal with
        | _ : (String.length (advance n s) <= String.length s)%nat |- _ => fail
        | _ => pose proof (advance_length n s)
        end
    | |- context [skip_line ?s] =>
        lazymatch goal with
        | _ : (String.length (skip_line s) <= String.length s)%nat |- _ => fail
        | _ => pose proof (skip_line_length s)
        end
    end.

Section Turns.

Variable include_file : string -> Parser -> result (buffer * Parser).
Variable file : string.

Lemma pp_directive_shrinks st r st' :
  pp_directive include_file st r = Ok st' ->
  (String.length (pp_rest st') <= String.length r)%nat.
Proof.
  unfold pp_directive. intros H.
  split_result H; injection H as <-;
    cbn [pp_rest pp_moved pp_stacked pp_with pp_wrote];
    repeat match goal with
    | E : (if _ then _ else _) = Ok (_, _) |- _ =>
        split_result E; injection E as <- <-
    end;
    note_lengths; try lia.
  destruct (advance n1 (advance n0 r)); simpl in *; lia.
Qed.

Lemma pp_step_shrinks st st' c r :
  pp_rest st = String c r -> pp_step include_file file st = Ok st' ->
  (String.length (pp_rest st') <= String.length r)%nat.
Proof.
  intros Hr. unfold pp_step. rewrite Hr. intros H.
  destruct (Ascii.eqb c "#").
  - apply pp_directive_shrinks in H. exact H.
  - unfold pp_character in H.
    pose proof (copy_string_length r c) as Hc.
    split_result H; injection H as <-;
      cbn [pp_rest pp_moved pp_stacked pp_with pp_wrote]; cbn [snd] in Hc;
      note_lengths; try lia.
    all: destruct r as [|? [|? [|? ?]]]; simpl; lia.
Qed.

(** The turns of the loop are bounded by the length of the text: the
    result does not depend on the fuel beyond it. *)
Lemma pp_loop_fuel f1 : forall f2 st,
  (String.length (pp_rest st) < f1)%nat ->
  (String.length (pp_rest st) < f2)%nat ->
  pp_loop include_file file f1 st = pp_loop include_file file f2 st.
Proof.
  induction f1 as [|f1 IH]; intros f2 st H1 H2; [lia|].
  destruct f2 as [|f2]; [lia|]. cbn [pp_loop].
  destruct (pp_rest st) as [|c r] eqn:Hr; [reflexivity|].
  destruct (pp_step include_file file st) as [st'| | |] eqn:Hs; try reflexivity.
  cbn [bind mbind result_bind]. pose proof (pp_step_shrinks _ _ _ _ Hr Hs).
  simpl in H1, H2. apply IH; lia.
Qed.

End Turns.

(** ** The loops of the declaration parser *)

Lemma advance_shrinks n s :
  (0 < n)%nat -> s <> "" ->
  (String.length (advance n s) < String.length s)%nat.
Proof.
  intros Hn Hs. destruct n as [|n]; [lia|]. destruct s as [|c r]; [contradiction|].
  cbn [advance]. pose proof (advance_length n r). simpl. lia.
Qed.

Lemma span_while_all (f g : ascii -> bool) s :
  (forall c, f c = true -> g c = true) ->
  advance (String.length (span_while f s)) s = "" ->
  advance (String.length (span_while g s)) s = "".
Proof.
  intros Hfg. induction s as [|c r IH]; [reflexivity|].
  cbn [span_while]. destruct (f c) eqn:Hf.
  - rewrite (Hfg c Hf). simpl. exact IH.
  - simpl. discriminate.
Qed.

Lemma read_block_loop_moves from to s prev is_string braces counter t n :
  read_block_loop from to s prev is_string braces counter = Ok (t, n) ->
  s <> "" -> (0 < n)%nat.
Proof.
  destruct s as [|c r]; [contradiction|]. intros H _.
  cbn [read_block_loop] in H.
  split_result H; injection H as <- <-; lia.
Qed.

(** A call of [read_block] and the spaces skipped after it move the
    cursor of a text that is not at its end. *)
Lemma read_block_moves from to s size t n :
  read_block from to s size = Ok (t, n) -> s <> "" ->
  (String.length (advance (skip_spaces (advance n s)) (advance n s))
   < String.length s)%nat.
Proof.
  unfold read_block. intros H Hs.
  destruct (advance (String.length (span_while (Ascii.eqb " ") s)) s)
    as [|c r] eqn:Hk.
  - injection H as <- <-. cbn [advance]. unfold skip_spaces.
    rewrite (span_while_all (Ascii.eqb " ") (strchr (" " +:+ str1 LF)) s);
      [|intros c Hc; apply Ascii.eqb_eq in Hc; subst c; reflexivity|exact Hk].
    destruct s; [contradiction|]. simpl. lia.
  - apply bind_Ok in H as ([t' n'] & Hloop & H). unfold fits in H.
    destruct (_ <? _)%nat; [|discriminate]. injection H as <- <-.
    pose proof (advance_length
      (skip_spaces (advance (String.length (span_while (Ascii.eqb " ") s)
                     + (if Ascii.eqb c from then 1 else 0) + n') s))
      (advance (String.length (span_while (Ascii.eqb " ") s)
                     + (if Ascii.eqb c from then 1 else 0) + n') s)) as H1.
    assert (0 < String.length (span_while (Ascii.eqb " ") s)
                + (if Ascii.eqb c from then 1 else 0) + n')%nat as Hpos.
    { destruct (Ascii.eqb c from); [lia|].
      apply read_block_loop_moves in Hloop; [lia|discriminate]. }
    pose proof (advance_shrinks _ s Hpos Hs). lia.
Qed.

Section ParserTurns.

Variable getHash : string -> Z.

(** The statements of a body are bounded by its length. *)
Lemma parse_struct_loop_fuel f1 : forall f2 name s fields p,
  (String.length s < f1)%nat -> (String.length s < f2)%nat ->
  parse_struct_loop getHash f1 name s fields p
  = parse_struct_loop getHash f2 name s fields p.
Proof.
  induction f1 as [|f1 IH]; intros f2 name s fields p H1 H2; [lia|].
  destruct f2 as [|f2]; [lia|]. destruct s as [|c r]; [reflexivity|].
  cbn [parse_struct_loop].
  destruct (read_block NUL ";" (String c r) 4096) as [[variable n]| | |] eqn:E;
    try reflexivity.
  cbn [bind mbind result_bind].
  pose proof (read_block_moves _ _ _ _ _ _ E) as Hm.
  assert (String c r <> "") as Hne by discriminate. specialize (Hm Hne).
  simpl in H1, H2, Hm.
  destruct (struct_field getHash (Explode variable " "))
    as [[[[[type varName] fromNameSpace] is_key]|]| | |]; try reflexivity;
    cbn [bind mbind result_bind].
  - destruct (parse_variable getHash type name varName fromNameSpace is_key p)
      as [[v p']| | |]; try reflexivity.
    cbn [bind mbind result_bind]. apply IH; lia.
  - apply IH; lia.
Qed.

Lemma read_token_moves s size buf n :
  read_token s size = Ok (buf, n) -> String.eqb buf "" = false ->
  (String.length (advance n s) < String.length s)%nat.
Proof.
  unfold read_token. intros H Hbuf.
  destruct (advance (skip_spaces s) s) as [|c r] eqn:Hk.
  - injection H as <- <-. discriminate.
  - unfold fits in H. destruct (_ <? _)%nat; [|discriminate].
    injection H as <- <-. apply advance_shrinks.
    + destruct (is_name_char c); [simpl; lia|discriminate Hbuf].
    + intros ->. discriminate.
Qed.

(** The turns and the nested calls of [parse] are bounded by the length
    of the text. *)
Lemma parse_loop_fuel f1 : forall f2 consumed s p,
  (String.length s < f1)%nat -> (String.length s < f2)%nat ->
  parse_loop getHash f1 consumed s p = parse_loop getHash f2 consumed s p.
Proof.
  induction f1 as [|f1 IH]; intros f2 consumed s p H1 H2; [lia|].
  destruct f2 as [|f2]; [lia|]. destruct s as [|c0 r0]; [reflexivity|].
  cbn [parse_loop].
  pose proof (advance_length (skip_spaces (String c0 r0)) (String c0 r0)) as Hs1.
  set (s1 := advance (skip_spaces (String c0 r0)) (String c0 r0)) in *.
  set (consumed1 := consumed +:+ consumed_by _ _). clearbody consumed1.
  clearbody s1. simpl in H1, H2, Hs1.
  destruct (read_block NUL LF (last_line consumed1 +:+ s1) 1024)
    as [[l n0]| | |]; try reflexivity.
  cbn [bind mbind result_bind]. cbn iota beta.
  destruct s1 as [|c r]; [reflexivity|]. simpl in Hs1.
  destruct (Ascii.eqb c ";"); [apply IH; lia|].
  destruct (Ascii.eqb c "{").
  { rewrite (IH f2 "" r (set_line l p)) by lia.
    destruct (parse_loop getHash f2 "" r (set_line l p)) as [[m p1]| | |];
      try reflexivity.
    cbn [bind mbind result_bind]. cbn iota beta.
    pose proof (advance_length m r). apply IH; lia. }
  destruct (Ascii.eqb c "}"); [reflexivity|].
  destruct (read_token (String c r) 256) as [[buf n1]| | |] eqn:Etok;
    try reflexivity.
  cbn [bind mbind result_bind]. cbn iota beta.
  destruct (String.eqb buf "") eqn:Ebuf; [reflexivity|].
  pose proof (read_token_moves _ _ _ _ Etok Ebuf) as Hs2.
  set (s2 := advance n1 (String c r)) in *.
  set (consumed2 := consumed1 +:+ consumed_by _ _). clearbody consumed2.
  clearbody s2. simpl in Hs2.
  destruct (match is_builtin_type getHash (getHash buf) with
            | Some r1 => Some r1
            | None => is_user_base (set_line l p) (getHash buf)
            end) as [hit|].
  { destruct (read_name s2 1024) as [[nm n2]| | |]; try reflexivity.
    cbn [bind mbind result_bind]. cbn iota beta.
    destruct (read_block NUL ";" s2 4096) as [[vars n3]| | |]; try reflexivity.
    cbn [bind mbind result_bind]. cbn iota beta.
    destruct (parse_variable getHash (getHash buf) "" vars "" false (set_line l p))
      as [[v p1]| | |]; try reflexivity.
    cbn [bind mbind result_bind]. cbn iota beta.
    pose proof (advance_length n3 s2). apply IH; lia. }
  destruct (is_builtin_base getHash (getHash buf)) as [result|].
  - destruct (result - BASE_SPACER =? ID_TYPEDEF).
    { pose proof (advance_length (skip_spaces s2) s2) as Hs3.
      set (s3 := advance (skip_spaces s2) s2) in *. clearbody s3.
      destruct (read_block NUL ";" s3 4096) as [[body n2]| | |]; try reflexivity.
      cbn [bind mbind result_bind]. cbn iota beta.
      destruct (parse_typedef getHash body (set_line l p)) as [p1| | |];
        try reflexivity.
      cbn [bind mbind result_bind].
      pose proof (advance_length n2 s3). apply IH; lia. }
    destruct (result - BASE_SPACER =? ID_STRUCT).
    { destruct (read_name s2 1024) as [[nm n2]| | |]; try reflexivity.
      cbn [bind mbind result_bind]. cbn iota beta.
      pose proof (advance_length n2 s2) as Hs3.
      set (s3 := advance n2 s2) in *. clearbody s3.
      pose proof (advance_length (expect_symbol s3 "{") s3) as Hs4.
      set (s4 := advance (expect_symbol s3 "{") s3) in *. clearbody s4.
      destruct (read_block NUL "}" s4 (S (String.length s4)))
        as [[dest n3]| | |]; try reflexivity.
      cbn [bind mbind result_bind]. cbn iota beta.
      pose proof (advance_length n3 s4) as Hs5.
      set (s5 := advance n3 s4) in *. clearbody s5.
      destruct (parse_struct getHash (getHash buf) nm dest (set_line l p))
        as [p1| | |]; try reflexivity.
      cbn [bind mbind result_bind].
      pose proof (advance_length 1 s5).
      destruct (Ascii.eqb (peek s5) ";"); apply IH; lia. }
    destruct (result - BASE_SPACER =? ID_MODULE).
    { destruct (read_name s2 1024) as [[nm n2]| | |]; try reflexivity.
      cbn [bind mbind result_bind]. cbn iota beta.
      pose proof (advance_length n2 s2) as Hs3.
      set (s3 := advance n2 s2) in *. clearbody s3.
      rewrite (IH f2 "" s3 (set_nameSpace nm (set_line l p))) by lia.
      destruct (parse_loop getHash f2 "" s3 (set_nameSpace nm (set_line l p)))
        as [[m p1]| | |]; try reflexivity.
      cbn [bind mbind result_bind]. cbn iota beta.
      pose proof (advance_length m s3). apply IH; lia. }
    apply IH; lia.
  - destruct (ifdef (set_line l p) buf).
    + destruct (read_block NUL ")" s2 4096) as [[vars n2]| | |]; try reflexivity.
      cbn [bind mbind result_bind]. cbn iota beta.
      pose proof (advance_length n2 s2). apply IH; lia.
    + apply IH; lia.
Qed.

(** The fuel that [parse] starts with is enough for every text. *)
Lemma parse_fuel src p fuel :
  (String.length src < fuel)%nat ->
  parse_loop getHash fuel "" src p = parse getHash src p.
Proof. intros H. unfold parse. apply parse_loop_fuel; lia. Qed.

End ParserTurns.

(** ** The depth of [getRealType] *)

Section Depth.

Variable getHash : string -> Z.
Variable p : Parser.

Lemma chain_ends_unique hash k :
  chain_ends getHash p hash k -> forall k', chain_ends getHash p hash k' -> k = k'.
Proof.
  induction 1 as [hash H|hash hash' k H _ IH]; intros k' H'; inversion H'; subst;
    try congruence.
  f_equal. apply IH. congruence.
Qed.

Lemma chain_calls_ends hash hash' :
  chain_calls getHash p hash hash' ->
  forall k, chain_ends getHash p hash k -> exists k', chain_ends getHash p hash' k' /\ (k' <= k)%nat.
Proof.
  induction 1 as [hash|hash hash1 hash2 H _ IH]; intros k Hk.
  - exists k. split; [exact Hk|lia].
  - inversion Hk; subst; [congruence|].
    assert (hash' = hash1) by congruence. subst hash'.
    destruct (IH _ H1) as (k' & Hk' & Hle). exists k'. split; [exact Hk'|lia].
Qed.

Lemma typedef_step_hash hash hash' :
  typedef_step getHash p hash = Some hash' -> In hash (map td_hash (typedefs p)).
Proof.
  unfold typedef_step. destruct (first_hit _ (internal_range _ _ _) _); [discriminate|].
  destruct (first_hit _ (typedefs p) 0) as [[i t]|] eqn:E; [|discriminate].
  intros _. apply first_hit_In in E as (Ht & Hin).
  apply Z.eqb_eq in Ht. subst hash. apply in_map. exact Hin.
Qed.

(** A chain that ends calls each hash once, and each is the hash of an
    entry of [typedefs]. *)
Lemma chain_ends_bound k : forall hash seen,
  chain_ends getHash p hash k -> List.NoDup seen ->
  incl seen (map td_hash (typedefs p)) ->
  (forall x, In x seen -> ~ chain_calls getHash p hash x) ->
  (List.length seen + k <= List.length (typedefs p))%nat.
Proof.
  induction k as [|k IH]; intros hash seen Hk Hnd Hincl Hfresh.
  - apply List.NoDup_incl_length in Hincl; [|exact Hnd].
    rewrite length_map in Hincl. lia.
  - inversion Hk as [|h hash' k0 Hstep Hk']; subst.
    specialize (IH hash' (hash :: seen) Hk').
    cbn [List.length] in IH. rewrite <- Nat.add_succ_comm. apply IH.
    + apply List.NoDup_cons; [|exact Hnd]. intros Hin. apply (Hfresh _ Hin). constructor.
    + intros x [<-|Hin]; [exact (typedef_step_hash _ _ Hstep)|exact (Hincl _ Hin)].
    + intros x [<-|Hin] Hcall.
      * destruct (chain_calls_ends _ _ Hcall _ Hk') as (k' & Hk'' & Hle).
        pose proof (chain_ends_unique _ _ Hk _ Hk''). lia.
      * apply (Hfresh _ Hin). econstructor; eassumption.
Qed.

(** The call at [hash] as a function of the nested call, if there is one. *)
Lemma getRealType_rec_step hash :
  match typedef_step getHash p hash with
  | Some hash' =>
      exists f, forall depth,
        getRealType_rec getHash (S depth) p hash
        = (r ← getRealType_rec getHash depth p hash'; Ok (f r))
  | None =>
      exists t, forall depth, getRealType_rec getHash (S depth) p hash = Ok t
  end.
Proof.
  unfold typedef_step. cbn [getRealType_rec].
  destruct (first_hit _ (internal_range _ _ _) _) as [[i e]|]; [eexists; reflexivity|].
  destruct (first_hit _ (typedefs p) 0) as [[i t]|].
  - destruct (negb _); eexists; reflexivity.
  - destruct (first_hit _ (structs p) 0) as [[i s]|]; eexists; reflexivity.
Qed.

Lemma getRealType_rec_ends depth : forall hash t,
  getRealType_rec getHash depth p hash = Ok t ->
  exists k, (k < depth)%nat /\ chain_ends getHash p hash k.
Proof.
  induction depth as [|d IH]; intros hash t H; [discriminate|].
  pose proof (getRealType_rec_step hash) as Hstep.
  destruct (typedef_step getHash p hash) as [hash'|] eqn:E.
  - destruct Hstep as (f & Hf). rewrite Hf in H.
    apply bind_Ok in H as (r & Hr & _). apply IH in Hr as (k & Hlt & Hk).
    exists (S k). split; [lia|]. econstructor; eassumption.
  - exists 0%nat. split; [lia|]. constructor. exact E.
Qed.

Lemma chain_ends_rec hash k :
  chain_ends getHash p hash k ->
  exists t, forall depth, (k < depth)%nat ->
    getRealType_rec getHash depth p hash = Ok t.
Proof.
  induction 1 as [hash H|hash hash' k H _ (t & IH)];
    pose proof (getRealType_rec_step hash) as Hstep; rewrite H in Hstep.
  - destruct Hstep as (t & Ht). exists t. intros [|d] Hd; [lia|]. apply Ht.
  - destruct Hstep as (f & Hf). exists (f t). intros [|d] Hd; [lia|].
    rewrite Hf, IH by lia. reflexivity.
Qed.

(** No call aborts: a call returns or the chain goes on. *)
Lemma getRealType_rec_result depth : forall hash,
  (exists t, getRealType_rec getHash depth p hash = Ok t)
  \/ getRealType_rec getHash depth p hash = Diverges.
Proof.
  induction depth as [|d IH]; intros hash; [right; reflexivity|].
  pose proof (getRealType_rec_step hash) as Hstep.
  destruct (typedef_step getHash p hash) as [hash'|].
  - destruct Hstep as (f & Hf). rewrite Hf.
    destruct (IH hash') as [(r & ->)| ->]; [left; eexists; reflexivity|right; reflexivity].
  - destruct Hstep as (t & Ht). left. exists t. apply Ht.
Qed.

(** A chain that ends does so within the depth of [getRealType]. *)
Lemma getRealType_rec_Ok depth hash t :
  getRealType_rec getHash depth p hash = Ok t ->
  getRealType getHash p hash = Ok t.
Proof.
  intros H. destruct (getRealType_rec_ends _ _ _ H) as (k & Hlt & Hk).
  destruct (chain_ends_rec _ _ Hk) as (t' & Ht').
  rewrite Ht' in H by exact Hlt. injection H as ->.
  unfold getRealType. apply Ht'.
  pose proof (chain_ends_bound k hash [] Hk (List.NoDup_nil _)) as Hb.
  cbn [List.length] in Hb. enough (k <= List.length (typedefs p))%nat by lia.
  apply Hb; [intros x []|intros x []].
Qed.

(** The depth of [getRealType] is never the reason for [Diverges]: when
    it is reached the recursion of the source does not end. *)
Lemma getRealType_Diverges hash :
  getRealType getHash p hash = Diverges ->
  forall depth, getRealType_rec getHash depth p hash = Diverges.
Proof.
  intros H depth. destruct (getRealType_rec_result depth hash) as [(t & Ht)|Hd];
    [|exact Hd].
  apply getRealType_rec_Ok in Ht. congruence.
Qed.

End Depth.

(** ** Conditional compilation *)

Section Stack.

Variable include_file : string -> Parser -> result (buffer * Parser).
Variable file : string.

Lemma pp_directive_enabled st r st' :
  enabled_is_and st -> pp_directive include_file st r = Ok st' -> enabled_is_and st'.
Proof.
  unfold enabled_is_and, pp_directive. intros Hinv H.
  split_result H; injection H as <-; simpl; congruence.
Qed.

Lemma pp_character_enabled st c r st' :
  enabled_is_and st -> pp_character file st c r = Ok st' -> enabled_is_and st'.
Proof.
  unfold enabled_is_and, pp_character. intros Hinv H.
  split_result H; injection H as <-; simpl; congruence.
Qed.

Lemma pp_step_enabled st st' :
  enabled_is_and st -> pp_step include_file file st = Ok st' -> enabled_is_and st'.
Proof.
  unfold pp_step. intros Hinv H.
  destruct (pp_rest st) as [|c r]; [injection H as <-; exact Hinv|].
  destruct (Ascii.eqb c "#").
  - eapply pp_directive_enabled; [|exact H]. exact Hinv.
  - eapply pp_character_enabled; [|exact H]. exact Hinv.
Qed.

Lemma pp_reach_enabled st0 st :
  enabled_is_and st0 -> pp_reach include_file file st0 st -> enabled_is_and st.
Proof.
  intros H0 Hr. induction Hr as [|st st' _ IH Hs]; [exact H0|].
  exact (pp_step_enabled _ _ IH Hs).
Qed.

Lemma stack_top (stack : list bool) :
  stack <> [] ->
  exists (below : list bool) (top : bool),
    stack = (below ++ [top])%list
    /\ negate_back stack = (below ++ [negb top])%list /\ pop_back stack = below.
Proof.
  intros Hne. exists (removelast stack), (List.last stack false).
  split; [apply app_removelast_last; exact Hne|]. split; reflexivity.
Qed.

(** What the four directives of conditional compilation do to the stack. *)
Lemma pp_directive_stack st r buf n st' :
  read_token r 256 = Ok (buf, n) ->
  pp_directive include_file st r = Ok st' ->
  (buf = "ifdef" ->
     exists name k, read_name (advance n r) 256 = Ok (name, k)
       /\ pp_defines st' = (pp_defines st ++ [ifdef (pp_this st) name])%list)
  /\ (buf = "ifndef" ->
     exists name k, read_name (advance n r) 256 = Ok (name, k)
       /\ pp_defines st' = (pp_defines st ++ [negb (ifdef (pp_this st) name)])%list)
  /\ (buf = "else" ->
     exists (below : list bool) (top : bool),
       pp_defines st = (below ++ [top])%list
       /\ pp_defines st' = (below ++ [negb top])%list)
  /\ (buf = "endif" ->
     exists (below : list bool) (top : bool),
       pp_defines st = (below ++ [top])%list /\ pp_defines st' = below)
  /\ (buf <> "ifdef" -> buf <> "ifndef" -> buf <> "else" -> buf <> "endif" ->
     pp_defines st' = pp_defines st).
Proof.
  intros Ht H. unfold pp_directive in H.
  apply bind_Ok in H as ([l k0] & _ & H). simpl in H.
  rewrite Ht in H. simpl in H.
  repeat split.
  - intros ->. simpl in H. split_result H. injection H as <-. simpl. eauto.
  - intros ->. simpl in H. split_result H. injection H as <-. simpl. eauto.
  - intros ->. simpl in H.
    assert (Hne : pp_defines st <> []) by (intros E; rewrite E in H; discriminate).
    destruct (stack_top _ Hne) as (below & top & H1 & H2 & _).
    exists below, top. split; [exact H1|].
    destruct (pp_defines st) as [|b l'] eqn:E; [discriminate|].
    injection H as <-. exact H2.
  - intros ->. simpl in H.
    assert (Hne : pp_defines st <> []) by (intros E; rewrite E in H; discriminate).
    destruct (stack_top _ Hne) as (below & top & H1 & _ & H3).
    exists below, top. split; [exact H1|].
    destruct (pp_defines st) as [|b l'] eqn:E; [discriminate|].
    injection H as <-. exact H3.
  - intros N1 N2 N3 N4.
    apply String.eqb_neq in N1, N2, N3, N4. rewrite N1, N2, N3, N4 in H.
    split_result H; injection H as <-; reflexivity.
Qed.

(** A character leaves the stack as it is, and is not copied while the
    text is disabled. *)
Lemma pp_character_stack st c r st' :
  pp_character file st c r = Ok st' ->
  pp_defines st' = pp_defines st
  /\ (define_ok st = false -> pp_out st' = pp_out st /\ pp_rest st' = r).
Proof.
  unfold pp_character. intros H.
  split_result H; injection H as <-; simpl; (split; [reflexivity|]);
    intros Hd; simpl in *; try rewrite Hd in *; simpl in *; try discriminate;
    split; reflexivity.
Qed.

(** A directive writes nothing and changes no define while the text is
    disabled. *)
Lemma pp_directive_disabled st r st' :
  define_ok st = false ->
  pp_directive include_file st r = Ok st' ->
  pp_out st' = pp_out st /\ defines (pp_this st') = defines (pp_this st).
Proof.
  unfold pp_directive. intros Hd H.
  split_result H; injection H as <-; simpl in *; try congruence;
    try rewrite Hd; split; reflexivity.
Qed.

End Stack.

Section Effect.

Variable include_file : string -> Parser -> result (buffer * Parser).

(** What the directives of the defines and of a file do in enabled
    text. *)
Lemma pp_directive_effect st r buf n st' :
  read_token r 256 = Ok (buf, n) ->
  pp_directive include_file st r = Ok st' ->
  define_ok st = true ->
  (buf = "define" ->
     exists name k value,
       read_name (advance n r) 256 = Ok (name, k)
       /\ defines (pp_this st') = <[name := value]> (defines (pp_this st)))
  /\ (buf = "undef" ->
     exists name k,
       read_name (advance n r) 256 = Ok (name, k)
       /\ defines (pp_this st') = delete name (defines (pp_this st)))
  /\ (buf = "include" ->
     exists name q text,
       include_file name q = Ok (Text text, pp_this st')
       /\ defines q = defines (pp_this st)
       /\ pp_out st' = pp_out st +:+ text).
Proof.
  intros Ht H Hon. unfold pp_directive in H.
  apply bind_Ok in H as ([l k0] & _ & H). simpl in H.
  rewrite Ht in H. simpl in H. rewrite Hon in H.
  repeat split.
  - intros ->. simpl in H. split_result H; injection H as <-; simpl; eauto.
  - intros ->. simpl in H. split_result H; injection H as <-; simpl; eauto.
  - intros ->. simpl in H.
    apply bind_Ok in H as ([name s] & _ & H).
    apply bind_Ok in H as ([[text|] q] & Hinc & H); [|discriminate H].
    injection H as <-. exists name, (set_line l (pp_this st)), text.
    split; [exact Hinc|]. split; reflexivity.
Qed.

End Effect.

(** Whatever is substituted, the separator is written last. *)
Lemma replace_defined_written defs out c :
  exists before, replace_defined defs out c = before +:+ str1 c.
Proof.
  unfold replace_defined.
  destruct (negb (String.eqb out "") && is_separator c);
    [|exists out; reflexivity].
  destruct (last_run out) as [before run].
  destruct (negb (String.eqb run "")); [|exists out; reflexivity].
  destruct (defs !! run) as [value|]; [|exists out; reflexivity].
  destruct (negb (Ascii.eqb (peek value) "0")).
  - exists (before +:+ value). rewrite sapp_assoc. reflexivity.
  - exists before. reflexivity.
Qed.

(** An enabled character is written, with the literal read after it. *)
Lemma pp_character_copied file st c r st' :
  define_ok st = true ->
  pp_character file st c r = Ok st' ->
  exists before after,
    pp_out st' = before +:+ String c after
    /\ r = after +:+ pp_rest st'.
Proof.
  intros Hon H. unfold pp_character in H. cbn [define_ok pp_with] in H.
  rewrite Hon in H. cbn [negb] in H. cbv zeta in H. cbv iota in H.
  match type of H with
  | context [replace_defined ?d ?o ?x] =>
      destruct (replace_defined_written d o x) as (before & Hw);
      rewrite Hw in H
  end.
  pose proof (copy_string_verbatim r c) as Hcopy.
  split_result H; injection H as <-; cbn [pp_out pp_rest pp_wrote].
  - exists (pp_out st). destruct r as [|a [|b [|d r']]];
      cbn in E; rewrite ?andb_false_r in E; try discriminate E.
    exists (String a (String b (String d ""))). split; reflexivity.
  - exists (pp_out st). destruct r as [|a [|b r']];
      cbn in E1, E0; rewrite ?andb_false_r in *; try discriminate.
    exists (String a (String b "")). split; reflexivity.
  - cbn [fst snd] in Hcopy.
    exists before, s. split; [rewrite sapp_assoc; reflexivity|].
    symmetry. exact Hcopy.
  - exists before, "". split; reflexivity.
Qed.

(** C3: in every state that the loop of the preprocessor goes through,
    [define_ok] is the conjunction of the whole stack: it is true
    exactly when every entry of the stack is true, so it is true for
    the empty stack.  [#ifdef NAME] pushes whether NAME is a key of the
    defines, [#ifndef NAME] whether it is none, [#else] negates the top
    entry, [#endif] pops it, and nothing else changes the stack; while
    [define_ok] is false a directive writes nothing and changes no
    define, and a character is dropped; while it is true [#define]
    binds its name in the defines, [#undef] removes it, [#include]
    appends the output of the file, and a character is written to the
    output, with the literal that is read after it. *)
Theorem enabled_is_and_of_stack
    (include_file : string -> Parser -> result (buffer * Parser))
    (file data : string) (p : Parser) (st : pp_state) :
  pp_reach include_file file (pp_init data p) st ->
  (define_ok st = true <-> forall b, List.In b (pp_defines st) -> b = true)
  /\ (pp_defines st = [] -> define_ok st = true)
  /\ (forall r buf n st',
        pp_rest st = String "#" r ->
        read_token r 256 = Ok (buf, n) ->
        pp_step include_file file st = Ok st' ->
        (buf = "ifdef" ->
           exists name k pushed,
             read_name (advance n r) 256 = Ok (name, k)
             /\ pp_defines st' = (pp_defines st ++ [pushed])%list
             /\ (pushed = true
                 <-> exists value, defines (pp_this st) !! name = Some value))
        /\ (buf = "ifndef" ->
           exists name k pushed,
             read_name (advance n r) 256 = Ok (name, k)
             /\ pp_defines st' = (pp_defines st ++ [pushed])%list
             /\ (pushed = true <-> defines (pp_this st) !! name = None))
        /\ (buf = "else" ->
           exists (below : list bool) (top : bool),
             pp_defines st = (below ++ [top])%list
             /\ pp_defines st' = (below ++ [negb top])%list)
        /\ (buf = "endif" ->
           exists (below : list bool) (top : bool),
             pp_defines st = (below ++ [top])%list /\ pp_defines st' = below)
        /\ (buf <> "ifdef" -> buf <> "ifndef" -> buf <> "else" -> buf <> "endif" ->
           pp_defines st' = pp_defines st)
        /\ (define_ok st = false ->
           pp_out st' = pp_out st /\ defines (pp_this st') = defines (pp_this st))
        /\ (define_ok st = true ->
           (buf = "define" ->
              exists name k value,
                read_name (advance n r) 256 = Ok (name, k)
                /\ defines (pp_this st')
                   = <[name := value]> (defines (pp_this st)))
           /\ (buf = "undef" ->
              exists name k,
                read_name (advance n r) 256 = Ok (name, k)
                /\ defines (pp_this st') = delete name (defines (pp_this st)))
           /\ (buf = "include" ->
              exists name q text,
                include_file name q = Ok (Text text, pp_this st')
                /\ defines q = defines (pp_this st)
                /\ pp_out st' = pp_out st +:+ text)))
  /\ (forall c r st',
        pp_rest st = String c r -> c <> "#"%char ->
        pp_step include_file file st = Ok st' ->
        pp_defines st' = pp_defines st
        /\ (define_ok st = false -> pp_out st' = pp_out st /\ pp_rest st' = r)
        /\ (define_ok st = true ->
            exists before after,
              pp_out st' = before +:+ String c after
              /\ r = after +:+ pp_rest st')).
Proof.
  intros Hr.
  assert (Hinv : enabled_is_and st)
    by (eapply pp_reach_enabled; [|exact Hr]; reflexivity).
  split.
  { rewrite Hinv. unfold all_defined. rewrite forallb_forall.
    split; intros H b Hb; exact (H b Hb). }
  split; [intros E; rewrite Hinv, E; reflexivity|]. split.
  - intros r buf n st' Hs Ht H. unfold pp_step in H. rewrite Hs in H. simpl in H.
    destruct (pp_directive_stack include_file _ _ _ _ _ Ht H)
      as (H1 & H2 & H3 & H4 & H5).
    split.
    { intros Hb. destruct (H1 Hb) as (name & k & Hn & Hst).
      exists name, k, (ifdef (pp_this st) name).
      split; [exact Hn|]. split; [exact Hst|]. unfold ifdef.
      destruct (defines (pp_this st) !! name) as [v|]; split.
      - intros _. exists v. reflexivity.
      - intros _. reflexivity.
      - discriminate.
      - intros (v & E). discriminate E. }
    split.
    { intros Hb. destruct (H2 Hb) as (name & k & Hn & Hst).
      exists name, k, (negb (ifdef (pp_this st) name)).
      split; [exact Hn|]. split; [exact Hst|]. unfold ifdef.
      destruct (defines (pp_this st) !! name) as [v|]; split;
        first [discriminate | reflexivity]. }
    split; [exact H3|].
    split; [exact H4|]. split; [exact H5|].
    split; [intros Hd; exact (pp_directive_disabled include_file _ _ _ Hd H)|].
    intros Hon. pose proof (pp_directive_effect include_file _ _ _ _ _ Ht H) as He.
    cbn [define_ok pp_this pp_out] in He. exact (He Hon).
  - intros c r st' Hs Hc H. unfold pp_step in H. rewrite Hs in H.
    apply Ascii.eqb_neq in Hc. rewrite Hc in H.
    pose proof (pp_character_stack _ _ _ _ _ H) as (Hstack & Hoff).
    split; [exact Hstack|]. split; [exact Hoff|].
    intros Hon. apply pp_character_copied in H; [exact H|exact Hon].
Qed.

(** [#ifndef X] inside [#ifdef X], X not defined: the entry pushed last
    is true and the text is disabled, as the entry under it is false.
    With X defined, [#ifdef X] pushes a true entry. *)
Lemma enabled_is_and_of_stack_witness :
  pp_defines nested_state = [false; true]
  /\ define_ok nested_state = false
  /\ (define_ok nested_state = true
      <-> forall b, List.In b (pp_defines nested_state) -> b = true)
  /\ (exists pushed,
        pp_defines nested_state = (pp_defines nested_state2 ++ [pushed])%list
        /\ (pushed = true <-> defines (pp_this nested_state2) !! "X" = None))
  /\ (exists pushed,
        pp_defines (next_state (pp_init nested_text (define "X" "1" Parser0)))
        = [pushed]
        /\ pushed = true).
Proof.
  assert (Hfirst : exists pushed,
            pp_defines (next_state (pp_init nested_text (define "X" "1" Parser0)))
            = [pushed]
            /\ pushed = true).
  { destruct (enabled_is_and_of_stack (preprocessor_file no_files 1) "a.idl"
                nested_text (define "X" "1" Parser0) _ (pp_reach_start _ _ _))
      as (_ & _ & Hdir & _).
    destruct (Hdir ("ifdef X" +:+ String LF ("#ifndef X" +:+ String LF "int32_t a;"))
                "ifdef" 5%nat
                (next_state (pp_init nested_text (define "X" "1" Parser0))))
      as (Hpush & _);
      [reflexivity|vm_compute; reflexivity|vm_compute; reflexivity|].
    destruct (Hpush eq_refl) as (name & k & pushed & Hname & Hstack & Hdef).
    vm_compute in Hname. injection Hname as <- _.
    exists pushed. split; [exact Hstack|].
    apply Hdef. exists "1". reflexivity. }
  assert (Hr2 : pp_reach (preprocessor_file no_files 1) "a.idl"
                  (pp_init nested_text Parser0) nested_state2).
  { apply (pp_reach_turn _ _ _ nested_state1); [|vm_compute; reflexivity].
    apply (pp_reach_turn _ _ _ (pp_init nested_text Parser0));
      [|vm_compute; reflexivity].
    apply pp_reach_start. }
  assert (Hs : pp_step (preprocessor_file no_files 1) "a.idl" nested_state2
               = Ok nested_state) by (vm_compute; reflexivity).
  assert (Hr : pp_reach (preprocessor_file no_files 1) "a.idl"
                 (pp_init nested_text Parser0) nested_state)
    by exact (pp_reach_turn _ _ _ _ _ Hr2 Hs).
  destruct (enabled_is_and_of_stack _ _ _ _ _ Hr) as (Hand & _).
  destruct (enabled_is_and_of_stack _ _ _ _ _ Hr2) as (_ & _ & Hdir & _).
  destruct (Hdir ("ifndef X" +:+ String LF "int32_t a;") "ifndef" 6%nat
              nested_state) as (_ & Hpush & _);
    [vm_compute; reflexivity|vm_compute; reflexivity|exact Hs|].
  destruct (Hpush eq_refl) as (name & k & pushed & Hname & Hstack & Hdef).
  vm_compute in Hname. injection Hname as <- _.
  split; [vm_compute; reflexivity|]. split; [vm_compute; reflexivity|].
  split; [exact Hand|].
  split; [exists pushed; split; [exact Hstack|exact Hdef]|exact Hfirst].
Defined.

(** ** No directive aborts the call *)

Lemma bind_no_abort {A B : Type} (r : result A) (k : A -> result B) :
  r <> Abort -> (forall a, k a <> Abort) -> r ≫= k <> Abort.
Proof. destruct r; cbn; [auto|congruence|discriminate|discriminate]. Qed.

Lemma fits_no_abort {A : Type} size text (a : A) : fits size text a <> Abort.
Proof. unfold fits. destruct (_ <? _)%nat; discriminate. Qed.

Ltac no_abort :=
  repeat first
    [ discriminate
    | apply fits_no_abort
    | solve [auto]
    | match goal with
      | |- (_ ≫= _) <> Abort => apply bind_no_abort; [|intros ?]
      | |- (let '(_, _) := ?x in _) <> Abort => destruct x
      | |- (if ?b then _ else _) <> Abort => destruct b
      | |- (match ?x with _ => _ end) <> Abort => destruct x
      end ].

Lemma read_block_loop_no_abort_upto from to n : forall s,
  (String.length s <= n)%nat ->
  forall prev is_string braces counter,
    read_block_loop from to s prev is_string braces counter <> Abort.
Proof.
  induction n as [|n IH]; intros s Hn prev is_string braces counter;
    destruct s as [|c r]; try discriminate; simpl in Hn; [lia|].
  cbn [read_block_loop].
  assert (Hr : forall prev is_string braces counter,
            read_block_loop from to r prev is_string braces counter <> Abort).
  { apply IH. lia. }
  destruct is_string; [no_abort|].
  destruct (Ascii.eqb c DQ); [no_abort|].
  cbn zeta. destruct (Ascii.eqb c BSL && Ascii.eqb (peek r) LF); [|no_abort].
  destruct r as [|c1 [|c2 r2]]; cbn iota beta; try discriminate.
  destruct (closes _ _ _ _); [discriminate|].
  apply bind_no_abort; [apply IH; simpl in Hn; lia|]. intros [t k]. discriminate.
Qed.

Lemma read_block_loop_no_abort from to s prev is_string braces counter :
  read_block_loop from to s prev is_string braces counter <> Abort.
Proof. apply (read_block_loop_no_abort_upto from to (String.length s)). lia. Qed.

Lemma read_block_no_abort from to s size : read_block from to s size <> Abort.
Proof.
  unfold read_block. destruct (advance _ s); [discriminate|].
  apply bind_no_abort; [apply read_block_loop_no_abort|]. intros [t n].
  apply fits_no_abort.
Qed.

Lemma read_name_no_abort s size : read_name s size <> Abort.
Proof. apply fits_no_abort. Qed.

Lemma read_token_no_abort s size : read_token s size <> Abort.
Proof. unfold read_token. destruct (advance _ s); [discriminate|apply fits_no_abort]. Qed.

Lemma minify_from_no_abort s : forall m, minify_from m s <> Abort.
Proof.
  induction s as [|c r IH]; intros m; cbn [minify_from].
  - destruct m; discriminate.
  - destruct (minify_step m c (peek r)); [apply IH|].
    apply bind_no_abort; [apply IH|discriminate].
Qed.

Section NoAbort.

Variable include_file : string -> Parser -> result (buffer * Parser).
Variable file : string.
Hypothesis include_file_no_abort : forall name p, include_file name p <> Abort.

Lemma pp_directive_no_abort st r : pp_directive include_file st r <> Abort.
Proof.
  unfold pp_directive.
  pose proof read_block_no_abort. pose proof read_name_no_abort.
  pose proof read_token_no_abort.
  no_abort.
Qed.

Lemma pp_character_no_abort st c r : pp_character file st c r <> Abort.
Proof. unfold pp_character. no_abort. Qed.

Lemma pp_loop_no_abort fuel : forall st, pp_loop include_file file fuel st <> Abort.
Proof.
  induction fuel as [|k IH]; intros st; cbn [pp_loop];
    destruct (pp_rest st) eqn:Hr; try discriminate.
  apply bind_no_abort; [|apply IH]. unfold pp_step. rewrite Hr.
  destruct (Ascii.eqb _ _); [apply pp_directive_no_abort|apply pp_character_no_abort].
Qed.

Lemma preprocessor_text_no_abort data p :
  preprocessor_text include_file file data p <> Abort.
Proof.
  unfold preprocessor_text.
  apply bind_no_abort; [apply minify_from_no_abort|]. intros text.
  apply bind_no_abort; [apply pp_loop_no_abort|]. intros st.
  destruct (pp_defines st); discriminate.
Qed.

End NoAbort.

(** The preprocessor stops a call only for a file that cannot be opened:
    no directive and no end of text does. *)
Lemma preprocessor_file_no_abort (getFile : string -> option string) depth :
  (forall name, getFile name <> None) ->
  forall name p, preprocessor_file getFile depth name p <> Abort.
Proof.
  intros Hfile. induction depth as [|k IH]; intros name p; [discriminate|].
  cbn [preprocessor_file]. specialize (Hfile name).
  destruct (getFile name) as [data|]; [|contradiction].
  apply preprocessor_text_no_abort. exact IH.
Qed.

Lemma preprocessor_no_abort (getFile : string -> option string) depth file data p :
  (forall name, getFile name <> None) ->
  preprocessor getFile depth file data p <> Abort.
Proof.
  intros Hfile. unfold preprocessor. apply preprocessor_text_no_abort.
  apply preprocessor_file_no_abort. exact Hfile.
Qed.

(** C4 (the source does not do it): a conditional that is not closed
    at the end of the text does not abort the call; the buffer is freed
    and the freed pointer is returned.  An [#else] or an [#endif] on
    the empty stack does not abort either: the source frees the buffer,
    goes on, indexes or pops the empty stack and reads the freed
    buffer.  (No text at all aborts the call, only a file that cannot
    be opened: [preprocessor_no_abort].) *)
Theorem unterminated_conditional_returns_freed
    (getFile : string -> option string) (depth : nat) :
  (exists p,
     preprocessor getFile depth "a.idl"
       ("#ifdef X" +:+ str1 LF +:+ "int32_t a;") Parser0 = Ok (Freed, p))
  /\ preprocessor getFile depth "a.idl"
       ("#else" +:+ str1 LF +:+ "int32_t a;") Parser0 = Undefined
  /\ preprocessor getFile depth "a.idl"
       ("#endif" +:+ str1 LF +:+ "int32_t a;") Parser0 = Undefined.
Proof.
  split; [eexists; vm_compute; reflexivity|]. split; vm_compute; reflexivity.
Qed.

(** ** The body of a struct *)

Section StructBody.

Variable getHash : string -> Z.

Lemma parse_variable_spec type struct_name name ns key p v p' :
  parse_variable getHash type struct_name name ns key p = Ok (v, p') ->
  same_registry p p'
  /\ variables p' = (variables p ++ [v])%list
  /\ getRealType getHash p type = Ok (var_type v)
  /\ var_name v = name /\ var_is_key v = key /\ var_fromNamespace v = ns
  /\ var_struct_name v = struct_name.
Proof.
  unfold parse_variable. intros H.
  apply bind_Ok in H as (t & Et & H). injection H as <- <-. simpl.
  repeat split. exact Et.
Qed.

(** The loop over the body leaves the registry as it is: every field is
    resolved in the session in which the loop was entered. *)
Lemma parse_struct_loop_spec fuel name s fields p fields' p' :
  parse_struct_loop getHash fuel name s fields p = Ok (fields', p') ->
  same_registry p p'
  /\ exists new, fields' = (fields ++ new)%list
       /\ Forall (fun v => exists h, field_resolved_in getHash p v h) new.
Proof.
  revert s fields p fields' p'.
  induction fuel as [|k IH]; intros s fields p fields' p' H.
  - destruct s; [|discriminate]. injection H as <- <-.
    split; [repeat split|]. exists []. split; [symmetry; apply app_nil_r|constructor].
  - destruct s as [|c r].
    + injection H as <- <-.
      split; [repeat split|]. exists []. split; [symmetry; apply app_nil_r|constructor].
    + cbn [parse_struct_loop] in H.
      apply bind_Ok in H as ([variable n] & _ & H).
      apply bind_Ok in H as (f & Ef & H).
      destruct f as [[[[type varName] ns] key]|].
      * apply bind_Ok in H as ([v p1] & Ev & H).
        apply parse_variable_spec in Ev as (Hsame & _ & Hty & Hn & Hk & Hns & _).
        apply IH in H as (Hsame' & new & -> & Hall).
        split.
        { destruct Hsame as (A & B & C), Hsame' as (A' & B' & C').
          repeat split; congruence. }
        exists (v :: new). split; [rewrite <- app_assoc; reflexivity|].
        constructor.
        -- exists type, (Explode variable " "), varName, ns, key.
           repeat split; assumption.
        -- eapply Forall_impl; [exact Hall|].
           intros w (h & mar & nm & ns' & key' & Hf & Hr & Hrest).
           exists h, mar, nm, ns', key'. split; [exact Hf|]. split; [|exact Hrest].
           rewrite (getRealType_same getHash p p1 h Hsame). exact Hr.
      * apply IH in H. exact H.
Qed.

End StructBody.

(** C10: [parse_struct] appends the entry of the struct to [structs]
    after the loop over the body.  Every field is resolved in the
    session as it was before the struct, so a field whose type is the
    struct itself (a name that no builtin, typedef or struct has before)
    gets the zero-valued entry [Typedef_t()]; once the struct is
    appended the same hash resolves to the entry of the struct. *)
Theorem struct_registered_after_body
    (getHash : string -> Z) (type : Z) (name body : string) (p p' : Parser) :
  parse_struct getHash type name body p = Ok p' ->
  is_builtin_type getHash (getHash name) = None ->
  is_user_base p (getHash name) = None ->
  exists str,
    structs p' = (structs p ++ [str])%list
    /\ st_name str = name /\ st_hash str = getHash name
    /\ Forall (fun v => exists h,
                 field_resolved_in getHash p v h
                 /\ (h = getHash name -> var_type v = Typedef_t0))
              (st_fields str)
    /\ getRealType getHash p (getHash name) = Ok Typedef_t0
    /\ getRealType getHash p' (getHash name) =
         Ok {| td_hash := getHash name;
               td_type := ID_STRUCT + USER_BASE_SPACER_STRUCT;
               td_name := name; td_baseName := name;
               td_nameSpace := nameSpace p; td_size := -1 |}.
Proof.
  intros H Hb Hu. unfold parse_struct in H.
  apply bind_Ok in H as (base & _ & H).
  apply bind_Ok in H as ([fields p1] & Hloop & H). injection H as <-.
  apply parse_struct_loop_spec in Hloop as ((Ht & Hs & Hn) & new & -> & Hall).
  pose proof (getRealType_unregistered getHash p _ Hb Hu) as Hzero.
  eexists. split; [cbn [structs set_structs]; rewrite <- Hs; reflexivity|].
  split; [reflexivity|]. split; [reflexivity|]. split.
  - cbn [st_fields app]. eapply Forall_impl; [exact Hall|].
    intros v (h & Hv). exists h. split; [exact Hv|]. intros ->.
    destruct Hv as (mar & nm & ns & key & _ & Hr & _).
    rewrite Hzero in Hr. injection Hr as <-. reflexivity.
  - split; [exact Hzero|].
    match goal with |- getRealType _ ?q _ = _ =>
      pose proof (getRealType_appended_struct getHash p q
        {| st_hash := getHash name; st_type := base; st_name := name;
           st_nameSpace := nameSpace p; st_fields := ([] ++ new)%list |}
        Hb Hu) as Hq end.
    cbn [typedefs structs set_structs st_hash st_name nameSpace] in Hq.
    rewrite Hq; [rewrite Hn; reflexivity|symmetry; exact Ht|rewrite Hs; reflexivity].
Qed.

(** The body of [struct S { S self; }]: the field [self] has the
    zero-valued type. *)
Lemma struct_registered_after_body_witness :
  exists p' str,
    parse_struct sample_hash (sample_hash "struct") "S" "S self; " Parser0 = Ok p'
    /\ structs p' = [str]
    /\ map var_name (st_fields str) = ["self"]
    /\ map var_type (st_fields str) = [Typedef_t0]
    /\ getRealType sample_hash Parser0 (sample_hash "S") = Ok Typedef_t0.
Proof.
  destruct (parse_struct sample_hash (sample_hash "struct") "S" "S self; " Parser0)
    as [p'| | |] eqn:E; try (vm_compute in E; discriminate E).
  destruct (struct_registered_after_body sample_hash _ _ _ _ _ E)
    as (str & Hs & _ & _ & _ & Hz & _).
  - vm_compute. reflexivity.
  - vm_compute. reflexivity.
  - exists p', str. split; [reflexivity|]. split; [exact Hs|].
    vm_compute in E. injection E as <-. injection Hs as <-.
    split; [reflexivity|]. split; [reflexivity|]. exact Hz.
Defined.

(** C6 (the source does not do it): in the statement [@key TYPE NAME]
    the namespace is removed from the token "@key", not from TYPE: the
    hash of TYPE with its qualification is looked up and no namespace is
    recorded, where the statement [TYPE NAME] strips TYPE.  The field of
    [@key ns::uint32_t id] gets the zero-valued type and an empty
    namespace; the field of [ns::uint32_t v] gets the type uint32_t and
    the namespace ns. *)
Theorem key_field_type_not_stripped (getHash : string -> Z) (TYPE NAME : string) :
  struct_field getHash ["@key"; TYPE; NAME] = Ok (Some (getHash TYPE, NAME, "", true))
  /\ struct_field getHash ["ns::uint32_t"; NAME]
     = Ok (Some (getHash "uint32_t", NAME, "ns", false))
  /\ map (fun s => map (fun v => (var_name v, var_is_key v, td_name (var_type v),
                                  td_hash (var_type v), var_fromNamespace v))
                       (st_fields s))
         (structs (run_session "struct S { @key ns::uint32_t id; ns::uint32_t v; };"))
     = [[("id", true, "", 0, ""); ("v", false, "uint32_t", sample_hash "uint32_t", "ns")]].
Proof. split; [reflexivity|]. split; [reflexivity|]. vm_compute. reflexivity. Qed.

(** ** Teardown *)

(** C8, as amended: the bodies of the destructors empty the tables of
    structs, variables, user defines and modules, the define table and
    the code; the tables of typedefs and of enums and the current
    namespace are left as they are. *)
Theorem teardown_resets (p : Parser) :
  structs (teardown p) = []
  /\ variables (teardown p) = []
  /\ udefines (teardown p) = []
  /\ modules (teardown p) = []
  /\ defines (teardown p) = ∅
  /\ code (teardown p) = ""
  /\ typedefs (teardown p) = typedefs p
  /\ enums (teardown p) = enums p
  /\ nameSpace (teardown p) = nameSpace p.
Proof. repeat split. Qed.

(** C8 as stated fails: after [module M { typedef int32_t T; };] the
    teardown leaves the typedef in its table and "M" in the namespace. *)
Lemma teardown_keeps_typedefs :
  map td_name (typedefs (teardown module_session)) = ["T"]
  /\ typedefs (teardown module_session) <> []
  /\ nameSpace (teardown module_session) = "M"
  /\ nameSpace (teardown module_session) <> "".
Proof. vm_compute. repeat split; try reflexivity; discriminate. Qed.

(** ** Modules and the namespace *)

Section Namespace.

Variable getHash : string -> Z.

Lemma module_free_tail c r :
  module_free getHash (String c r) = true -> module_free getHash r = true.
Proof. cbn [module_free]. intros H. apply andb_prop in H as [_ H]. exact H. Qed.

Lemma module_free_advance n s :
  module_free getHash s = true -> module_free getHash (advance n s) = true.
Proof.
  revert s. induction n as [|n IH]; intros s H; [exact H|].
  destruct s as [|c r]; [exact H|]. cbn [advance]. apply IH.
  exact (module_free_tail _ _ H).
Qed.

Lemma module_free_token s :
  module_free getHash s = true -> getHash (next_token s) <> getHash "module".
Proof.
  intros H. destruct s; cbn [module_free] in H;
    apply andb_prop in H as [H _]; apply negb_true_iff, Z.eqb_neq in H; exact H.
Qed.

Lemma read_token_next s size buf n :
  read_token s size = Ok (buf, n) -> buf = next_token s.
Proof.
  unfold read_token, next_token, fits.
  destruct (advance (skip_spaces s) s) as [|c r].
  - intros [= <- _]. reflexivity.
  - destruct (_ <? _)%nat; [|discriminate]. intros [= <- _]. reflexivity.
Qed.

(** The case [ID_MODULE] of the switch is taken for the hash of
    "module" only. *)
Lemma is_builtin_base_module h r :
  is_builtin_base getHash h = Some r ->
  (r - BASE_SPACER =? ID_TYPEDEF) = false ->
  (r - BASE_SPACER =? ID_STRUCT) = false ->
  (r - BASE_SPACER =? ID_MODULE) = true ->
  h = getHash "module".
Proof.
  unfold is_builtin_base.
  change (internal_range getHash BASE_START LAST_BASE)
    with [EVAL getHash ID_STRUCT "struct"; EVAL getHash ID_MODULE "module";
          EVAL getHash ID_TYPEDEF "typedef"].
  cbn [first_hit ih_hash EVAL].
  destruct (h =? getHash "struct"); [intros [= <-] _ H; discriminate H|].
  destruct (Z.eqb_spec h (getHash "module")) as [->|_]; [reflexivity|].
  destruct (h =? getHash "typedef"); [intros [= <-] H; discriminate H|discriminate].
Qed.

Lemma parse_variable_nameSpace type struct_name name ns key p v p' :
  parse_variable getHash type struct_name name ns key p = Ok (v, p') ->
  nameSpace p' = nameSpace p.
Proof.
  intros H. apply parse_variable_spec in H as ((_ & _ & H) & _).
  symmetry. exact H.
Qed.

Lemma parse_struct_nameSpace type name body p p' :
  parse_struct getHash type name body p = Ok p' -> nameSpace p' = nameSpace p.
Proof.
  unfold parse_struct. intros H.
  apply bind_Ok in H as (base & _ & H).
  apply bind_Ok in H as ([fields p1] & Hloop & H). injection H as <-.
  apply parse_struct_loop_spec in Hloop as ((_ & _ & Hn) & _).
  symmetry. exact Hn.
Qed.

Lemma parse_typedef_nameSpace body p p' :
  parse_typedef getHash body p = Ok p' -> nameSpace p' = nameSpace p.
Proof.
  unfold parse_typedef. intros H.
  split_result H; injection H as <-; reflexivity.
Qed.

(** Parsing a text that declares no module leaves the namespace as it
    was, whatever blocks are entered and left. *)
Lemma parse_loop_nameSpace fuel consumed s p n p' :
  module_free getHash s = true ->
  parse_loop getHash fuel consumed s p = Ok (n, p') ->
  nameSpace p' = nameSpace p.
Proof.
  revert consumed s p n p'.
  induction fuel as [|k IH]; intros consumed s p n p' Hfree H.
  - destruct s; [|discriminate]. injection H as <- <-. reflexivity.
  - destruct s as [|c0 r0]; [injection H as <- <-; reflexivity|].
    cbn [parse_loop] in H.
    set (s1 := advance (skip_spaces (String c0 r0)) (String c0 r0)) in *.
    assert (Hf1 : module_free getHash s1 = true)
      by (apply module_free_advance; exact Hfree).
    clearbody s1.
    apply bind_Ok in H as ([l n0] & _ & H). cbn iota beta in H.
    destruct s1 as [|c r]; [injection H as <- <-; reflexivity|].
    pose proof (module_free_tail _ _ Hf1) as Hfr.
    destruct (Ascii.eqb c ";"); [apply IH in H; [exact H|exact Hfr]|].
    destruct (Ascii.eqb c "{").
    { apply bind_Ok in H as ([m p1] & E & H). cbn iota beta in H.
      apply IH in E; [|exact Hfr].
      apply IH in H; [|apply module_free_advance; exact Hfr].
      rewrite H, E. reflexivity. }
    destruct (Ascii.eqb c "}"); [injection H as <- <-; reflexivity|].
    apply bind_Ok in H as ([buf n1] & Etok & H). cbn iota beta in H.
    apply read_token_next in Etok.
    destruct (String.eqb buf ""); [injection H as <- <-; reflexivity|].
    set (s2 := advance n1 (String c r)) in *.
    assert (Hf2 : module_free getHash s2 = true)
      by (apply module_free_advance; exact Hf1).
    clearbody s2.
    destruct (match is_builtin_type getHash (getHash buf) with
              | Some r1 => Some r1
              | None => is_user_base (set_line l p) (getHash buf)
              end) as [hit|].
    { apply bind_Ok in H as ([nm n2] & _ & H). cbn iota beta in H.
      apply bind_Ok in H as ([vars n3] & _ & H). cbn iota beta in H.
      apply bind_Ok in H as ([v p1] & Ev & H). cbn iota beta in H.
      apply parse_variable_nameSpace in Ev.
      apply IH in H; [|apply module_free_advance; exact Hf2].
      rewrite H, Ev. reflexivity. }
    destruct (is_builtin_base getHash (getHash buf)) as [result|] eqn:Ebase.
    + destruct (result - BASE_SPACER =? ID_TYPEDEF) eqn:Et.
      { apply bind_Ok in H as ([body n2] & _ & H). cbn iota beta in H.
        apply bind_Ok in H as (p1 & Ep & H).
        apply parse_typedef_nameSpace in Ep.
        apply IH in H; [|do 2 apply module_free_advance; exact Hf2].
        rewrite H, Ep. reflexivity. }
      destruct (result - BASE_SPACER =? ID_STRUCT) eqn:Es.
      { apply bind_Ok in H as ([nm n2] & _ & H). cbn iota beta in H.
        apply bind_Ok in H as ([dest n3] & _ & H). cbn iota beta in H.
        apply bind_Ok in H as (p1 & Ep & H).
        apply parse_struct_nameSpace in Ep.
        destruct (Ascii.eqb _ ";");
          (apply IH in H; [|repeat apply module_free_advance; exact Hf2]);
          rewrite H, Ep; reflexivity. }
      destruct (result - BASE_SPACER =? ID_MODULE) eqn:Em.
      { exfalso. apply (module_free_token _ Hf1). rewrite <- Etok.
        exact (is_builtin_base_module _ _ Ebase Et Es Em). }
      apply IH in H; [exact H|exact Hf2].
    + destruct (ifdef (set_line l p) buf).
      * apply bind_Ok in H as ([vars n2] & _ & H). cbn iota beta in H.
        apply IH in H; [|apply module_free_advance; exact Hf2].
        exact H.
      * apply IH in H; [exact H|exact Hf2].
Qed.

Lemma span_while_stop (f : ascii -> bool) (s : string) :
  f (peek s) = false -> span_while f s = "".
Proof. destruct s as [|c r]; [reflexivity|]. simpl. intros ->. reflexivity. Qed.

Lemma read_token_module rest :
  is_name_char (peek rest) = false ->
  read_token ("module" +:+ rest) 256 = Ok ("module", 6%nat).
Proof.
  intros H. unfold read_token.
  change (skip_spaces ("module" +:+ rest)) with 0%nat. cbn [advance].
  change ("module" +:+ rest)
    with (String "m" (String "o" (String "d" (String "u" (String "l" (String "e" rest)))))).
  cbn [span_while]. change (is_name_char "m") with true.
  change (is_name_char "o") with true. change (is_name_char "d") with true.
  change (is_name_char "u") with true. change (is_name_char "l") with true.
  change (is_name_char "e") with true. cbn iota.
  rewrite (span_while_stop _ _ H). reflexivity.
Qed.

Lemma is_user_base_set_line l p h :
  is_user_base (set_line l p) h = is_user_base p h.
Proof. reflexivity. Qed.

(** The turn of the loop that reads "module". *)
Lemma parse_loop_module k consumed rest p n p' :
  is_builtin_type getHash (getHash "module") = None ->
  is_user_base p (getHash "module") = None ->
  is_builtin_base getHash (getHash "module") = Some (ID_MODULE + BASE_SPACER) ->
  is_name_char (peek rest) = false ->
  module_free getHash rest = true ->
  parse_loop getHash (S k) consumed ("module" +:+ rest) p = Ok (n, p') ->
  exists name m, read_name rest 1024 = Ok (name, m) /\ nameSpace p' = name.
Proof.
  intros Hty Hub Hbase Hstop Hfree H.
  change ("module" +:+ rest) with (String "m" ("odule" +:+ rest)) in H.
  cbn [parse_loop] in H.
  change (String "m" ("odule" +:+ rest)) with ("module" +:+ rest) in H.
  change (skip_spaces ("module" +:+ rest)) with 0%nat in H.
  cbn [advance] in H.
  apply bind_Ok in H as ([l n0] & _ & H). cbn iota beta in H.
  change ("module" +:+ rest) with (String "m" ("odule" +:+ rest)) in H at 1.
  cbn iota in H.
  change (Ascii.eqb "m" ";") with false in H.
  change (Ascii.eqb "m" "{") with false in H.
  change (Ascii.eqb "m" "}") with false in H. cbn iota in H.
  change (String "m" ("odule" +:+ rest)) with ("module" +:+ rest) in H.
  rewrite (read_token_module _ Hstop) in H.
  cbn [mbind result_bind bind] in H. cbn iota beta in H.
  change (String.eqb "module" "") with false in H. cbn iota in H.
  rewrite Hty, is_user_base_set_line, Hub, Hbase in H.
  change (ID_MODULE + BASE_SPACER - BASE_SPACER =? ID_TYPEDEF) with false in H.
  change (ID_MODULE + BASE_SPACER - BASE_SPACER =? ID_STRUCT) with false in H.
  change (ID_MODULE + BASE_SPACER - BASE_SPACER =? ID_MODULE) with true in H.
  cbn iota in H.
  change (advance 6 ("module" +:+ rest)) with rest in H.
  apply bind_Ok in H as ([name n1] & Ename & H). cbn iota beta in H.
  apply bind_Ok in H as ([m p1] & Enest & H). cbn iota beta in H.
  exists name, n1. split; [exact Ename|].
  apply parse_loop_nameSpace in Enest; [|apply module_free_advance; exact Hfree].
  apply parse_loop_nameSpace in H; [|do 2 apply module_free_advance; exact Hfree].
  rewrite H, Enest. reflexivity.
Qed.

End Namespace.

(** C7: when the parser reads [module NAME] it sets the namespace to
    NAME, and when the call returns, after the block of the module was
    left and what follows it in the enclosing scopes was parsed, the
    namespace is still NAME, whatever it was before the module was
    entered (the name of an outer module or none), as long as no other
    module is declared further on.  More generally a text that declares
    no module leaves the namespace as it was: no return from a block
    writes it. *)
Theorem module_namespace_not_restored
    (getHash : string -> Z) (k : nat) (consumed rest : string) (p : Parser)
    (n : nat) (p' : Parser) :
  is_builtin_type getHash (getHash "module") = None ->
  is_user_base p (getHash "module") = None ->
  is_builtin_base getHash (getHash "module") = Some (ID_MODULE + BASE_SPACER) ->
  is_name_char (peek rest) = false ->
  module_free getHash rest = true ->
  parse_loop getHash (S k) consumed ("module" +:+ rest) p = Ok (n, p') ->
  (exists name m, read_name rest 1024 = Ok (name, m) /\ nameSpace p' = name)
  /\ (forall fuel consumed' s q m q',
        module_free getHash s = true ->
        parse_loop getHash fuel consumed' s q = Ok (m, q') ->
        nameSpace q' = nameSpace q).
Proof.
  intros Hty Hub Hbase Hstop Hfree H. split.
  - exact (parse_loop_module getHash _ _ _ _ _ _ Hty Hub Hbase Hstop Hfree H).
  - intros fuel consumed' s q m q' Hs Hq.
    exact (parse_loop_nameSpace getHash _ _ _ _ _ _ Hs Hq).
Qed.

(** In the module [A], the text [module B { typedef int32_t T; };
    typedef int32_t U; };]: the typedef [U], declared after the block
    of [B] was left, is stored with the namespace B, and B is the
    namespace at the return. *)
Lemma module_namespace_not_restored_witness :
  exists n p',
    parse_loop sample_hash 60 "" nested_module_text outer_session = Ok (n, p')
    /\ nameSpace outer_session = "A"
    /\ nameSpace p' = "B"
    /\ map td_name (typedefs p') = ["T"; "U"]
    /\ map td_nameSpace (typedefs p') = ["B"; "B"].
Proof.
  destruct (parse_loop sample_hash 60 "" nested_module_text outer_session)
    as [[n p']| | |] eqn:E; try (vm_compute in E; discriminate E).
  exists n, p'. split; [reflexivity|]. split; [reflexivity|].
  destruct (module_namespace_not_restored sample_hash 59 ""
              " B { typedef int32_t T; }; typedef int32_t U; };"
              outer_session n p')
    as ((name & m & Hn & Hp) & _).
  - vm_compute. reflexivity.
  - vm_compute. reflexivity.
  - vm_compute. reflexivity.
  - vm_compute. reflexivity.
  - vm_compute. reflexivity.
  - exact E.
  - vm_compute in Hn. injection Hn as <- _.
    split; [exact Hp|]. vm_compute in E. injection E as _ <-.
    split; reflexivity.
Defined.

(** ** A chain of typedefs *)

Lemma collision_free_eqb getHash names a b :
  collision_free getHash names = true ->
  is_name names a = true -> is_name names b = true -> String.eqb a b = false ->
  (getHash a =? getHash b) = false.
Proof.
  unfold is_name. intros Hfree Ha Hb Hab. apply String.eqb_neq in Hab.
  apply existsb_exists in Ha as (a' & Ha & Ea). apply String.eqb_eq in Ea. subst a'.
  apply existsb_exists in Hb as (b' & Hb & Eb). apply String.eqb_eq in Eb. subst b'.
  induction names as [|x rest IH]; [destruct Ha|].
  cbn [collision_free] in Hfree. apply andb_prop in Hfree as [Hx Hrest].
  rewrite forallb_forall in Hx.
  destruct Ha as [->|Ha], Hb as [->|Hb].
  - contradiction.
  - apply negb_true_iff. apply Hx. exact Hb.
  - rewrite Z.eqb_sym. apply negb_true_iff. apply Hx. exact Ha.
  - apply IH; assumption.
Qed.

(** The tests of two hashes of names of the example are decided. *)
Ltac decide_hashes Hfree :=
  repeat match goal with
  | |- context [?f ?a =? ?f ?a] => rewrite (Z.eqb_refl (f a))
  | |- context [?f ?a =? ?f ?b] =>
      rewrite (collision_free_eqb f chain_names a b Hfree eq_refl eq_refl eq_refl)
  end.

Ltac eval_call t := let v := eval vm_compute in t in progress change t with v.

(** The calls of the scanner on a text that is known are computed. *)
Ltac eval_reads :=
  repeat match goal with
  | |- context [read_block ?a ?b ?s ?n] => eval_call (read_block a b s n)
  | |- context [read_token ?s ?n] => eval_call (read_token s n)
  | |- context [read_name ?s ?n] => eval_call (read_name s n)
  | |- context [expect_symbol ?s ?c] => eval_call (expect_symbol s c)
  | |- context [skip_spaces ?s] => eval_call (skip_spaces s)
  | |- context [advance ?n ?s] => eval_call (advance n s)
  | |- context [consumed_by ?n ?s] => eval_call (consumed_by n s)
  | |- context [last_line ?s] => eval_call (last_line s)
  | |- context [String.append ?s ?t] => eval_call (String.append s t)
  | |- context [String.length ?s] => eval_call (String.length s)
  | |- context [Explode ?s ?c] => eval_call (Explode s c)
  | |- context [remove_namespace ?s] => eval_call (remove_namespace s)
  | |- context [peek ?s] => eval_call (peek s)
  | |- context [Ascii.eqb ?a ?b] => eval_call (Ascii.eqb a b)
  | |- context [String.eqb ?a ?b] => eval_call (String.eqb a b)
  | |- context [?a - BASE_SPACER =? ?b] => eval_call (a - BASE_SPACER =? b)
  end.

Ltac eval_binds := cbn [mbind result_bind bind]; cbn iota beta.

Ltac eval_step := repeat (progress (eval_reads; eval_binds)).

Ltac session_fields :=
  cbn [typedefs structs variables nameSpace set_line set_typedefs set_structs
       set_variables set_nameSpace].

Section Chain.

Variable getHash : string -> Z.
Hypothesis Hfree : collision_free getHash chain_names = true.

Lemma types_table :
  internal_range getHash TYPE_START LAST_TYPE =
  [ EVAL getHash ID_VOID "void"; EVAL getHash ID_OCTET "octet";
    EVAL getHash ID_INT8 "int8_t"; EVAL getHash ID_INT16 "int16_t";
    EVAL getHash ID_SHORT "short"; EVAL getHash ID_INT32 "int32_t";
    EVAL getHash ID_INT "int"; EVAL getHash ID_LONG "long";
    EVAL getHash ID_INT64 "int64_t"; EVAL getHash ID_LONGLONG "long long";
    EVAL getHash ID_UINT8 "uint8_t"; EVAL getHash ID_UINT16 "uint16_t";
    EVAL getHash ID_UINT32 "uint32_t"; EVAL getHash ID_UINT64 "uint64_t";
    EVAL getHash ID_BOOL "bool"; EVAL getHash ID_BOOLEAN "boolean";
    EVAL getHash ID_CHAR "char"; EVAL getHash ID_FLOAT "float";
    EVAL getHash ID_STRING "string"; EVAL getHash ID_DOUBLE "double";
    EVAL getHash ID_SEQUENCE "sequence"; EVAL getHash ID_CONST "const" ].
Proof. reflexivity. Qed.

Lemma bases_table :
  internal_range getHash BASE_START LAST_BASE =
  [ EVAL getHash ID_STRUCT "struct"; EVAL getHash ID_MODULE "module";
    EVAL getHash ID_TYPEDEF "typedef" ].
Proof. reflexivity. Qed.

Ltac classify :=
  unfold is_builtin_type, is_builtin_base;
  rewrite ?types_table, ?bases_table;
  cbn [first_hit ih_hash EVAL]; decide_hashes Hfree; reflexivity.

Lemma type_of_uint32_t :
  is_builtin_type getHash (getHash "uint32_t") = Some (ID_UINT32 + TYPE_SPACER).
Proof. classify. Qed.

Lemma type_of_A : is_builtin_type getHash (getHash "A") = None.
Proof. classify. Qed.

Lemma type_of_typedef : is_builtin_type getHash (getHash "typedef") = None.
Proof. classify. Qed.

Lemma type_of_struct : is_builtin_type getHash (getHash "struct") = None.
Proof. classify. Qed.

Lemma base_of_typedef :
  is_builtin_base getHash (getHash "typedef") = Some (ID_TYPEDEF + BASE_SPACER).
Proof. classify. Qed.

Lemma base_of_struct :
  is_builtin_base getHash (getHash "struct") = Some (ID_STRUCT + BASE_SPACER).
Proof. classify. Qed.

Lemma parse_typedef_A p :
  parse_typedef getHash "uint32_t A" p =
    Ok (set_typedefs (typedefs p ++ [A_entry getHash (nameSpace p)]) p).
Proof.
  unfold parse_typedef.
  change (Explode (replace "uint32_t A" ", " ",") " ") with ["uint32_t"; "A"].
  cbn [List.length nth]. change (2 <=? 2)%nat with true. cbn iota.
  rewrite type_of_uint32_t. reflexivity.
Qed.

Lemma parse_typedef_B p ns :
  typedefs p = [A_entry getHash ns] ->
  parse_typedef getHash "A B" p =
    Ok (set_typedefs [A_entry getHash ns; B_entry getHash (nameSpace p)] p).
Proof.
  intros Ht. unfold parse_typedef.
  change (Explode (replace "A B" ", " ",") " ") with ["A"; "B"].
  cbn [List.length nth]. change (2 <=? 2)%nat with true. cbn iota.
  rewrite type_of_A. unfold is_user_base, is_typedef. rewrite Ht.
  cbn [first_hit td_hash A_entry]. rewrite Z.eqb_refl.
  unfold type2Name. rewrite Ht. reflexivity.
Qed.

Lemma getRealType_rec_builtin k p hash i e :
  first_hit (fun e => hash =? ih_hash e) (internal_range getHash 0 LAST_TYPE) 0
    = Some (i, e) ->
  getRealType_rec getHash (S k) p hash =
    Ok {| td_hash := hash; td_type := i + TYPE_SPACER; td_name := ih_name e;
          td_baseName := ""; td_nameSpace := ""; td_size := -1 |}.
Proof. intros H. cbn [getRealType_rec]. rewrite H. reflexivity. Qed.

Lemma getRealType_rec_typedef k p hash i t :
  first_hit (fun e => hash =? ih_hash e) (internal_range getHash 0 LAST_TYPE) 0
    = None ->
  first_hit (fun t => td_hash t =? hash) (typedefs p) 0 = Some (i, t) ->
  td_baseName t <> "" ->
  getRealType_rec getHash (S k) p hash =
    (r ← getRealType_rec getHash k p (getHash (td_baseName t));
     Ok {| td_hash := td_hash r; td_type := td_type t; td_name := td_name r;
           td_baseName := td_baseName r; td_nameSpace := td_nameSpace r;
           td_size := td_size t |}).
Proof.
  intros Hb Ht Hn. cbn [getRealType_rec]. rewrite Hb, Ht.
  apply String.eqb_neq in Hn. rewrite Hn. reflexivity.
Qed.

Ltac search_types :=
  change (internal_range getHash 0 LAST_TYPE)
    with (internal_range getHash TYPE_START LAST_TYPE);
  rewrite types_table; cbn [first_hit ih_hash EVAL];
  decide_hashes Hfree; reflexivity.

(** The chain B, A, uint32_t: the name and the hash are those of
    uint32_t, the type code and the bound those stored for B. *)
Lemma getRealType_B p nsA nsB :
  typedefs p = [A_entry getHash nsA; B_entry getHash nsB] ->
  getRealType getHash p (getHash "B") = Ok (B_resolved getHash).
Proof.
  intros Ht. unfold getRealType. rewrite Ht. cbn [List.length].
  rewrite (getRealType_rec_typedef _ p _ 1 (B_entry getHash nsB));
    [|search_types
     |rewrite Ht; cbn [first_hit td_hash A_entry B_entry]; decide_hashes Hfree;
      reflexivity
     |discriminate].
  cbn [td_baseName B_entry].
  rewrite (getRealType_rec_typedef _ p _ 0 (A_entry getHash nsA));
    [|search_types
     |rewrite Ht; cbn [first_hit td_hash A_entry B_entry]; decide_hashes Hfree;
      reflexivity
     |discriminate].
  cbn [td_baseName A_entry].
  rewrite (getRealType_rec_builtin _ p _ ID_UINT32 (EVAL getHash ID_UINT32 "uint32_t"));
    [reflexivity|search_types].
Qed.

Lemma parse_struct_S p nsA nsB :
  typedefs p = [A_entry getHash nsA; B_entry getHash nsB] ->
  parse_struct getHash (getHash "struct") "S" "B f; " p =
    Ok (set_structs (structs p ++ [S_entry getHash (nameSpace p)])
          (set_variables (variables p ++ [f_field getHash]) p)).
Proof.
  intros Ht. unfold parse_struct, getBase. rewrite base_of_struct.
  eval_step. cbn [parse_struct_loop]. eval_step.
  unfold struct_field. eval_step. unfold parse_variable.
  rewrite (getRealType_B p nsA nsB Ht). eval_step. reflexivity.
Qed.

Ltac search_user :=
  unfold is_user_base, is_typedef, is_struct; session_fields;
  cbn [first_hit td_hash st_hash A_entry B_entry S_entry app];
  decide_hashes Hfree; cbn iota.

(** The three declarations, one turn of the loop each. *)
Lemma parse_chain k p :
  typedefs p = [] -> structs p = [] ->
  exists n p',
    parse_loop getHash (3 + k) "" chain_text p = Ok (n, p')
    /\ typedefs p' = [A_entry getHash (nameSpace p); B_entry getHash (nameSpace p)]
    /\ structs p' = [S_entry getHash (nameSpace p)]
    /\ variables p' = (variables p ++ [f_field getHash])%list.
Proof.
  intros Ht Hs. unfold chain_text. eexists _, _. split.
  - change (3 + k)%nat with (S (2 + k)). cbn [parse_loop]. eval_step.
    rewrite type_of_typedef. search_user. rewrite Ht, Hs. cbn [first_hit].
    rewrite base_of_typedef. eval_step.
    rewrite parse_typedef_A. eval_step. session_fields. rewrite Ht. cbn [app].
    change (2 + k)%nat with (S (1 + k)). cbn [parse_loop]. eval_step.
    rewrite type_of_typedef. search_user. rewrite Hs. cbn [first_hit].
    rewrite base_of_typedef. eval_step.
    rewrite (parse_typedef_B _ (nameSpace p)) by reflexivity.
    eval_step. session_fields.
    change (1 + k)%nat with (S k). cbn [parse_loop]. eval_step.
    rewrite type_of_struct. search_user. rewrite Hs. cbn [first_hit].
    rewrite base_of_struct. eval_step.
    rewrite (parse_struct_S _ (nameSpace p) (nameSpace p)) by reflexivity.
    eval_step. session_fields. destruct k; reflexivity.
  - session_fields. rewrite Hs. repeat split.
Qed.

End Chain.

(** The text has no directive and no comment: the preprocessor returns it. *)
Lemma preprocess_chain (getFile : string -> option string) (depth : nat) :
  exists q,
    preprocessor getFile depth "a.idl" chain_text Parser0 = Ok (Text chain_text, q)
    /\ typedefs q = [] /\ structs q = [] /\ nameSpace q = "".
Proof. eexists. split; [vm_compute; reflexivity|]. repeat split. Qed.

Lemma parse_chain_text getHash (Hfree : collision_free getHash chain_names = true) q :
  typedefs q = [] -> structs q = [] ->
  exists n p',
    parse getHash chain_text q = Ok (n, p')
    /\ typedefs p' = [A_entry getHash (nameSpace q); B_entry getHash (nameSpace q)]
    /\ structs p' = [S_entry getHash (nameSpace q)]
    /\ variables p' = (variables q ++ [f_field getHash])%list.
Proof.
  intros Ht Hs. unfold parse.
  change (2 * String.length chain_text + 2)%nat with (3 + 101)%nat.
  apply parse_chain; assumption.
Qed.

Lemma optimize_text (getHash : string -> Z) (getFile : string -> option string)
    (depth : nat) (filename code_ rdata : string) (p q p' : Parser) (n : nat) :
  preprocessor getFile depth filename code_ p = Ok (Text rdata, q) ->
  parse getHash rdata q = Ok (n, p') ->
  optimize getHash getFile depth filename code_ p = Ok p'.
Proof. intros H1 H2. unfold optimize. rewrite H1. simpl. rewrite H2. reflexivity. Qed.

(** C5: for the text [typedef uint32_t A; typedef A B; struct S { B f; };]
    and any hash that tells the names of the text and of the table
    apart, the field [f] has the type that [getRealType] gives for B:
    its name and its hash are those of uint32_t (the base name of the
    alias chain; the field [baseName] of the entry is empty as it is
    for a builtin), its type code and its bound are those stored for
    the typedef B (code 8192, bound -1), not the code 1036 of the
    builtin uint32_t. *)
Theorem typedef_chain_field
    (getHash : string -> Z) (getFile : string -> option string) (depth : nat) :
  collision_free getHash chain_names = true ->
  exists p f,
    optimize getHash getFile depth "a.idl" chain_text Parser0 = Ok p
    /\ typedefs p = [A_entry getHash ""; B_entry getHash ""]
    /\ map st_name (structs p) = ["S"]
    /\ map st_fields (structs p) = [[f]]
    /\ var_name f = "f"
    /\ getRealType getHash p (getHash "B") = Ok (var_type f)
    /\ var_type f =
         {| td_hash := getHash "uint32_t"; td_type := td_type (B_entry getHash "");
            td_name := "uint32_t"; td_baseName := ""; td_nameSpace := "";
            td_size := td_size (B_entry getHash "") |}
    /\ td_type (var_type f) = USER_BASE_SPACER_TYPEDEF
    /\ td_size (var_type f) = -1
    /\ is_builtin_type getHash (getHash "uint32_t") = Some (ID_UINT32 + TYPE_SPACER)
    /\ td_type (var_type f) <> ID_UINT32 + TYPE_SPACER.
Proof.
  intros Hfree.
  destruct (preprocess_chain getFile depth) as (q & Hq & Ht & Hs & Hn).
  destruct (parse_chain_text getHash Hfree q Ht Hs) as (n & p & Hp & Htd & Hst & _).
  rewrite Hn in Htd, Hst.
  exists p, (f_field getHash).
  split; [exact (optimize_text _ _ _ _ _ _ _ _ _ _ Hq Hp)|].
  split; [exact Htd|]. rewrite Hst.
  split; [reflexivity|]. split; [reflexivity|]. split; [reflexivity|].
  split; [exact (getRealType_B getHash Hfree p "" "" Htd)|].
  split; [reflexivity|]. split; [reflexivity|]. split; [reflexivity|].
  split; [exact (type_of_uint32_t getHash Hfree)|]. discriminate.
Qed.

(** The sample hash tells the 28 names apart. *)
Lemma typedef_chain_field_witness :
  exists p f,
    optimize sample_hash no_files 1 "a.idl" chain_text Parser0 = Ok p
    /\ map st_fields (structs p) = [[f]]
    /\ td_name (var_type f) = "uint32_t"
    /\ td_type (var_type f) = 8192.
Proof.
  destruct (typedef_chain_field sample_hash no_files 1)
    as (p & f & H1 & _ & _ & H4 & _ & _ & H7 & _).
  - vm_compute. reflexivity.
  - exists p, f. split; [exact H1|]. split; [exact H4|].
    rewrite H7. split; reflexivity.
Defined.

(** * Further properties of the code *)

(** ** The scanner: cursors and buffers *)

Lemma span_while_length f s :
  (String.length (span_while f s) <= String.length s)%nat.
Proof.
  induction s as [|c r IH]; [simpl; lia|]. cbn [span_while].
  destruct (f c); simpl; lia.
Qed.

Lemma skip_spaces_length s : (skip_spaces s <= String.length s)%nat.
Proof. apply span_while_length. Qed.

Lemma advance_sum n s :
  (n <= String.length s)%nat ->
  String.length s = (n + String.length (advance n s))%nat.
Proof.
  revert s. induction n as [|n IH]; intros s Hn; [reflexivity|].
  destruct s as [|c r]; [simpl in Hn; lia|]. cbn [advance]. simpl in *.
  rewrite (IH r) at 1 by lia. reflexivity.
Qed.

Lemma read_block_loop_cursor from to k : forall s prev is_string braces counter t n,
  (String.length s <= k)%nat ->
  read_block_loop from to s prev is_string braces counter = Ok (t, n) ->
  (n <= String.length s)%nat /\ (String.length t <= n)%nat.
Proof.
  induction k as [|k IH]; intros s prev is_string braces counter t n Hk H;
    destruct s as [|c r]; simpl in Hk; try lia.
  - injection H as <- <-. simpl. lia.
  - injection H as <- <-. simpl. lia.
  - cbn [read_block_loop] in H.
    split_result H; injection H as <- <-; simpl;
      repeat match goal with
      | E : read_block_loop _ _ _ _ _ _ _ = Ok _ |- _ =>
          apply IH in E; [|simpl in *; lia]
      end; simpl in *; lia.
Qed.

(** X1.  No scanner primitive that returns leaves the text: the offset
    it returns is at most the length of the source, and the text it
    copied is no longer than what it consumed. *)
Theorem scanner_stays_in_text :
  (forall src, (skip_spaces src <= String.length src)%nat)
  /\ (forall src symbol,
        (skip_spaces src <= expect_symbol src symbol)%nat
        /\ (expect_symbol src symbol <= String.length src)%nat)
  /\ (forall src size t n,
        read_name src size = Ok (t, n) ->
        (String.length t <= n)%nat /\ (n <= String.length src)%nat)
  /\ (forall src size t n,
        read_token src size = Ok (t, n) ->
        (String.length t <= n)%nat /\ (n <= String.length src)%nat)
  /\ (forall from to src size t n,
        read_block from to src size = Ok (t, n) ->
        (String.length t <= n)%nat /\ (n <= String.length src)%nat).
Proof.
  split; [exact skip_spaces_length|]. split; [|split; [|split]].
  - intros src symbol. unfold expect_symbol.
    pose proof (skip_spaces_length src) as Hk.
    pose proof (advance_sum _ _ Hk) as Hs.
    destruct (advance (skip_spaces src) src); simpl in Hs; lia.
  - intros src size t n H. unfold read_name, fits in H.
    destruct (_ <? _)%nat; [|discriminate]. injection H as <- <-.
    pose proof (skip_spaces_length src) as Hk.
    pose proof (advance_sum _ _ Hk) as Hs.
    pose proof (span_while_length is_name_char (advance (skip_spaces src) src)).
    lia.
  - intros src size t n H. unfold read_token in H.
    pose proof (skip_spaces_length src) as Hk.
    pose proof (advance_sum _ _ Hk) as Hs.
    destruct (advance (skip_spaces src) src) as [|c r] eqn:Hadv.
    + injection H as <- <-. simpl. lia.
    + pose proof (span_while_length is_name_char (String c r)) as Ht.
      cbv zeta in H. set (text := span_while is_name_char (String c r)) in *.
      unfold fits in H. destruct (_ <? _)%nat; [|discriminate].
      injection H as <- <-. lia.
  - intros from to src size t n H. unfold read_block in H.
    pose proof (span_while_length (Ascii.eqb " ") src) as Hk.
    pose proof (advance_sum _ _ Hk) as Hs.
    destruct (advance (String.length (span_while (Ascii.eqb " ") src)) src)
      as [|c r] eqn:Hadv.
    + injection H as <- <-. simpl. lia.
    + apply bind_Ok in H as ([t' n'] & Hloop & H). unfold fits in H.
      destruct (_ <? _)%nat; [|discriminate].
      injection H as <- <-.
      apply (read_block_loop_cursor from to (S (String.length r))) in Hloop;
        [|destruct (Ascii.eqb c from); simpl; lia].
      destruct (Ascii.eqb c from); simpl in *; lia.
Qed.

(** A name after two spaces, a token at the end of the text, a block
    that ends at its semicolon. *)
Lemma scanner_stays_in_text_witness :
  (exists t n, read_name "  ab;" 256 = Ok (t, n)
               /\ (String.length t <= n)%nat /\ (n <= 5)%nat)
  /\ (exists t n, read_token "  " 256 = Ok (t, n) /\ (n <= 2)%nat)
  /\ (exists t n, read_block NUL ";" " a b; c" 4096 = Ok (t, n)
                  /\ (String.length t <= n)%nat /\ (n <= 7)%nat).
Proof.
  destruct scanner_stays_in_text as (_ & _ & Hname & Htoken & Hblock).
  split; [|split].
  - destruct (read_name "  ab;" 256) as [[t n]| | |] eqn:E;
      try (vm_compute in E; discriminate E).
    exists t, n. split; [reflexivity|]. exact (Hname _ _ _ _ E).
  - destruct (read_token "  " 256) as [[t n]| | |] eqn:E;
      try (vm_compute in E; discriminate E).
    exists t, n. split; [reflexivity|]. exact (proj2 (Htoken _ _ _ _ E)).
  - destruct (read_block NUL ";" " a b; c" 4096) as [[t n]| | |] eqn:E;
      try (vm_compute in E; discriminate E).
    exists t, n. split; [reflexivity|]. exact (Hblock _ _ _ _ _ _ E).
Defined.

(** ** The scanner: what a block is *)

Lemma span_spaces k s :
  no_leading_space s = true ->
  span_while (Ascii.eqb " ") (spaces k +:+ s) = spaces k.
Proof.
  intros Hs. induction k as [|k IH].
  - rewrite sapp_nil_l. destruct s as [|c r]; [reflexivity|].
    cbn [span_while]. unfold no_leading_space in Hs. cbn [peek] in Hs.
    apply negb_true_iff in Hs. rewrite Ascii.eqb_sym, Hs. reflexivity.
  - cbn [spaces]. rewrite sapp_cons. cbn [span_while].
    change (Ascii.eqb " " " ") with true. cbn iota. rewrite IH. reflexivity.
Qed.

Lemma length_spaces k : String.length (spaces k) = k.
Proof. induction k as [|k IH]; [reflexivity|]. simpl. rewrite IH. reflexivity. Qed.

Lemma advance_spaces k s : advance k (spaces k +:+ s) = s.
Proof. induction k as [|k IH]; [reflexivity|]. cbn [spaces]. rewrite sapp_cons. exact IH. Qed.

Lemma sapp_length s t :
  String.length (s +:+ t) = (String.length s + String.length t)%nat.
Proof.
  induction s as [|c s IH]; [reflexivity|]. rewrite sapp_cons. simpl.
  rewrite IH. reflexivity.
Qed.

Lemma plain_block_cons to c r :
  plain_block to (String c r) = true ->
  Ascii.eqb c to = false /\ Ascii.eqb c DQ = false /\ Ascii.eqb c "(" = false
  /\ Ascii.eqb c ")" = false /\ Ascii.eqb c BSL = false /\ Ascii.eqb c NUL = false
  /\ plain_block to r = true.
Proof.
  cbn [plain_block]. intros H.
  repeat (apply andb_prop in H as [H ?]).
  rewrite ?negb_true_iff in *. repeat split; assumption.
Qed.

Lemma terminator_chars to :
  strchr ("()" +:+ str1 BSL) to = false ->
  Ascii.eqb to "(" = false /\ Ascii.eqb to ")" = false /\ Ascii.eqb to BSL = false.
Proof.
  cbn. intros H. apply orb_false_elim in H as [H1 H].
  apply orb_false_elim in H as [H2 H]. apply orb_false_elim in H as [H3 _].
  rewrite (Ascii.eqb_sym to "("), (Ascii.eqb_sym to ")"), (Ascii.eqb_sym to BSL).
  repeat split; assumption.
Qed.

(** The loop on a plain block: it is copied up to [to], which is
    consumed. *)
Lemma read_block_loop_closed to body rest : forall prev,
  plain_block to body = true ->
  strchr ("()" +:+ str1 BSL) to = false ->
  read_block_loop NUL to (body +:+ String to rest) prev false 0 0
  = Ok (body, S (String.length body)).
Proof.
  intros prev Hbody Hto. destruct (terminator_chars _ Hto) as (Ho & Hc & Hb).
  revert prev. induction body as [|c body IH]; intros prev.
  - rewrite sapp_nil_l. cbn [read_block_loop]. unfold closes, count_braces,
      count_nesting. rewrite Ho, Hc, Hb, Ascii.eqb_refl. cbn.
    destruct (Ascii.eqb to DQ); reflexivity.
  - apply plain_block_cons in Hbody as (H1 & H2 & H3 & H4 & H5 & _ & Hr).
    rewrite sapp_cons. cbn [read_block_loop]. unfold closes, count_braces,
      count_nesting. rewrite H1, H2, H3, H4, H5. cbn [andb negb].
    change (Ascii.eqb NUL NUL) with true. cbn [andb negb].
    rewrite (IH Hr). reflexivity.
Qed.

(** Without [to] the loop copies the block to the end of the text. *)
Lemma read_block_loop_open to body : forall prev,
  plain_block to body = true ->
  read_block_loop NUL to body prev false 0 0 = Ok (body, String.length body).
Proof.
  intros prev Hbody. revert prev. induction body as [|c body IH]; intros prev;
    [reflexivity|].
  apply plain_block_cons in Hbody as (H1 & H2 & H3 & H4 & H5 & _ & Hr).
  cbn [read_block_loop]. unfold closes, count_braces, count_nesting.
  rewrite H1, H2, H3, H4, H5. cbn [andb negb].
  change (Ascii.eqb NUL NUL) with true. cbn [andb negb].
  rewrite (IH Hr). reflexivity.
Qed.

Lemma terminator_nul to :
  strchr ("()" +:+ str1 BSL +:+ str1 NUL) to = false ->
  strchr ("()" +:+ str1 BSL) to = false /\ Ascii.eqb to NUL = false.
Proof.
  intros Hto. cbn in Hto |- *. repeat (apply orb_false_elim in Hto as [? Hto]).
  rewrite (Ascii.eqb_sym to NUL).
  repeat (try split; try apply orb_false_intro); assumption.
Qed.

Lemma read_block_plain_closed to body rest k size :
  plain_block to body = true ->
  strchr ("()" +:+ str1 BSL +:+ str1 NUL) to = false ->
  no_leading_space (body +:+ str1 to) = true ->
  read_block NUL to (spaces k +:+ body +:+ String to rest) size
  = (if (String.length body <? size)%nat
     then Ok (body, (k + String.length body + 1)%nat)
     else Undefined).
Proof.
  intros Hbody Hto Hlead. destruct (terminator_nul _ Hto) as (Hto' & Hnul).
  assert (Hfirst : no_leading_space (body +:+ String to rest) = true).
  { destruct body; exact Hlead. }
  unfold read_block. rewrite (span_spaces _ _ Hfirst), length_spaces, advance_spaces.
  destruct body as [|c body].
  - rewrite sapp_nil_l. cbv zeta. rewrite Hnul. cbn [andb]. cbv beta iota.
    rewrite <- (sapp_nil_l (String to rest)).
    rewrite (read_block_loop_closed to "" rest to eq_refl Hto').
    cbn [bind mbind result_bind]. unfold fits. cbn [String.length].
    destruct (0 <? size)%nat; [|reflexivity].
    first [reflexivity|f_equal; f_equal; simpl; lia].
  - rewrite sapp_cons.
    destruct (plain_block_cons _ _ _ Hbody) as (_ & _ & _ & _ & _ & Hc & _).
    cbv zeta. rewrite Hc. cbn [andb]. cbv beta iota. rewrite <- sapp_cons.
    rewrite (read_block_loop_closed to (String c body) rest c Hbody Hto').
    cbn [bind mbind result_bind]. unfold fits.
    destruct (_ <? _)%nat; [|reflexivity].
    first [reflexivity|f_equal; f_equal; simpl; lia].
Qed.

Lemma read_block_plain_open to body k size :
  plain_block to body = true ->
  no_leading_space body = true -> body <> "" ->
  read_block NUL to (spaces k +:+ body) size
  = (if (String.length body <? size)%nat
     then Ok (body, (k + String.length body)%nat)
     else Undefined).
Proof.
  intros Hbody Hlead Hne. destruct body as [|c body]; [contradiction|].
  unfold read_block. rewrite (span_spaces _ _ Hlead), length_spaces, advance_spaces.
  destruct (plain_block_cons _ _ _ Hbody) as (_ & _ & _ & _ & _ & Hc & _).
  cbv zeta. rewrite Hc. cbn [andb]. cbv beta iota.
  rewrite (read_block_loop_open to (String c body) c Hbody).
  cbn [bind mbind result_bind]. unfold fits.
  destruct (_ <? _)%nat; [|reflexivity].
  first [reflexivity|f_equal; f_equal; simpl; lia].
Qed.

(** X2.  [read_block(src, dest, size, 0, to)] on a block without quote,
    parenthesis and backslash, after [k] spaces: the block is copied up
    to the first [to], which is consumed; a destination of too few
    bytes is overrun; and when [to] is missing the block is copied to
    the end of the text, with no error. *)
Theorem read_block_plain_block (to : ascii) (body rest : string) (k size : nat) :
  plain_block to body = true ->
  strchr ("()" +:+ str1 BSL +:+ str1 NUL) to = false ->
  no_leading_space (body +:+ str1 to) = true ->
  read_block NUL to (spaces k +:+ body +:+ String to rest) size
  = (if (String.length body <? size)%nat
     then Ok (body, (k + String.length body + 1)%nat)
     else Undefined)
  /\ (body <> "" ->
      read_block NUL to (spaces k +:+ body) size
      = (if (String.length body <? size)%nat
         then Ok (body, (k + String.length body)%nat)
         else Undefined)).
Proof.
  intros Hbody Hto Hlead. split.
  - apply read_block_plain_closed; assumption.
  - intros Hne. apply read_block_plain_open; [exact Hbody| |exact Hne].
    destruct body; [contradiction|exact Hlead].
Qed.

(** The statement [B f] of a struct body after two spaces, and the same
    without its semicolon. *)
Lemma read_block_plain_block_witness :
  read_block NUL ";" "  B f; C g;" 4096 = Ok ("B f", 6%nat)
  /\ read_block NUL ";" "  B f" 4096 = Ok ("B f", 5%nat)
  /\ read_block NUL ";" "  B f; C g;" 3 = Undefined.
Proof.
  destruct (read_block_plain_block ";" "B f" " C g;" 2 4096) as (H1 & H2);
    [reflexivity|reflexivity|reflexivity|].
  destruct (read_block_plain_block ";" "B f" " C g;" 2 3) as (H3 & _);
    [reflexivity|reflexivity|reflexivity|].
  split; [exact H1|]. split; [apply H2; discriminate|exact H3].
Defined.

Lemma strchr_app a b c : strchr (a +:+ b) c = strchr a c || strchr b c.
Proof.
  induction a as [|x a IH]; [reflexivity|]. rewrite sapp_cons. cbn [strchr].
  rewrite IH, orb_assoc. reflexivity.
Qed.

(** The loop inside a quoted text: up to the quote that no backslash
    precedes. *)
Lemma read_block_loop_quoted name rest : forall prev,
  avoids (str1 DQ +:+ str1 BSL) name = true ->
  Ascii.eqb prev BSL = false ->
  read_block_loop DQ DQ (name +:+ String DQ rest) prev true 0 1
  = Ok (name, S (String.length name)).
Proof.
  induction name as [|c name IH]; intros prev Hname Hprev.
  - rewrite sapp_nil_l. cbn [read_block_loop]. rewrite Hprev. reflexivity.
  - cbn [avoids strchr sapp_cons] in Hname. rewrite sapp_cons.
    apply andb_prop in Hname as [Hc Hname]. apply negb_true_iff in Hc.
    cbn in Hc. apply orb_false_elim in Hc as [H1 Hc].
    apply orb_false_elim in Hc as [H2 _].
    rewrite Ascii.eqb_sym in H1. rewrite Ascii.eqb_sym in H2.
    cbn [read_block_loop]. rewrite H1. cbn [andb].
    rewrite (IH c Hname H2). reflexivity.
Qed.

(** The loop inside a pair of brackets without nesting. *)
Lemma read_block_loop_bracketed from to name rest : forall prev,
  strchr ("()" +:+ str1 DQ +:+ str1 BSL +:+ str1 NUL) from = false ->
  strchr ("()" +:+ str1 DQ +:+ str1 BSL +:+ str1 NUL) to = false ->
  Ascii.eqb to from = false ->
  avoids (str1 from +:+ str1 to +:+ "()" +:+ str1 DQ +:+ str1 BSL) name = true ->
  read_block_loop from to (name +:+ String to rest) prev false 0 1
  = Ok (name, S (String.length name)).
Proof.
  intros prev Hfrom Hto Hne Hname.
  cbn in Hfrom, Hto.
  repeat (apply orb_false_elim in Hfrom as [? Hfrom]).
  repeat (apply orb_false_elim in Hto as [? Hto]).
  assert (Hnest : negb (Ascii.eqb from NUL) && negb (Ascii.eqb to NUL) = true).
  { rewrite (Ascii.eqb_sym from), (Ascii.eqb_sym to).
    apply andb_true_intro. split; apply negb_true_iff; assumption. }
  revert prev. induction name as [|c name IH]; intros prev.
  - rewrite sapp_nil_l. cbn [read_block_loop].
    unfold closes, count_braces, count_nesting.
    rewrite (Ascii.eqb_sym to DQ), (Ascii.eqb_sym to "("),
      (Ascii.eqb_sym to ")"), (Ascii.eqb_sym to BSL).
    repeat match goal with E : Ascii.eqb _ to = false |- _ => rewrite E end.
    rewrite Hnest, Hne, Ascii.eqb_refl. reflexivity.
  - cbn [avoids] in Hname. rewrite sapp_cons.
    apply andb_prop in Hname as [Hc Hname]. apply negb_true_iff in Hc.
    cbn in Hc. repeat (apply orb_false_elim in Hc as [? Hc]).
    cbn [read_block_loop]. unfold closes, count_braces, count_nesting.
    rewrite (Ascii.eqb_sym c DQ), (Ascii.eqb_sym c "("), (Ascii.eqb_sym c ")"),
      (Ascii.eqb_sym c BSL), (Ascii.eqb_sym c from), (Ascii.eqb_sym c to).
    repeat match goal with E : Ascii.eqb _ c = false |- _ => rewrite E end.
    rewrite Hnest. cbn [andb]. rewrite (IH Hname). reflexivity.
Qed.

(** X3.  The operand of [#include]: after [k] spaces, a quoted text
    without backslash is read up to the closing quote, and a text in
    brackets ([from] and [to], such as the angle brackets) without
    nested bracket, quote, parenthesis and backslash up to the closing
    bracket; both delimiters are consumed and neither is copied. *)
Theorem read_block_delimited (name rest : string) (k size : nat) :
  (avoids (str1 DQ +:+ str1 BSL) name = true ->
   read_block DQ DQ (spaces k +:+ String DQ (name +:+ String DQ rest)) size
   = (if (String.length name <? size)%nat
      then Ok (name, (k + String.length name + 2)%nat)
      else Undefined))
  /\ (forall from to : ascii,
      strchr (" ()" +:+ str1 DQ +:+ str1 BSL +:+ str1 NUL) from = false ->
      strchr ("()" +:+ str1 DQ +:+ str1 BSL +:+ str1 NUL) to = false ->
      Ascii.eqb to from = false ->
      avoids (str1 from +:+ str1 to +:+ "()" +:+ str1 DQ +:+ str1 BSL) name = true ->
      read_block from to (spaces k +:+ String from (name +:+ String to rest)) size
      = (if (String.length name <? size)%nat
         then Ok (name, (k + String.length name + 2)%nat)
         else Undefined)).
Proof.
  split.
  - intros Hname. unfold read_block.
    rewrite (span_spaces k (String DQ _) eq_refl), length_spaces, advance_spaces.
    cbv zeta. rewrite Ascii.eqb_refl. change (Ascii.eqb DQ "(") with false.
    cbn [andb]. cbv beta iota.
    rewrite (read_block_loop_quoted name rest DQ Hname eq_refl).
    cbn [bind mbind result_bind]. unfold fits.
    destruct (_ <? _)%nat; [|reflexivity]. f_equal. f_equal. lia.
  - intros from to Hfrom Hto Hne Hname.
    assert (Hsp : no_leading_space (String from (name +:+ String to rest)) = true).
    { unfold no_leading_space. cbn [peek]. apply negb_true_iff.
      cbn in Hfrom. apply orb_false_elim in Hfrom as [H _].
      rewrite Ascii.eqb_sym. exact H. }
    assert (Hfrom' : strchr ("()" +:+ str1 DQ +:+ str1 BSL +:+ str1 NUL) from = false).
    { cbn in Hfrom |- *. apply orb_false_elim in Hfrom as [_ H]. exact H. }
    assert (Hq : Ascii.eqb from DQ = false).
    { cbn in Hfrom'. repeat (apply orb_false_elim in Hfrom' as [? Hfrom']).
      rewrite Ascii.eqb_sym. assumption. }
    assert (Hp : Ascii.eqb from "(" = false).
    { cbn in Hfrom'. repeat (apply orb_false_elim in Hfrom' as [? Hfrom']).
      rewrite Ascii.eqb_sym. assumption. }
    unfold read_block.
    rewrite (span_spaces k _ Hsp), length_spaces, advance_spaces.
    cbv zeta. rewrite Ascii.eqb_refl, Hq, Hp. cbn [andb]. cbv beta iota.
    rewrite (read_block_loop_bracketed from to name rest from Hfrom' Hto Hne Hname).
    cbn [bind mbind result_bind]. unfold fits.
    destruct (_ <? _)%nat; [|reflexivity]. f_equal. f_equal. lia.
Qed.

(** The two forms of [#include]. *)
Lemma read_block_delimited_witness :
  read_block DQ DQ (" " +:+ String DQ ("types.idl" +:+ String DQ " rest")) 256
  = Ok ("types.idl", 12%nat)
  /\ read_block "<" ">" " <types.idl> rest" 256 = Ok ("types.idl", 12%nat).
Proof.
  destruct (read_block_delimited "types.idl" " rest" 1 256) as (H1 & H2).
  split; [apply H1; reflexivity|]. apply (H2 "<"%char ">"%char); reflexivity.
Defined.

(** ** The scanner: numbers *)

Lemma isdigit_plain c :
  isdigit c = true ->
  strchr ".eEfF" c = false /\ strchr "+-" c = false
  /\ strchr (" " +:+ str1 LF) c = false /\ Ascii.eqb c "x" = false
  /\ Ascii.eqb c "X" = false.
Proof.
  destruct c as [[] [] [] [] [] [] [] []]; cbn; intros H;
    try discriminate H; repeat split.
Qed.

Lemma skip_spaces_spaces k s :
  strchr (" " +:+ str1 LF) (peek s) = false ->
  skip_spaces (spaces k +:+ s) = k /\ advance k (spaces k +:+ s) = s.
Proof.
  intros Hs. split; [|apply advance_spaces]. unfold skip_spaces.
  induction k as [|k IH].
  - rewrite sapp_nil_l. destruct s as [|c r]; [reflexivity|].
    cbn [span_while]. cbn [peek] in Hs. rewrite Hs. reflexivity.
  - cbn [spaces].
    change (String " " (spaces k) +:+ s) with (String " " (spaces k +:+ s)).
    cbn [span_while].
    change (strchr (" " +:+ str1 LF) " ") with true. cbn iota.
    cbn [String.length]. rewrite IH. reflexivity.
Qed.

(** The decimal loop copies a run of digits, whatever is in front, and
    goes on behind a digit. *)
Lemma read_digit_loop_digits digits tail : forall prev,
  all_chars isdigit digits = true -> digits <> "" ->
  exists l, isdigit l = true
    /\ read_digit_loop (digits +:+ tail) prev
       = (t ← read_digit_loop tail (Some l); Ok (digits +:+ t)).
Proof.
  induction digits as [|c digits IH]; intros prev Hd Hne; [contradiction|].
  cbn [all_chars] in Hd. apply andb_prop in Hd as [Hc Hd].
  destruct (isdigit_plain c Hc) as (H1 & H2 & _).
  rewrite sapp_cons. cbn [read_digit_loop]. unfold digit_continues.
  rewrite H1, H2, Hc. cbn [bind mbind result_bind].
  destruct digits as [|c' digits'].
  - exists c. split; [exact Hc|]. rewrite sapp_nil_l.
    destruct (read_digit_loop tail (Some c)); reflexivity.
  - destruct (IH (Some c) Hd) as (l & Hl & ->); [discriminate|].
    exists l. split; [exact Hl|].
    destruct (read_digit_loop tail (Some l)); reflexivity.
Qed.

Lemma read_digit_loop_end tail prev :
  ends_number tail = true -> read_digit_loop tail prev = Ok "".
Proof.
  unfold ends_number. intros H. destruct tail as [|c r]; [reflexivity|].
  cbn [peek] in H. apply negb_true_iff, orb_false_elim in H as [Hd Hs].
  cbn [read_digit_loop]. unfold digit_continues.
  assert (H1 : strchr ".eEfF" c = false).
  { cbn in Hs |- *. repeat (apply orb_false_elim in Hs as [? Hs]).
    repeat (try apply orb_false_intro); assumption. }
  assert (H2 : strchr "+-" c = false).
  { cbn in Hs |- *. repeat (apply orb_false_elim in Hs as [? Hs]).
    repeat (try apply orb_false_intro); assumption. }
  rewrite H1, H2, Hd. reflexivity.
Qed.

Lemma span_while_app f a rest :
  all_chars f a = true -> f (peek rest) = false ->
  span_while f (a +:+ rest) = a.
Proof.
  intros Ha Hr. induction a as [|c a IH].
  - rewrite sapp_nil_l. destruct rest as [|c r]; [reflexivity|].
    cbn [span_while]. cbn [peek] in Hr. rewrite Hr. reflexivity.
  - cbn [all_chars] in Ha. apply andb_prop in Ha as [Hc Ha].
    rewrite sapp_cons. cbn [span_while]. rewrite Hc, (IH Ha). reflexivity.
Qed.

(** Whether the text at the cursor opens with [0x] or [0X]. *)
Lemma read_digit_decimal before k s size :
  strchr (" " +:+ str1 LF) (peek s) = false ->
  match s with
  | String c0 (String c1 _) =>
      Ascii.eqb c0 "0" && (Ascii.eqb c1 "x" || Ascii.eqb c1 "X")
  | _ => false
  end = false ->
  exists prev,
    read_digit before (spaces k +:+ s) size
    = (text ← read_digit_loop s prev;
       fits size text (text, (k + String.length text)%nat)).
Proof.
  intros Hs Hx. unfold read_digit.
  destruct (skip_spaces_spaces k s Hs) as (-> & ->).
  eexists. destruct s as [|c0 [|c1 r]]; try reflexivity.
  rewrite Hx. reflexivity.
Qed.

Lemma ends_number_chars rest :
  ends_number rest = true ->
  Ascii.eqb (peek rest) "x" = false /\ Ascii.eqb (peek rest) "X" = false
  /\ Ascii.eqb (peek rest) "." = false.
Proof.
  unfold ends_number. intros H. apply negb_true_iff, orb_false_elim in H as [_ H].
  cbn in H. repeat (apply orb_false_elim in H as [? H]).
  rewrite !(Ascii.eqb_sym (peek rest)). repeat split; assumption.
Qed.

Lemma digits_not_hex_prefix digits tail :
  all_chars isdigit digits = true -> digits <> "" ->
  Ascii.eqb (peek tail) "x" = false -> Ascii.eqb (peek tail) "X" = false ->
  strchr (" " +:+ str1 LF) (peek (digits +:+ tail)) = false
  /\ match digits +:+ tail with
     | String c0 (String c1 _) =>
         Ascii.eqb c0 "0" && (Ascii.eqb c1 "x" || Ascii.eqb c1 "X")
     | _ => false
     end = false.
Proof.
  intros Hd Hne Hx HX. destruct digits as [|c0 digits]; [contradiction|].
  cbn [all_chars] in Hd. apply andb_prop in Hd as [Hc Hd].
  destruct (isdigit_plain c0 Hc) as (_ & _ & Hsp & _).
  change (String c0 digits +:+ tail) with (String c0 (digits +:+ tail)).
  cbn [peek]. split; [exact Hsp|].
  destruct digits as [|c1 digits].
  - change ("" +:+ tail) with tail. destruct tail as [|c1 r]; [reflexivity|].
    cbn [peek] in Hx, HX. cbv beta iota. rewrite Hx, HX, andb_false_r. reflexivity.
  - cbn [all_chars] in Hd. apply andb_prop in Hd as [Hc1 _].
    destruct (isdigit_plain c1 Hc1) as (_ & _ & _ & H1 & H2).
    change (String c1 digits +:+ tail) with (String c1 (digits +:+ tail)).
    cbv beta iota. rewrite H1, H2, andb_false_r. reflexivity.
Qed.

(** X4.  [read_digit] after [k] spaces: a run of decimal digits is read
    up to a character that cannot go on a number, and [0x] with the
    hexadecimal digits after it up to the first other character; the
    text is copied as it stands and a destination of too few bytes is
    overrun.  The function does not check the form of a number: a
    second point after digits is read on. *)
Theorem read_digit_number (before : option ascii) (k size : nat) :
  (forall digits rest,
      all_chars isdigit digits = true -> digits <> "" ->
      ends_number rest = true ->
      read_digit before (spaces k +:+ digits +:+ rest) size
      = (if (String.length digits <? size)%nat
         then Ok (digits, (k + String.length digits)%nat)
         else Undefined))
  /\ (forall (x : ascii) hex rest,
      Ascii.eqb x "x" || Ascii.eqb x "X" = true ->
      all_chars is_hex_char hex = true ->
      is_hex_char (peek rest) = false ->
      read_digit before (spaces k +:+ String "0" (String x (hex +:+ rest))) size
      = (if (S (S (String.length hex)) <? size)%nat
         then Ok (String "0" (String x hex), (k + S (S (String.length hex)))%nat)
         else Undefined))
  /\ (forall a b c rest,
      all_chars isdigit a = true -> a <> "" ->
      all_chars isdigit b = true -> b <> "" ->
      all_chars isdigit c = true -> c <> "" ->
      ends_number rest = true ->
      let text := a +:+ "." +:+ b +:+ "." +:+ c in
      read_digit before (spaces k +:+ text +:+ rest) size
      = (if (String.length text <? size)%nat
         then Ok (text, (k + String.length text)%nat)
         else Undefined)).
Proof.
  split; [|split].
  - intros digits rest Hd Hne Hend.
    destruct (ends_number_chars rest Hend) as (Hx & HX & _).
    destruct (digits_not_hex_prefix digits rest Hd Hne Hx HX) as (Hsp & Hhex).
    destruct (read_digit_decimal before k _ size Hsp Hhex) as (prev & ->).
    destruct (read_digit_loop_digits digits rest prev Hd Hne) as (l & _ & ->).
    rewrite (read_digit_loop_end rest _ Hend). cbn [bind mbind result_bind].
    rewrite sapp_nil_r. reflexivity.
  - intros x hex rest Hx Hhex Hrest. unfold read_digit.
    destruct (skip_spaces_spaces k (String "0" (String x (hex +:+ rest))) eq_refl)
      as (-> & ->).
    rewrite Hx. change (Ascii.eqb "0" "0") with true. cbn [andb].
    rewrite (span_while_app is_hex_char hex rest Hhex Hrest). reflexivity.
  - intros a b c rest Ha Hane Hb Hbne Hc Hcne Hend text. subst text.
    destruct (ends_number_chars rest Hend) as (Hx & HX & _).
    rewrite !sapp_assoc.
    destruct (digits_not_hex_prefix a ("." +:+ b +:+ "." +:+ c +:+ rest) Ha Hane
                eq_refl eq_refl) as (Hsp & Hhex).
    destruct (read_digit_decimal before k _ size Hsp Hhex) as (prev & ->).
    destruct (read_digit_loop_digits a ("." +:+ b +:+ "." +:+ c +:+ rest) prev
                Ha Hane) as (l1 & Hl1 & ->).
    change ("." +:+ b +:+ "." +:+ c +:+ rest)
      with (String "." (b +:+ "." +:+ c +:+ rest)).
    cbn [read_digit_loop]. unfold digit_continues at 1.
    change (strchr ".eEfF" ".") with true. cbn iota. rewrite Hl1.
    cbn [bind mbind result_bind].
    destruct (read_digit_loop_digits b ("." +:+ c +:+ rest) (Some "."%char)
                Hb Hbne) as (l2 & Hl2 & ->).
    change ("." +:+ c +:+ rest) with (String "." (c +:+ rest)).
    cbn [read_digit_loop]. unfold digit_continues at 1.
    change (strchr ".eEfF" ".") with true. cbn iota. rewrite Hl2.
    cbn [bind mbind result_bind].
    destruct (read_digit_loop_digits c rest (Some "."%char) Hc Hcne)
      as (l3 & _ & ->).
    rewrite (read_digit_loop_end rest _ Hend). cbn [bind mbind result_bind].
    rewrite sapp_nil_r.
    replace (a +:+ String "." (b +:+ String "." c))
      with (a +:+ "." +:+ b +:+ "." +:+ c) by reflexivity.
    reflexivity.
Qed.

(** A decimal number, a hexadecimal number and a text with two points. *)
Lemma read_digit_number_witness :
  read_digit None " 42;" 16 = Ok ("42", 3%nat)
  /\ read_digit None "0x1F;" 16 = Ok ("0x1F", 4%nat)
  /\ read_digit None "1.2.3;" 16 = Ok ("1.2.3", 5%nat)
  /\ read_digit None "12345;" 4 = Undefined.
Proof.
  destruct (read_digit_number None 1 16) as (Hdec & _).
  destruct (read_digit_number None 0 16) as (_ & Hhex & Hpoints).
  destruct (read_digit_number None 0 4) as (Hover & _).
  split; [apply (Hdec "42" ";"); [reflexivity|discriminate|reflexivity]|].
  split; [apply (Hhex "x"%char "1F" ";"); reflexivity|].
  split; [apply (Hpoints "1" "2" "3" ";"); (reflexivity || discriminate)|].
  apply (Hover "12345" ";"); [reflexivity|discriminate|reflexivity].
Defined.

(** ** Minification *)

(** X5.  [minify_code] writes at most one character for each character
    it reads: its output is never longer than its input, so the copy in
    place never overtakes the text it reads. *)
Theorem minify_code_never_longer (s t : string) :
  minify_code s = Ok t -> (String.length t <= String.length s)%nat.
Proof.
  unfold minify_code. generalize InCode. revert t.
  induction s as [|c r IH]; intros t m H.
  - destruct m; simpl in H; try discriminate; injection H as <-; simpl; lia.
  - rewrite minify_from_cons in H.
    destruct (minify_step m c (peek r)) as [m'|x m'].
    + apply IH in H. simpl. lia.
    + apply bind_Ok in H as (t' & Hr & H). injection H as <-.
      apply IH in Hr. simpl. lia.
Qed.

(** A comment, a tab, a carriage return and a run of spaces are removed. *)
Lemma minify_code_never_longer_witness :
  exists t,
    minify_code ("a /* b */" +:+ str1 TAB +:+ str1 CR +:+ "   c") = Ok t
    /\ (String.length t <= 15)%nat.
Proof.
  destruct (minify_code ("a /* b */" +:+ str1 TAB +:+ str1 CR +:+ "   c"))
    as [t| | |] eqn:E; try (vm_compute in E; discriminate E).
  exists t. split; [reflexivity|].
  exact (minify_code_never_longer _ _ E).
Defined.

Lemma minify_block_comment_open b :
  has_comment_end b = false -> minify_from InBlockComment b = Undefined.
Proof.
  induction b as [|c r IH]; intros H; [reflexivity|].
  cbn [has_comment_end] in H. apply orb_false_elim in H as [Hc Hr].
  rewrite minify_from_cons. cbn [minify_step]. rewrite Hc. exact (IH Hr).
Qed.

(** X6.  A block comment that is not closed: [minify_code] steps two
    bytes on from the terminator and reads on behind the text.  The
    star of the opening mark counts for the closing one, as in a
    comment of three characters. *)
Theorem minify_code_open_comment (b : string) :
  has_comment_end (String "*" b) = false ->
  minify_code (String "/" (String "*" b)) = Undefined.
Proof.
  intros H. unfold minify_code. rewrite minify_from_cons.
  cbn [minify_step peek]. unfold minify_code_char.
  change (Ascii.eqb "/" "/" && Ascii.eqb "*" "/") with false.
  change (Ascii.eqb "/" "/" && Ascii.eqb "*" "*") with true. cbn iota.
  exact (minify_block_comment_open _ H).
Qed.

(** A comment that runs to the end of the text. *)
Lemma minify_code_open_comment_witness :
  minify_code "/* struct S { int32_t a; };" = Undefined.
Proof. apply minify_code_open_comment. reflexivity. Defined.

Lemma minify_code_char_written c next :
  match minify_code_char c next with
  | Drop m' => written_mode m' = Outside
  | Put x m' =>
      Ascii.eqb x TAB = false /\ Ascii.eqb x CR = false
      /\ written_mode m' = (if Ascii.eqb x DQ then Inside x else Outside)
  end.
Proof.
  unfold minify_code_char.
  destruct (Ascii.eqb c "/" && Ascii.eqb next "/"); [reflexivity|].
  destruct (Ascii.eqb c "/" && Ascii.eqb next "*"); [reflexivity|].
  destruct (Ascii.eqb c DQ) eqn:Hq.
  { apply Ascii.eqb_eq in Hq. subst c. repeat split. }
  destruct (Ascii.eqb c CR) eqn:Hcr; [reflexivity|].
  destruct (Ascii.eqb c TAB) eqn:Htab; [repeat split|].
  destruct (Ascii.eqb c " " && Ascii.eqb next " "); [reflexivity|].
  destruct (Ascii.eqb c LF && Ascii.eqb next LF); [reflexivity|].
  cbn [written_mode]. rewrite Hq. repeat split; assumption.
Qed.

Lemma minify_from_no_tab_cr s : forall m t,
  minify_from m s = Ok t -> no_tab_cr (written_mode m) t = true.
Proof.
  induction s as [|c r IH]; intros m t H.
  - destruct m; simpl in H; try discriminate; injection H as <-; reflexivity.
  - rewrite minify_from_cons in H.
    destruct m as [| | | |prev]; cbn [minify_step] in H.
    + pose proof (minify_code_char_written c (peek r)) as Hw.
      destruct (minify_code_char c (peek r)) as [m'|x m'].
      * apply IH in H. rewrite Hw in H. exact H.
      * apply bind_Ok in H as (t' & Hr & H). injection H as <-.
        destruct Hw as (H1 & H2 & H3). apply IH in Hr. rewrite H3 in Hr.
        cbn [written_mode no_tab_cr]. rewrite H1, H2. exact Hr.
    + destruct (Ascii.eqb c LF); [|apply IH in H; exact H].
      pose proof (minify_code_char_written c (peek r)) as Hw.
      destruct (minify_code_char c (peek r)) as [m'|x m'].
      * apply IH in H. rewrite Hw in H. exact H.
      * apply bind_Ok in H as (t' & Hr & H). injection H as <-.
        destruct Hw as (H1 & H2 & H3). apply IH in Hr. rewrite H3 in Hr.
        cbn [written_mode no_tab_cr]. rewrite H1, H2. exact Hr.
    + destruct (_ && _); apply IH in H; exact H.
    + apply IH in H. exact H.
    + destruct (Ascii.eqb c DQ && negb (Ascii.eqb prev BSL)) eqn:E;
        apply bind_Ok in H as (t' & Hr & H); injection H as <-;
        apply IH in Hr; cbn [written_mode no_tab_cr]; rewrite E; exact Hr.
Qed.

(** X7.  After [minify_code] a tab or a carriage return is left only
    inside a string literal: outside the literals every carriage return
    is removed and every tab has become a space. *)
Theorem minify_code_no_tab_cr (s t : string) :
  minify_code s = Ok t -> no_tab_cr Outside t = true.
Proof. intros H. exact (minify_from_no_tab_cr s InCode t H). Qed.

(** A tab and a carriage return in the code and in a literal. *)
Lemma minify_code_no_tab_cr_witness :
  exists t,
    minify_code ("a" +:+ str1 TAB +:+ "b" +:+ str1 CR +:+ str1 DQ +:+ "c"
                 +:+ str1 TAB +:+ "d" +:+ str1 DQ) = Ok t
    /\ t = "a b" +:+ str1 DQ +:+ "c" +:+ str1 TAB +:+ "d" +:+ str1 DQ
    /\ no_tab_cr Outside t = true.
Proof.
  destruct (minify_code ("a" +:+ str1 TAB +:+ "b" +:+ str1 CR +:+ str1 DQ +:+ "c"
                         +:+ str1 TAB +:+ "d" +:+ str1 DQ))
    as [t| | |] eqn:E; try (vm_compute in E; discriminate E).
  exists t. split; [reflexivity|]. split.
  - vm_compute in E. injection E as <-. reflexivity.
  - exact (minify_code_no_tab_cr _ _ E).
Defined.

Lemma minify_string_literal body rest : forall prev,
  avoids (str1 DQ +:+ str1 BSL) body = true ->
  Ascii.eqb prev BSL = false ->
  minify_from (InStringLit prev) (body +:+ String DQ rest)
  = (t ← minify_from InCode rest; Ok (body +:+ String DQ t)).
Proof.
  induction body as [|c body IH]; intros prev Hbody Hprev.
  - rewrite sapp_nil_l, minify_from_cons. cbn [minify_step].
    rewrite Hprev. reflexivity.
  - cbn [avoids] in Hbody. apply andb_prop in Hbody as [Hc Hbody].
    apply negb_true_iff in Hc. cbn in Hc.
    apply orb_false_elim in Hc as [H1 Hc]. apply orb_false_elim in Hc as [H2 _].
    rewrite Ascii.eqb_sym in H1. rewrite Ascii.eqb_sym in H2.
    rewrite sapp_cons, minify_from_cons. cbn [minify_step]. rewrite H1.
    cbn [andb]. rewrite (IH c Hbody H2).
    destruct (minify_from InCode rest); reflexivity.
Qed.

(** X8.  [minify_code] copies a string literal as it stands: comment
    marks, tabs, carriage returns and runs of spaces inside the quotes
    are kept, and the text after the closing quote is minified on its
    own. *)
Theorem minify_code_keeps_literal (body rest : string) :
  avoids (str1 DQ +:+ str1 BSL) body = true ->
  minify_code (String DQ (body +:+ String DQ rest))
  = (t ← minify_code rest; Ok (String DQ (body +:+ String DQ t))).
Proof.
  intros Hbody. unfold minify_code. rewrite minify_from_cons.
  cbn [minify_step]. unfold minify_code_char.
  change (Ascii.eqb DQ "/") with false. cbn [andb].
  change (Ascii.eqb DQ DQ) with true. cbn iota.
  rewrite (minify_string_literal body rest DQ Hbody eq_refl).
  destruct (minify_from InCode rest); reflexivity.
Qed.

(** A literal that holds a comment mark, a tab and two spaces, in front
    of a comment. *)
Lemma minify_code_keeps_literal_witness :
  minify_code (String DQ ("a // b" +:+ str1 TAB +:+ "  c"
                          +:+ String DQ "; // d"))
  = Ok (String DQ ("a // b" +:+ str1 TAB +:+ "  c" +:+ String DQ "; ")).
Proof.
  pose proof (minify_code_keeps_literal ("a // b" +:+ str1 TAB +:+ "  c")
                "; // d" eq_refl) as H.
  exact H.
Defined.

(** ** The registry: codes and names *)

Lemma first_hit_index {A : Type} (f : A -> bool) (l : list A) : forall i j x,
  first_hit f l i = Some (j, x) ->
  i <= j < i + Z.of_nat (List.length l)
  /\ nth_error l (Z.to_nat (j - i)) = Some x.
Proof.
  induction l as [|y l IH]; intros i j x H; [discriminate|].
  cbn [first_hit] in H. destruct (f y).
  - injection H as <- <-. rewrite Z.sub_diag. cbn [List.length]. split; [lia|reflexivity].
  - apply IH in H as (Hr & Hn). cbn [List.length]. split; [lia|].
    replace (Z.to_nat (j - i)) with (S (Z.to_nat (j - (i + 1)))) by lia.
    exact Hn.
Qed.

Lemma first_hit_ext {A : Type} (f g : A -> bool) (l : list A) i :
  (forall x, f x = g x) -> first_hit f l i = first_hit g l i.
Proof.
  intros H. revert i. induction l as [|y l IH]; intros i; [reflexivity|].
  cbn [first_hit]. rewrite H, IH. reflexivity.
Qed.

Lemma at_index_nth {A : Type} (l : list A) (i : Z) (x : A) :
  0 <= i -> nth_error l (Z.to_nat i) = Some x -> at_index l i = Ok x.
Proof.
  intros Hi Hn. unfold at_index.
  destruct (i <? 0) eqn:E; [apply Z.ltb_lt in E; lia|]. rewrite Hn. reflexivity.
Qed.

Section Codes.

Variable getHash : string -> Z.

(** The table is searched in two parts: the type keywords, then the
    base keywords. *)
Lemma internal_hash_parts hash :
  first_hit (fun e => hash =? ih_hash e) (internal_hash getHash) 0
  = match first_hit (fun e => hash =? ih_hash e)
                    (internal_range getHash TYPE_START LAST_TYPE) TYPE_START with
    | Some x => Some x
    | None => first_hit (fun e => hash =? ih_hash e)
                        (internal_range getHash BASE_START LAST_BASE) BASE_START
    end.
Proof.
  change (internal_hash getHash)
    with ((internal_range getHash TYPE_START LAST_TYPE
           ++ internal_range getHash BASE_START LAST_BASE)%list).
  rewrite first_hit_app. reflexivity.
Qed.

Lemma internal_hash_entry hash i e :
  first_hit (fun e => hash =? ih_hash e) (internal_hash getHash) 0 = Some (i, e) ->
  at_index (internal_hash getHash) i = Ok e /\ 0 <= i < LAST_BASE.
Proof.
  intros H. apply first_hit_index in H as (Hr & Hn).
  rewrite Z.sub_0_r in Hn. split; [apply at_index_nth; [lia|exact Hn]|].
  change (Z.of_nat (List.length (internal_hash getHash))) with 25 in Hr.
  change LAST_BASE with 25. lia.
Qed.

Lemma getType_name p hash r :
  getType getHash p hash = r -> r <> -1 ->
  Z.of_nat (List.length (typedefs p)) <= USER_BASE_SPACER_TYPEDEF ->
  type2Name getHash p r = Ok (getName getHash p hash).
Proof.
  unfold getType, getName. rewrite internal_hash_parts.
  unfold is_builtin_type, is_builtin_base, is_user_base, is_typedef, is_struct.
  intros H Hr Hlen. change USER_BASE_SPACER_TYPEDEF with 8192 in Hlen.
  destruct (first_hit _ (internal_range getHash TYPE_START LAST_TYPE) _)
    as [[i e]|] eqn:Et.
  { subst r. pose proof Et as Hi. apply first_hit_index in Hi as (Hi & _).
    change (Z.of_nat (List.length (internal_range getHash TYPE_START LAST_TYPE)))
      with 22 in Hi. change TYPE_START with 0 in Hi.
    assert (Ha : at_index (internal_hash getHash) i = Ok e).
    { apply (internal_hash_entry hash). rewrite internal_hash_parts, Et. reflexivity. }
    unfold type2Name.
    change USER_BASE_SPACER_STRUCT with 16384.
    change USER_BASE_SPACER_TYPEDEF with 8192.
    change BASE_SPACER with 4096. change TYPE_SPACER with 1024.
    destruct (16384 <=? i + 1024) eqn:E1; [apply Z.leb_le in E1; lia|].
    destruct (8192 <=? i + 1024) eqn:E2; [apply Z.leb_le in E2; lia|].
    destruct (4096 <=? i + 1024) eqn:E3; [apply Z.leb_le in E3; lia|].
    destruct (1024 <=? i + 1024) eqn:E4; [|apply Z.leb_gt in E4; lia].
    replace (i + 1024 - 1024) with i by lia. rewrite Ha. reflexivity. }
  destruct (first_hit _ (internal_range getHash BASE_START LAST_BASE) _)
    as [[i e]|] eqn:Eb.
  { subst r. pose proof Eb as Hi. apply first_hit_index in Hi as (Hi & _).
    change (Z.of_nat (List.length (internal_range getHash BASE_START LAST_BASE)))
      with 3 in Hi. change BASE_START with 22 in Hi.
    assert (Ha : at_index (internal_hash getHash) i = Ok e).
    { apply (internal_hash_entry hash). rewrite internal_hash_parts, Et, Eb.
      reflexivity. }
    unfold type2Name.
    change USER_BASE_SPACER_STRUCT with 16384.
    change USER_BASE_SPACER_TYPEDEF with 8192.
    change BASE_SPACER with 4096.
    destruct (16384 <=? i + 4096) eqn:E1; [apply Z.leb_le in E1; lia|].
    destruct (8192 <=? i + 4096) eqn:E2; [apply Z.leb_le in E2; lia|].
    destruct (4096 <=? i + 4096) eqn:E3; [|apply Z.leb_gt in E3; lia].
    replace (i + 4096 - 4096) with i by lia. rewrite Ha. reflexivity. }
  rewrite (first_hit_ext (fun t => hash =? td_hash t) (fun t => td_hash t =? hash))
    by (intros; apply Z.eqb_sym).
  rewrite (first_hit_ext (fun s => hash =? st_hash s) (fun s => st_hash s =? hash))
    by (intros; apply Z.eqb_sym).
  destruct (first_hit _ (typedefs p) 0) as [[i t]|] eqn:Ed.
  { subst r. apply first_hit_index in Ed as (Hi & Hn). rewrite Z.sub_0_r in Hn.
    unfold type2Name.
    change USER_BASE_SPACER_STRUCT with 16384.
    change USER_BASE_SPACER_TYPEDEF with 8192.
    destruct (16384 <=? i + 8192) eqn:E1; [apply Z.leb_le in E1; lia|].
    destruct (8192 <=? i + 8192) eqn:E2; [|apply Z.leb_gt in E2; lia].
    replace (i + 8192 - 8192) with i by lia.
    rewrite (at_index_nth _ _ _ (proj1 Hi) Hn). reflexivity. }
  destruct (first_hit _ (structs p) 0) as [[i s]|] eqn:Es; [|congruence].
  subst r. apply first_hit_index in Es as (Hi & Hn). rewrite Z.sub_0_r in Hn.
  unfold type2Name. change USER_BASE_SPACER_STRUCT with 16384.
  destruct (16384 <=? i + 16384) eqn:E1; [|apply Z.leb_gt in E1; lia].
  replace (i + 16384 - 16384) with i by lia.
  rewrite (at_index_nth _ _ _ (proj1 Hi) Hn). reflexivity.
Qed.

End Codes.

(** X9.  The type code of a registered hash names its registration:
    while the session holds at most 8192 typedefs, [type2Name] of the
    code that [getType] gives for a hash is the name that [getName]
    gives for the hash, for a builtin keyword, a typedef and a struct
    alike.  (A typedef of index 8192 or more has the code of a
    struct.) *)
Theorem type_code_names_its_type
    (getHash : string -> Z) (p : Parser) (hash : Z) :
  getType getHash p hash <> -1 ->
  Z.of_nat (List.length (typedefs p)) <= USER_BASE_SPACER_TYPEDEF ->
  type2Name getHash p (getType getHash p hash) = Ok (getName getHash p hash).
Proof.
  intros Hr Hlen. apply getType_name; [reflexivity|exact Hr|exact Hlen].
Qed.

(** The typedef and the struct both named S: the typedef is found first,
    and its code gives its name back. *)
Lemma type_code_names_its_type_witness :
  type2Name sample_hash shadow_session
    (getType sample_hash shadow_session (sample_hash "S"))
  = Ok (getName sample_hash shadow_session (sample_hash "S"))
  /\ getType sample_hash shadow_session (sample_hash "S") = 8193
  /\ getName sample_hash shadow_session (sample_hash "S") = "S".
Proof.
  split; [|split; vm_compute; reflexivity].
  apply type_code_names_its_type; vm_compute; discriminate.
Defined.

(** ** The registry: the recursion of [getRealType] *)

(** X10.  [getRealType] returns exactly when the chain of aliases from
    the hash ends, and the chain then has at most as many nested calls
    as the session has typedefs: a call that returns at any nesting
    returns the same entry within that bound, and a call goes on for
    ever only when the chain does not end.  No call aborts. *)
Theorem getRealType_returns_iff_chain_ends
    (getHash : string -> Z) (p : Parser) (hash : Z) :
  ((exists t, getRealType getHash p hash = Ok t)
   <-> (exists k, chain_ends getHash p hash k))
  /\ (forall k, chain_ends getHash p hash k -> (k <= List.length (typedefs p))%nat)
  /\ (forall depth t,
        getRealType_rec getHash depth p hash = Ok t ->
        getRealType getHash p hash = Ok t)
  /\ ((exists t, getRealType getHash p hash = Ok t)
      \/ forall depth, getRealType_rec getHash depth p hash = Diverges).
Proof.
  assert (Hbound : forall k, chain_ends getHash p hash k ->
                             (k <= List.length (typedefs p))%nat).
  { intros k Hk.
    pose proof (chain_ends_bound getHash p k hash [] Hk (List.NoDup_nil _)) as Hb.
    cbn [List.length] in Hb. apply Hb; intros x [].  }
  split; [|split; [exact Hbound|split]].
  - split.
    + intros (t & Ht). unfold getRealType in Ht.
      apply getRealType_rec_ends in Ht as (k & _ & Hk). exists k. exact Hk.
    + intros (k & Hk). destruct (chain_ends_rec getHash p hash k Hk) as (t & Ht).
      exists t. unfold getRealType. apply Ht. specialize (Hbound k Hk). lia.
  - intros depth t H. apply getRealType_rec_ends in H as Hk.
    destruct Hk as (k & Hlt & Hk).
    destruct (chain_ends_rec getHash p hash k Hk) as (t' & Ht').
    rewrite (Ht' depth Hlt) in H. injection H as <-.
    unfold getRealType. apply Ht'. specialize (Hbound k Hk). lia.
  - destruct (getRealType_rec_result getHash p
                (S (List.length (typedefs p))) hash) as [(t & Ht)|Hd].
    + left. exists t. exact Ht.
    + right. intros depth.
      destruct (getRealType_rec_result getHash p depth hash) as [(t & Ht)|Hd'];
        [|exact Hd'].
      apply getRealType_rec_ends in Ht as (k & Hlt & Hk).
      destruct (chain_ends_rec getHash p hash k Hk) as (t' & Ht').
      rewrite Ht' in Hd; [discriminate|]. specialize (Hbound k Hk). lia.
Qed.

(** The typedef [S] of the session with two typedefs, an alias of
    [int32_t]: the chain ends after one nested call. *)
Lemma getRealType_returns_iff_chain_ends_witness :
  (exists t, getRealType sample_hash shadow_session (sample_hash "S") = Ok t
             /\ td_name t = "int32_t")
  /\ chain_ends sample_hash shadow_session (sample_hash "S") 1.
Proof.
  assert (Hk : chain_ends sample_hash shadow_session (sample_hash "S") 1).
  { eapply chain_ends_next; [vm_compute; reflexivity|].
    apply chain_ends_here. vm_compute. reflexivity. }
  destruct (getRealType_returns_iff_chain_ends sample_hash shadow_session
              (sample_hash "S")) as ((_ & Hends) & _).
  destruct (Hends (ex_intro _ 1%nat Hk)) as (t & Ht).
  split; [|exact Hk]. exists t. split; [exact Ht|].
  vm_compute in Ht. injection Ht as <-. reflexivity.
Defined.

(** X11.  A chain of aliases that comes back to its hash never ends:
    [getRealType] calls itself without bound.  The parser builds such
    a chain when a typedef takes the name of a struct that an earlier
    typedef is an alias of, as the typedef is searched before the
    struct. *)
Theorem getRealType_alias_cycle
    (getHash : string -> Z) (p : Parser) (hash hash' : Z) (depth : nat) :
  typedef_step getHash p hash = Some hash' ->
  chain_calls getHash p hash' hash ->
  getRealType_rec getHash depth p hash = Diverges
  /\ getRealType getHash p hash = Diverges.
Proof.
  intros Hstep Hcall.
  assert (Hall : forall d, getRealType_rec getHash d p hash = Diverges).
  { intros d.
    destruct (getRealType_rec_result getHash p d hash) as [(t & Ht)|Hd];
      [|exact Hd].
    apply getRealType_rec_ends in Ht as (k & _ & Hk).
    inversion Hk as [h Hnone|h h1 k1 Hs Hk1]; subst; [congruence|].
    assert (h1 = hash') by congruence. subst h1.
    destruct (chain_calls_ends getHash p _ _ Hcall _ Hk1) as (k' & Hk' & Hle).
    pose proof (chain_ends_unique getHash p _ _ Hk _ Hk'). lia. }
  split; [apply Hall|]. unfold getRealType. apply Hall.
Qed.

(** After [struct S], [typedef S T] and [typedef T S] the alias T
    resolves through the typedef S back to T, and a struct with a field
    of type T makes the parser recurse without end. *)
Lemma getRealType_alias_cycle_witness :
  getRealType_rec sample_hash 1000 alias_cycle_session (sample_hash "T") = Diverges
  /\ getRealType sample_hash alias_cycle_session (sample_hash "T") = Diverges
  /\ map (fun t => (td_name t, td_baseName t)) (typedefs alias_cycle_session)
     = [("T", "S"); ("S", "T")]
  /\ optimize sample_hash no_files 1 "a.idl"
       (alias_cycle_text +:+ " struct U { T f; };") Parser0 = Diverges.
Proof.
  destruct (getRealType_alias_cycle sample_hash alias_cycle_session
              (sample_hash "T") (sample_hash "S") 1000) as (H1 & H2).
  - vm_compute. reflexivity.
  - eapply chain_calls_next; [vm_compute; reflexivity|]. apply chain_calls_here.
  - split; [exact H1|]. split; [exact H2|]. split; vm_compute; reflexivity.
Defined.

(** ** Declarations: aliases *)

Section Aliases.

Variable getHash : string -> Z.

Lemma first_hit_fresh {A : Type} (f : A -> bool) (l : list A) (x : A) :
  first_hit f l 0 = None -> f x = true ->
  first_hit f (l ++ [x]) 0 = Some (Z.of_nat (List.length l), x).
Proof.
  intros Hl Hx. rewrite first_hit_app, Hl. cbn [first_hit]. rewrite Hx.
  reflexivity.
Qed.

Lemma parse_typedef_alias body base new p r bname :
  Explode (replace body ", " ",") " " = [base; new] ->
  type_hit getHash p (getHash base) = Some r ->
  type2Name getHash p r = Ok bname ->
  parse_typedef getHash body p
  = Ok (set_typedefs (typedefs p ++ [alias_entry getHash p r bname new]) p).
Proof.
  intros Hmar Hhit Hname. unfold parse_typedef. rewrite Hmar.
  cbn [List.length Nat.leb nth]. fold (type_hit getHash p (getHash base)).
  rewrite Hhit, Hname. reflexivity.
Qed.

(** The nested call of an alias that is found first under its hash. *)
Lemma getRealType_rec_alias depth p hash e :
  is_builtin_type getHash hash = None ->
  first_hit (fun t => td_hash t =? hash) (typedefs p) 0 = Some e ->
  td_baseName (snd e) <> "" ->
  getRealType_rec getHash (S depth) p hash
  = (r ← getRealType_rec getHash depth p (getHash (td_baseName (snd e)));
     Ok {| td_hash := td_hash r; td_type := td_type (snd e);
           td_name := td_name r; td_baseName := td_baseName r;
           td_nameSpace := td_nameSpace r; td_size := td_size (snd e) |}).
Proof.
  intros Hb Hhit Hbase. destruct e as [i t]. cbn [snd] in *.
  cbn [getRealType_rec]. rewrite (is_builtin_type_None getHash _ Hb), Hhit.
  apply String.eqb_neq in Hbase. rewrite Hbase. reflexivity.
Qed.

End Aliases.

(** X12.  [typedef BASE NEW] of a registered type BASE stores the alias
    NEW with the type code of BASE and the registered name of BASE as
    its base name; an alias that no builtin type and no earlier typedef
    has the name of then resolves to what that base name resolves to,
    with the type code of BASE and the bound -1 in place of those of
    the resolved entry. *)
Theorem typedef_alias_resolves
    (getHash : string -> Z) (p : Parser) (body base new bname : string)
    (r : Z) (t : Typedef_t) :
  Explode (replace body ", " ",") " " = [base; new] ->
  type_hit getHash p (getHash base) = Some r ->
  type2Name getHash p r = Ok bname -> bname <> "" ->
  is_builtin_type getHash (getHash new) = None ->
  is_typedef p (getHash new) = None ->
  let p' := set_typedefs (typedefs p ++ [alias_entry getHash p r bname new]) p in
  getRealType getHash p' (getHash bname) = Ok t ->
  parse_typedef getHash body p = Ok p'
  /\ is_typedef p' (getHash new)
     = Some (Z.of_nat (List.length (typedefs p)) + USER_BASE_SPACER_TYPEDEF)
  /\ getRealType getHash p' (getHash new)
     = Ok {| td_hash := td_hash t; td_type := r; td_name := td_name t;
             td_baseName := td_baseName t; td_nameSpace := td_nameSpace t;
             td_size := -1 |}.
Proof.
  intros Hmar Hhit Hname Hbname Hnb Hnt p' Ht.
  assert (Hfresh : first_hit (fun t => td_hash t =? getHash new) (typedefs p) 0 = None).
  { unfold is_typedef in Hnt.
    destruct (first_hit _ (typedefs p) 0) as [[i e]|]; [discriminate|reflexivity]. }
  assert (Hnew : first_hit (fun t => td_hash t =? getHash new) (typedefs p') 0
                 = Some (Z.of_nat (List.length (typedefs p)),
                         alias_entry getHash p r bname new)).
  { subst p'. cbn [typedefs set_typedefs]. apply first_hit_fresh; [exact Hfresh|].
    cbn [alias_entry td_hash]. apply Z.eqb_refl. }
  split; [exact (parse_typedef_alias getHash _ _ _ _ _ _ Hmar Hhit Hname)|].
  split; [unfold is_typedef; rewrite Hnew; reflexivity|].
  (* the chain from the alias is one call longer than that of its base *)
  destruct (getRealType_rec_ends getHash p' _ _ _ Ht) as (k & _ & Hk).
  assert (Hstep : typedef_step getHash p' (getHash new) = Some (getHash bname)).
  { unfold typedef_step. rewrite (is_builtin_type_None getHash _ Hnb), Hnew.
    cbn [alias_entry td_baseName]. apply String.eqb_neq in Hbname.
    rewrite Hbname. reflexivity. }
  assert (Hk' : chain_ends getHash p' (getHash new) (S k))
    by (econstructor; eassumption).
  pose proof (chain_ends_bound getHash p' (S k) _ [] Hk' (List.NoDup_nil _)) as Hb.
  cbn [List.length] in Hb.
  assert (Hle : (S k <= List.length (typedefs p'))%nat)
    by (apply Hb; intros x []).
  destruct (chain_ends_rec getHash p' _ _ Hk) as (t' & Ht').
  assert (t' = t).
  { unfold getRealType in Ht. rewrite Ht' in Ht by lia. congruence. }
  subst t'. unfold getRealType.
  rewrite (getRealType_rec_alias getHash _ p' _ _ Hnb Hnew) by exact Hbname.
  cbn [snd alias_entry td_baseName td_type td_size].
  rewrite Ht' by lia. reflexivity.
Qed.

(** [typedef uint32_t A]: the alias of a builtin type resolves to the
    entry of the builtin type itself. *)
Lemma typedef_alias_resolves_witness :
  exists p',
    parse_typedef sample_hash "uint32_t A" Parser0 = Ok p'
    /\ getRealType sample_hash p' (sample_hash "A")
       = getRealType sample_hash p' (sample_hash "uint32_t")
    /\ is_typedef p' (sample_hash "A") = Some 8192.
Proof.
  destruct (getRealType sample_hash
              (set_typedefs (typedefs Parser0
                 ++ [alias_entry sample_hash Parser0 1036 "uint32_t" "A"]) Parser0)
              (sample_hash "uint32_t")) as [t| | |] eqn:Et;
    try (vm_compute in Et; discriminate Et).
  destruct (typedef_alias_resolves sample_hash Parser0 "uint32_t A" "uint32_t"
              "A" "uint32_t" 1036 t) as (H1 & H2 & H3).
  - reflexivity.
  - vm_compute. reflexivity.
  - vm_compute. reflexivity.
  - discriminate.
  - vm_compute. reflexivity.
  - reflexivity.
  - exact Et.
  - eexists. split; [exact H1|]. split; [|exact H2].
    rewrite H3, Et. vm_compute in Et. injection Et as <-. reflexivity.
Defined.

(** ** Declarations: what parsing changes *)

Lemma extends_refl p : extends p p.
Proof.
  repeat split; try reflexivity; exists []; symmetry; apply app_nil_r.
Qed.

Lemma extends_trans p q r : extends p q -> extends q r -> extends p r.
Proof.
  intros ((t1 & T1) & (s1 & S1) & (v1 & V1) & (u1 & U1) & E1 & M1 & D1 & C1)
         ((t2 & T2) & (s2 & S2) & (v2 & V2) & (u2 & U2) & E2 & M2 & D2 & C2).
  repeat split; try congruence.
  - exists (t1 ++ t2)%list. rewrite T2, T1, app_assoc. reflexivity.
  - exists (s1 ++ s2)%list. rewrite S2, S1, app_assoc. reflexivity.
  - exists (v1 ++ v2)%list. rewrite V2, V1, app_assoc. reflexivity.
  - exists (u1 ++ u2)%list. rewrite U2, U1, app_assoc. reflexivity.
Qed.

Ltac extends_by :=
  repeat split; try reflexivity;
  first [eexists; reflexivity | exists []; symmetry; apply app_nil_r].

Lemma extends_set_line l p : extends p (set_line l p).
Proof. extends_by. Qed.

Lemma extends_set_nameSpace n p : extends p (set_nameSpace n p).
Proof. extends_by. Qed.

Section Frame.

Variable getHash : string -> Z.

Lemma parse_variable_extends type sn name ns key p v p' :
  parse_variable getHash type sn name ns key p = Ok (v, p') -> extends p p'.
Proof.
  unfold parse_variable. intros H. apply bind_Ok in H as (t & _ & H).
  injection H as <- <-. extends_by.
Qed.

Lemma parse_struct_loop_extends fuel : forall name s fields p fields' p',
  parse_struct_loop getHash fuel name s fields p = Ok (fields', p') ->
  extends p p'.
Proof.
  induction fuel as [|k IH]; intros name s fields p fields' p' H.
  - destruct s; [|discriminate]. injection H as <- <-. apply extends_refl.
  - destruct s as [|c r]; [injection H as <- <-; apply extends_refl|].
    cbn [parse_struct_loop] in H.
    apply bind_Ok in H as ([variable n] & _ & H).
    apply bind_Ok in H as (f & _ & H).
    destruct f as [[[[type varName] ns] key]|].
    + apply bind_Ok in H as ([v p1] & Ev & H).
      apply parse_variable_extends in Ev. apply IH in H.
      exact (extends_trans _ _ _ Ev H).
    + apply IH in H. exact H.
Qed.

Lemma parse_struct_extends type name body p p' :
  parse_struct getHash type name body p = Ok p' -> extends p p'.
Proof.
  unfold parse_struct. intros H.
  apply bind_Ok in H as (base & _ & H).
  apply bind_Ok in H as ([fields p1] & Hloop & H). injection H as <-.
  apply parse_struct_loop_extends in Hloop.
  apply (extends_trans _ _ _ Hloop). extends_by.
Qed.

Lemma parse_typedef_extends body p p' :
  parse_typedef getHash body p = Ok p' -> extends p p'.
Proof.
  unfold parse_typedef. intros H.
  split_result H; injection H as <-; extends_by.
Qed.

Lemma parse_loop_extends fuel : forall consumed s p n p',
  parse_loop getHash fuel consumed s p = Ok (n, p') -> extends p p'.
Proof.
  induction fuel as [|k IH]; intros consumed s p n p' H.
  - destruct s; [|discriminate]. injection H as <- <-. apply extends_refl.
  - destruct s as [|c0 r0]; [injection H as <- <-; apply extends_refl|].
    cbn [parse_loop] in H.
    apply bind_Ok in H as ([l n0] & _ & H). cbn iota beta in H.
    apply (extends_trans _ _ _ (extends_set_line l p)).
    destruct (advance (skip_spaces (String c0 r0)) (String c0 r0)) as [|c r];
      [injection H as <- <-; apply extends_refl|].
    destruct (Ascii.eqb c ";"); [apply IH in H; exact H|].
    destruct (Ascii.eqb c "{").
    { apply bind_Ok in H as ([m p1] & E & H). cbn iota beta in H.
      apply IH in E. apply IH in H. exact (extends_trans _ _ _ E H). }
    destruct (Ascii.eqb c "}"); [injection H as <- <-; apply extends_refl|].
    apply bind_Ok in H as ([buf n1] & _ & H). cbn iota beta in H.
    destruct (String.eqb buf ""); [injection H as <- <-; apply extends_refl|].
    destruct (match is_builtin_type getHash (getHash buf) with
              | Some r1 => Some r1
              | None => is_user_base (set_line l p) (getHash buf)
              end) as [hit|].
    { apply bind_Ok in H as ([nm n2] & _ & H). cbn iota beta in H.
      apply bind_Ok in H as ([vars n3] & _ & H). cbn iota beta in H.
      apply bind_Ok in H as ([v p1] & Ev & H). cbn iota beta in H.
      apply parse_variable_extends in Ev. apply IH in H.
      exact (extends_trans _ _ _ Ev H). }
    destruct (is_builtin_base getHash (getHash buf)) as [result|].
    + destruct (result - BASE_SPACER =? ID_TYPEDEF).
      { apply bind_Ok in H as ([body n2] & _ & H). cbn iota beta in H.
        apply bind_Ok in H as (p1 & Ep & H).
        apply parse_typedef_extends in Ep. apply IH in H.
        exact (extends_trans _ _ _ Ep H). }
      destruct (result - BASE_SPACER =? ID_STRUCT).
      { apply bind_Ok in H as ([nm n2] & _ & H). cbn iota beta in H.
        apply bind_Ok in H as ([dest n3] & _ & H). cbn iota beta in H.
        apply bind_Ok in H as (p1 & Ep & H).
        apply parse_struct_extends in Ep.
        destruct (Ascii.eqb _ ";"); apply IH in H;
          exact (extends_trans _ _ _ Ep H). }
      destruct (result - BASE_SPACER =? ID_MODULE).
      { apply bind_Ok in H as ([nm n2] & _ & H). cbn iota beta in H.
        apply bind_Ok in H as ([m p1] & E & H). cbn iota beta in H.
        apply IH in E. apply IH in H. exact (extends_trans _ _ _ E H). }
      apply IH in H. exact H.
    + destruct (ifdef (set_line l p) buf).
      * apply bind_Ok in H as ([vars n2] & _ & H). cbn iota beta in H.
        apply IH in H. refine (extends_trans _ _ _ _ H). extends_by.
      * apply IH in H. exact H.
Qed.

End Frame.

(** X13.  Parsing only appends: after [parse] the tables of typedefs,
    structs, variables and user defines hold what they held, in the
    same places, and what the text added; the tables of enums and of
    modules, the defines and the code are untouched (no declaration
    fills the table of modules). *)
Theorem parse_only_appends
    (getHash : string -> Z) (src : string) (p p' : Parser) (n : nat) :
  parse getHash src p = Ok (n, p') -> extends p p'.
Proof.
  unfold parse. intros H. exact (parse_loop_extends getHash _ _ _ _ _ _ H).
Qed.

(** A module with a typedef and a struct, parsed in a session that
    holds a typedef. *)
Lemma parse_only_appends_witness :
  exists n p',
    parse sample_hash "module M { typedef A B; struct S { B f; }; };"
      module_session = Ok (n, p')
    /\ extends module_session p'
    /\ map td_name (typedefs module_session) = ["T"]
    /\ map td_name (typedefs p') = ["T"]
    /\ map st_name (structs p') = ["S"]
    /\ modules p' = [].
Proof.
  destruct (parse sample_hash "module M { typedef A B; struct S { B f; }; };"
              module_session) as [[n p']| | |] eqn:E;
    try (vm_compute in E; discriminate E).
  exists n, p'. split; [reflexivity|].
  split; [exact (parse_only_appends _ _ _ _ _ E)|].
  vm_compute in E. injection E as <- <-. repeat split.
Defined.

Lemma at_index_app {A : Type} (l more : list A) i x :
  at_index l i = Ok x -> at_index (l ++ more) i = Ok x.
Proof.
  unfold at_index. destruct (i <? 0); [discriminate|].
  destruct (nth_error l (Z.to_nat i)) as [y|] eqn:E; [|discriminate].
  intros [= <-]. rewrite nth_error_app1; [rewrite E; reflexivity|].
  apply nth_error_Some. congruence.
Qed.

Lemma first_hit_prefix {A : Type} (f : A -> bool) (l more : list A) i x :
  first_hit f l i = Some x -> first_hit f (l ++ more) i = Some x.
Proof. intros H. rewrite first_hit_app, H. reflexivity. Qed.

Section Survive.

Variable getHash : string -> Z.

Lemma type2Name_extends p q r name :
  extends p q -> type2Name getHash p r = Ok name -> type2Name getHash q r = Ok name.
Proof.
  intros ((t & Ht) & (s & Hs) & _). unfold type2Name. rewrite Ht, Hs.
  destruct (USER_BASE_SPACER_STRUCT <=? r).
  { intros H. apply bind_Ok in H as (x & Hx & H).
    rewrite (at_index_app _ _ _ _ Hx). exact H. }
  destruct (USER_BASE_SPACER_TYPEDEF <=? r); [|exact (fun H => H)].
  intros H. apply bind_Ok in H as (x & Hx & H).
  rewrite (at_index_app _ _ _ _ Hx). exact H.
Qed.

Lemma is_typedef_extends p q hash r :
  extends p q -> is_typedef p hash = Some r -> is_typedef q hash = Some r.
Proof.
  intros ((t & Ht) & _). unfold is_typedef. rewrite Ht.
  destruct (first_hit _ (typedefs p) 0) as [x|] eqn:E; [|discriminate].
  rewrite (first_hit_prefix _ _ _ _ _ E). exact (fun H => H).
Qed.

Lemma is_struct_extends p q hash r :
  extends p q -> is_struct p hash = Some r -> is_struct q hash = Some r.
Proof.
  intros (_ & (s & Hs) & _). unfold is_struct. rewrite Hs.
  destruct (first_hit _ (structs p) 0) as [x|] eqn:E; [|discriminate].
  rewrite (first_hit_prefix _ _ _ _ _ E). exact (fun H => H).
Qed.

End Survive.

(** X14.  The type codes handed out before a text is parsed stay
    valid: a code that [type2Name] decodes gives the same name after
    [parse], and a hash that was the first hit among the typedefs, or
    among the structs, keeps its code.  A later declaration never takes
    the place of an earlier one in its table. *)
Theorem type_codes_survive_parsing
    (getHash : string -> Z) (src : string) (p p' : Parser) (n : nat) :
  parse getHash src p = Ok (n, p') ->
  (forall r name,
      type2Name getHash p r = Ok name -> type2Name getHash p' r = Ok name)
  /\ (forall hash r, is_typedef p hash = Some r -> is_typedef p' hash = Some r)
  /\ (forall hash r, is_struct p hash = Some r -> is_struct p' hash = Some r)
  /\ (forall hash r,
        is_typedef p hash = Some r ->
        getType getHash p' hash = getType getHash p hash).
Proof.
  unfold parse. intros H. apply parse_loop_extends in H.
  split; [intros r name; apply type2Name_extends; exact H|].
  split; [intros hash r; apply is_typedef_extends; exact H|].
  split; [intros hash r; apply is_struct_extends; exact H|].
  intros hash r Hr. unfold getType, is_user_base.
  rewrite (is_typedef_extends _ _ _ _ H Hr), Hr. reflexivity.
Qed.

(** The typedef T of the session keeps its code 8192 when a second
    typedef of the name T is parsed. *)
Lemma type_codes_survive_parsing_witness :
  exists n p',
    parse sample_hash "typedef uint32_t T;" module_session = Ok (n, p')
    /\ map td_baseName (typedefs p') = ["int32_t"; "uint32_t"]
    /\ is_typedef p' (sample_hash "T") = Some 8192
    /\ type2Name sample_hash p' 8192 = Ok "T".
Proof.
  destruct (parse sample_hash "typedef uint32_t T;" module_session)
    as [[n p']| | |] eqn:E; try (vm_compute in E; discriminate E).
  destruct (type_codes_survive_parsing _ _ _ _ _ E) as (Hname & Htd & _).
  exists n, p'. split; [reflexivity|]. split.
  - vm_compute in E. injection E as <- <-. reflexivity.
  - split; [apply Htd|apply Hname]; vm_compute; reflexivity.
Defined.

(** ** Declarations: the cursor of [parse] *)

Lemma substring_length n s :
  String.length (substring 0 n s) = Nat.min n (String.length s).
Proof.
  revert s. induction n as [|n IH]; intros s.
  - destruct s; reflexivity.
  - destruct s as [|c r]; [reflexivity|]. cbn [substring String.length Nat.min].
    rewrite IH. reflexivity.
Qed.

Lemma consumed_rest n s :
  (String.length (consumed_by n s) + String.length (advance n s))%nat
  = String.length s.
Proof.
  unfold consumed_by. rewrite substring_length.
  revert s. induction n as [|n IH]; intros s; [simpl; lia|].
  destruct s as [|c r]; [reflexivity|]. cbn [advance String.length Nat.min].
  specialize (IH r). lia.
Qed.

(** The text in front of the cursor and the text behind it. *)
Lemma moved_cursor consumed n s :
  (String.length (consumed +:+ consumed_by n s) + String.length (advance n s))%nat
  = (String.length consumed + String.length s)%nat.
Proof. rewrite sapp_length. pose proof (consumed_rest n s). lia. Qed.

Lemma moved_cursor_grows consumed n s :
  (String.length consumed <= String.length (consumed +:+ consumed_by n s))%nat.
Proof. rewrite sapp_length. lia. Qed.

Section Cursor.

Variable getHash : string -> Z.

Lemma parse_loop_cursor fuel : forall consumed s p n p',
  parse_loop getHash fuel consumed s p = Ok (n, p') ->
  (String.length consumed <= n <= String.length consumed + String.length s)%nat.
Proof.
  induction fuel as [|k IH]; intros consumed s p n p' H.
  - destruct s; [|discriminate]. injection H as <- <-. simpl. lia.
  - destruct s as [|c0 r0]; [injection H as <- <-; simpl; lia|].
    cbn [parse_loop] in H.
    pose proof (moved_cursor consumed (skip_spaces (String c0 r0)) (String c0 r0)) as Hm.
    pose proof (moved_cursor_grows consumed (skip_spaces (String c0 r0)) (String c0 r0)) as Hg.
    set (s1 := advance (skip_spaces (String c0 r0)) (String c0 r0)) in *.
    set (consumed1 := consumed +:+ consumed_by _ _) in *.
    clearbody s1 consumed1.
    apply bind_Ok in H as ([l n0] & _ & H). cbn iota beta in H.
    destruct s1 as [|c r]; [injection H as <- <-; simpl in *; lia|].
    destruct (Ascii.eqb c ";").
    { apply IH in H. rewrite sapp_length in H. simpl in *. lia. }
    destruct (Ascii.eqb c "{").
    { apply bind_Ok in H as ([m p1] & E & H). cbn iota beta in H.
      apply IH in E. apply IH in H.
      rewrite !sapp_length in H. pose proof (consumed_rest m r).
      simpl in *. lia. }
    destruct (Ascii.eqb c "}"); [injection H as <- <-; simpl in *; lia|].
    apply bind_Ok in H as ([buf n1] & _ & H). cbn iota beta in H.
    destruct (String.eqb buf ""); [injection H as <- <-; simpl in *; lia|].
    pose proof (moved_cursor consumed1 n1 (String c r)) as Hm2.
    pose proof (moved_cursor_grows consumed1 n1 (String c r)) as Hg2.
    set (s2 := advance n1 (String c r)) in *.
    set (consumed2 := consumed1 +:+ consumed_by _ _) in *.
    clearbody s2 consumed2.
    destruct (match is_builtin_type getHash (getHash buf) with
              | Some r1 => Some r1
              | None => is_user_base (set_line l p) (getHash buf)
              end) as [hit|].
    { apply bind_Ok in H as ([nm n2] & _ & H). cbn iota beta in H.
      apply bind_Ok in H as ([vars n3] & _ & H). cbn iota beta in H.
      apply bind_Ok in H as ([v p1] & _ & H). cbn iota beta in H.
      apply IH in H. pose proof (moved_cursor consumed2 n3 s2).
      pose proof (moved_cursor_grows consumed2 n3 s2). lia. }
    destruct (is_builtin_base getHash (getHash buf)) as [result|].
    + destruct (result - BASE_SPACER =? ID_TYPEDEF).
      { pose proof (moved_cursor consumed2 (skip_spaces s2) s2) as Hm3.
        pose proof (moved_cursor_grows consumed2 (skip_spaces s2) s2) as Hg3.
        set (s3 := advance (skip_spaces s2) s2) in *.
        set (consumed3 := consumed2 +:+ consumed_by _ _) in *.
        clearbody s3 consumed3.
        apply bind_Ok in H as ([body n2] & _ & H). cbn iota beta in H.
        apply bind_Ok in H as (p1 & _ & H).
        apply IH in H. pose proof (moved_cursor consumed3 n2 s3).
        pose proof (moved_cursor_grows consumed3 n2 s3). lia. }
      destruct (result - BASE_SPACER =? ID_STRUCT).
      { apply bind_Ok in H as ([nm n2] & _ & H). cbn iota beta in H.
        pose proof (moved_cursor consumed2 n2 s2) as Hm3.
        pose proof (moved_cursor_grows consumed2 n2 s2) as Hg3.
        set (s3 := advance n2 s2) in *.
        set (consumed3 := consumed2 +:+ consumed_by _ _) in *.
        clearbody s3 consumed3.
        pose proof (moved_cursor consumed3 (expect_symbol s3 "{") s3) as Hm4.
        pose proof (moved_cursor_grows consumed3 (expect_symbol s3 "{") s3) as Hg4.
        set (s4 := advance (expect_symbol s3 "{") s3) in *.
        set (consumed4 := consumed3 +:+ consumed_by _ _) in *.
        clearbody s4 consumed4.
        apply bind_Ok in H as ([dest n3] & _ & H). cbn iota beta in H.
        pose proof (moved_cursor consumed4 n3 s4) as Hm5.
        pose proof (moved_cursor_grows consumed4 n3 s4) as Hg5.
        set (s5 := advance n3 s4) in *.
        set (consumed5 := consumed4 +:+ consumed_by _ _) in *.
        clearbody s5 consumed5.
        apply bind_Ok in H as (p1 & _ & H).
        destruct (Ascii.eqb (peek s5) ";") eqn:Esemi.
        - apply IH in H. rewrite sapp_length in H.
          destruct s5 as [|c5 r5]; [discriminate Esemi|]. simpl in *. lia.
        - apply IH in H. lia. }
      destruct (result - BASE_SPACER =? ID_MODULE).
      { apply bind_Ok in H as ([nm n2] & _ & H). cbn iota beta in H.
        pose proof (moved_cursor consumed2 n2 s2) as Hm3.
        pose proof (moved_cursor_grows consumed2 n2 s2) as Hg3.
        set (s3 := advance n2 s2) in *.
        set (consumed3 := consumed2 +:+ consumed_by _ _) in *.
        clearbody s3 consumed3.
        apply bind_Ok in H as ([m p1] & E & H). cbn iota beta in H.
        apply IH in H. pose proof (moved_cursor consumed3 m s3).
        pose proof (moved_cursor_grows consumed3 m s3). lia. }
      apply IH in H. lia.
    + destruct (ifdef (set_line l p) buf).
      * apply bind_Ok in H as ([vars n2] & _ & H). cbn iota beta in H.
        apply IH in H. pose proof (moved_cursor consumed2 n2 s2).
        pose proof (moved_cursor_grows consumed2 n2 s2). lia.
      * apply IH in H. lia.
Qed.

End Cursor.

(** X15.  The offset that [parse] returns is within its text: the
    caller of a nested call, which adds it to its cursor, stays in the
    text, whatever the text holds. *)
Theorem parse_stays_in_text
    (getHash : string -> Z) (src : string) (p p' : Parser) (n : nat) :
  parse getHash src p = Ok (n, p') -> (n <= String.length src)%nat.
Proof.
  unfold parse. intros H. apply parse_loop_cursor in H. simpl in H. lia.
Qed.

(** A block that closes in front of more text: the offset is just
    behind the closing brace. *)
Lemma parse_stays_in_text_witness :
  exists n p',
    parse sample_hash " typedef int32_t T; } struct" Parser0 = Ok (n, p')
    /\ n = 21%nat /\ (n <= 28)%nat.
Proof.
  destruct (parse sample_hash " typedef int32_t T; } struct" Parser0)
    as [[n p']| | |] eqn:E; try (vm_compute in E; discriminate E).
  exists n, p'. split; [reflexivity|]. split.
  - vm_compute in E. injection E as <- _. reflexivity.
  - exact (parse_stays_in_text _ _ _ _ _ E).
Defined.

(** ** Declarations: the fields of a struct *)

Section Fields.

Variable getHash : string -> Z.

Lemma parse_struct_loop_fields fuel : forall name s fields p fields' p',
  parse_struct_loop getHash fuel name s fields p = Ok (fields', p') ->
  exists new,
    fields' = (fields ++ new)%list
    /\ variables p' = (variables p ++ new)%list
    /\ Forall (fun v => var_struct_name v = name) new
    /\ typedefs p' = typedefs p /\ structs p' = structs p
    /\ nameSpace p' = nameSpace p.
Proof.
  induction fuel as [|k IH]; intros name s fields p fields' p' H.
  - destruct s; [|discriminate]. injection H as <- <-.
    exists []. rewrite !app_nil_r. repeat split. constructor.
  - destruct s as [|c r].
    { injection H as <- <-. exists []. rewrite !app_nil_r. repeat split.
      constructor. }
    cbn [parse_struct_loop] in H.
    apply bind_Ok in H as ([variable n] & _ & H).
    apply bind_Ok in H as (f & _ & H).
    destruct f as [[[[type varName] ns] key]|]; [|exact (IH _ _ _ _ _ _ H)].
    apply bind_Ok in H as ([v p1] & Ev & H).
    apply parse_variable_spec in Ev
      as ((Ht & Hs & Hn) & Hv & _ & _ & _ & _ & Hsn).
    apply IH in H as (new & -> & Hvars & Hall & Ht' & Hs' & Hn').
    exists (v :: new). rewrite <- app_assoc. split; [reflexivity|].
    split; [rewrite Hvars, Hv, <- app_assoc; reflexivity|].
    split; [constructor; assumption|]. repeat split; congruence.
Qed.

End Fields.

(** X16.  [parse_struct] appends one entry to [structs], of the name
    and in the namespace given, with a base code that [getBase] returns;
    its fields are, in their order, exactly the variables that the call
    appends to the table [variables], each with the name of the struct
    as its [struct_name]; typedefs and namespace are left as they are. *)
Theorem struct_fields_are_variables
    (getHash : string -> Z) (type : Z) (name body : string) (p p' : Parser) :
  parse_struct getHash type name body p = Ok p' ->
  exists str,
    structs p' = (structs p ++ [str])%list
    /\ variables p' = (variables p ++ st_fields str)%list
    /\ Forall (fun v => var_struct_name v = name) (st_fields str)
    /\ st_name str = name /\ st_hash str = getHash name
    /\ st_nameSpace str = nameSpace p
    /\ getBase getHash type = Ok (st_type str)
    /\ typedefs p' = typedefs p /\ nameSpace p' = nameSpace p.
Proof.
  unfold parse_struct. intros H.
  apply bind_Ok in H as (base & Hbase & H).
  apply bind_Ok in H as ([fields p1] & Hloop & H). injection H as <-.
  apply parse_struct_loop_fields in Hloop
    as (new & -> & Hvars & Hall & Ht & Hs & Hn).
  eexists. cbn [structs variables typedefs nameSpace set_structs
                st_fields st_name st_hash st_nameSpace st_type app].
  rewrite Hs. split; [reflexivity|]. split; [exact Hvars|].
  split; [exact Hall|]. repeat split; assumption.
Qed.

(** A struct of two fields. *)
Lemma struct_fields_are_variables_witness :
  exists p' str,
    parse_struct sample_hash (sample_hash "struct") "S" "int32_t a; bool b; "
      Parser0 = Ok p'
    /\ structs p' = [str]
    /\ variables p' = st_fields str
    /\ map var_name (st_fields str) = ["a"; "b"]
    /\ map var_struct_name (variables p') = ["S"; "S"].
Proof.
  destruct (parse_struct sample_hash (sample_hash "struct") "S"
              "int32_t a; bool b; " Parser0) as [p'| | |] eqn:E;
    try (vm_compute in E; discriminate E).
  destruct (struct_fields_are_variables _ _ _ _ _ _ E)
    as (str & Hs & Hv & _).
  exists p', str. split; [reflexivity|]. split; [exact Hs|]. split; [exact Hv|].
  vm_compute in E. injection E as <-. injection Hs as <-. split; reflexivity.
Defined.

(** ** The preprocessor: disabled text *)

Section Disabled.

Variable include_file : string -> Parser -> result (buffer * Parser).
Variable file : string.

Lemma pp_loop_disabled fuel : forall st,
  (String.length (pp_rest st) < fuel)%nat ->
  define_ok st = false ->
  avoids "#" (pp_rest st) = true ->
  exists st',
    pp_loop include_file file fuel st = Ok st'
    /\ pp_out st' = pp_out st /\ pp_rest st' = ""
    /\ pp_defines st' = pp_defines st /\ define_ok st' = false
    /\ current_line st' = current_line st + line_feeds (pp_rest st)
    /\ (forall k, k <> "__FILE__" -> k <> "__LINE__" ->
                  defines (pp_this st') !! k = defines (pp_this st) !! k).
Proof.
  induction fuel as [|k IH]; intros st Hlen Hoff Hplain; [lia|].
  destruct st as [out rest stack ok line p].
  cbn [pp_rest pp_out define_ok current_line pp_this pp_defines] in *. subst ok.
  destruct rest as [|c r].
  { eexists. split; [reflexivity|].
    cbn [pp_out pp_rest pp_defines define_ok current_line pp_this line_feeds].
    rewrite Z.add_0_r. repeat split. }
  cbn [avoids strchr] in Hplain. apply andb_prop in Hplain as [Hc Hplain].
  apply negb_true_iff, orb_false_elim in Hc as [Hc _].
  rewrite Ascii.eqb_sym in Hc.
  cbn [pp_loop pp_rest]. unfold pp_step. cbn [pp_rest pp_out pp_defines
    define_ok current_line pp_this]. rewrite Hc.
  unfold pp_character. cbn [define_ok pp_with negb pp_out pp_this pp_defines
    current_line]. cbn [bind mbind result_bind].
  match goal with |- context [pp_loop _ _ k ?s] =>
    destruct (IH s) as (st' & Hrun & Ho & Hr & Hs & Hd & Hl & Hk) end.
  - cbn [pp_rest pp_moved]. simpl in Hlen. lia.
  - reflexivity.
  - exact Hplain.
  - exists st'. split; [exact Hrun|].
    cbn [pp_out pp_rest pp_defines define_ok current_line pp_this pp_moved
         pp_with] in *.
    split; [exact Ho|]. split; [exact Hr|]. split; [exact Hs|].
    split; [exact Hd|]. split.
    + rewrite Hl. cbn [line_feeds]. destruct (Ascii.eqb c LF); lia.
    + intros k0 Hf Hn. rewrite (Hk k0 Hf Hn). unfold define.
      cbn [defines set_defines set_line].
      rewrite !lookup_insert_ne by congruence. reflexivity.
Qed.

End Disabled.

(** X18.  While the text is disabled and holds no '#', the loop copies
    nothing and reads nothing: quotes, single quotes and names of
    macros are stepped over one character at a time up to the end of
    the text; the output and the stack are as they were, the line
    counter has counted the line feeds, and no define other than the
    two keys of the position has changed. *)
Theorem disabled_text_is_dropped
    (include_file : string -> Parser -> result (buffer * Parser))
    (file : string) (st : pp_state) :
  define_ok st = false ->
  avoids "#" (pp_rest st) = true ->
  exists st',
    pp_loop include_file file (S (String.length (pp_rest st))) st = Ok st'
    /\ pp_out st' = pp_out st /\ pp_rest st' = ""
    /\ pp_defines st' = pp_defines st /\ define_ok st' = false
    /\ current_line st' = current_line st + line_feeds (pp_rest st)
    /\ (forall k, k <> "__FILE__" -> k <> "__LINE__" ->
                  defines (pp_this st') !! k = defines (pp_this st) !! k).
Proof.
  intros Hoff Hplain. apply pp_loop_disabled; [lia|exact Hoff|exact Hplain].
Qed.

(** The text after [#ifndef X] and [#else]: a line feed and a
    declaration, which are dropped. *)
Lemma disabled_text_is_dropped_witness :
  exists st',
    pp_loop (preprocessor_file no_files 1) "a.idl"
      (S (String.length (pp_rest else_state))) else_state = Ok st'
    /\ pp_rest else_state = String LF "int32_t a;"
    /\ pp_out st' = str1 LF /\ pp_rest st' = "" /\ pp_defines st' = [false].
Proof.
  destruct (disabled_text_is_dropped (preprocessor_file no_files 1) "a.idl"
              else_state) as (st' & H1 & H2 & H3 & H4 & _).
  - vm_compute. reflexivity.
  - vm_compute. reflexivity.
  - exists st'. split; [exact H1|]. split; [vm_compute; reflexivity|].
    split; [rewrite H2; vm_compute; reflexivity|]. split; [exact H3|].
    rewrite H4. vm_compute. reflexivity.
Defined.

(** ** The preprocessor: text without macros *)

Lemma substituted_undefined file defs line run :
  undefined_run defs run = true ->
  substituted (table_at file defs line) run = run.
Proof.
  unfold undefined_run, substituted. intros H.
  destruct (String.eqb run "") eqn:E.
  - apply String.eqb_eq in E. symmetry. exact E.
  - cbn [orb] in H. apply andb_prop in H as [H Hl]. apply andb_prop in H as [H Hf].
    apply negb_true_iff, String.eqb_neq in Hl, Hf.
    unfold table_at. rewrite !lookup_insert_ne by congruence.
    destruct (defs !! run); [discriminate|reflexivity].
Qed.

Lemma substitute_runs_undefined file defs s : forall m line run,
  match m with Inside _ => run = "" | Outside => True end ->
  runs_undefined defs m run s = true ->
  substitute_runs file defs m line run s = run +:+ s.
Proof.
  induction s as [|c r IH]; intros m line run Hm H.
  - cbn [substitute_runs]. rewrite sapp_nil_r. reflexivity.
  - cbn [runs_undefined] in H. cbn [substitute_runs]. destruct m as [|prev].
    + destruct (is_separator c).
      * apply andb_prop in H as [Hrun H].
        rewrite (substituted_undefined _ _ _ _ Hrun), IH;
          [reflexivity|destruct (Ascii.eqb c DQ); reflexivity|exact H].
      * rewrite (IH Outside _ _ I H), sapp_assoc. reflexivity.
    + subst run. rewrite IH; [reflexivity| |exact H].
      destruct (_ && _); reflexivity.
Qed.

(** X19.  A text without directive and without single quote whose runs
    in front of separators are no keys of the define table (and are
    neither [__FILE__] nor [__LINE__]) passes the preprocessor as
    [minify_code] leaves it: nothing is substituted and nothing is
    lost. *)
Theorem preprocessor_keeps_text_without_macros
    (include_file : string -> Parser -> result (buffer * Parser))
    (file data text : string) (p : Parser) :
  minify_code data = Ok text ->
  no_directive_no_quote text = true ->
  runs_undefined (defines p) Outside "" text = true ->
  exists p', preprocessor_text include_file file data p = Ok (Text text, p').
Proof.
  intros Hmin Hplain Hruns.
  destruct (preprocessor_text_substitute_runs include_file file data text p
              Hmin Hplain) as (p' & Hp).
  exists p'. rewrite Hp.
  rewrite (substitute_runs_undefined file (defines p) text Outside 0 "" I Hruns).
  reflexivity.
Qed.

(** A struct with a comment, in a session that defines FOO: the
    comment is removed, the spaces around it stay. *)
Lemma preprocessor_keeps_text_without_macros_witness :
  exists p',
    preprocessor_text (preprocessor_file no_files 1) "a.idl"
      "struct S { int32_t a; /* FOO */ };" (define "FOO" "5" Parser0)
    = Ok (Text "struct S { int32_t a;  };", p').
Proof.
  apply (preprocessor_keeps_text_without_macros _ "a.idl"
           "struct S { int32_t a; /* FOO */ };" "struct S { int32_t a;  };");
    vm_compute; reflexivity.
Defined.

(** ** The preprocessor: a section that is left out *)

Lemma is_name_char_plain c :
  is_name_char c = true ->
  strchr (" " +:+ str1 LF) c = false
  /\ negb (Ascii.eqb c LF) && negb (Ascii.eqb c DQ) && negb (Ascii.eqb c "(")
     && negb (Ascii.eqb c ")") && negb (Ascii.eqb c BSL)
     && negb (Ascii.eqb c NUL) = true.
Proof.
  destruct c as [[] [] [] [] [] [] [] []]; cbn; intros H;
    try discriminate H; split; reflexivity.
Qed.

Lemma plain_block_name name :
  all_chars is_name_char name = true -> plain_block LF name = true.
Proof.
  induction name as [|c name IH]; intros H; [reflexivity|].
  cbn [all_chars] in H. apply andb_prop in H as [Hc H].
  cbn [plain_block]. destruct (is_name_char_plain c Hc) as (_ & ->).
  exact (IH H).
Qed.

Lemma plain_block_app to a b :
  plain_block to a = true -> plain_block to b = true ->
  plain_block to (a +:+ b) = true.
Proof.
  intros Ha Hb. induction a as [|c a IH]; [exact Hb|].
  rewrite sapp_cons. cbn [plain_block] in *.
  apply andb_prop in Ha as [Hc Ha]. rewrite Hc, (IH Ha). reflexivity.
Qed.

(** A word at the cursor is the token. *)
Lemma read_token_word w rest size :
  all_chars is_name_char w = true -> w <> "" ->
  is_name_char (peek rest) = false ->
  (String.length w < size)%nat ->
  read_token (w +:+ rest) size = Ok (w, String.length w).
Proof.
  intros Hw Hne Hrest Hsize. unfold read_token.
  assert (Hsp : strchr (" " +:+ str1 LF) (peek (w +:+ rest)) = false).
  { destruct w as [|c w]; [contradiction|]. cbn [all_chars] in Hw.
    apply andb_prop in Hw as [Hc _]. exact (proj1 (is_name_char_plain c Hc)). }
  destruct (skip_spaces_spaces 0 (w +:+ rest) Hsp) as (Hk & _).
  cbn [spaces] in Hk. rewrite sapp_nil_l in Hk. rewrite Hk. cbn [advance].
  destruct (w +:+ rest) as [|c r] eqn:E.
  { destruct w; [contradiction|discriminate E]. }
  rewrite <- E, (span_while_app is_name_char w rest Hw Hrest).
  unfold fits. apply Nat.ltb_lt in Hsize. rewrite Hsize. reflexivity.
Qed.

(** A word after spaces is the name. *)
Lemma read_name_word k w rest size :
  all_chars is_name_char w = true -> w <> "" ->
  is_name_char (peek rest) = false ->
  (String.length w < size)%nat ->
  read_name (spaces k +:+ w +:+ rest) size = Ok (w, (k + String.length w)%nat).
Proof.
  intros Hw Hne Hrest Hsize. unfold read_name.
  assert (Hsp : strchr (" " +:+ str1 LF) (peek (w +:+ rest)) = false).
  { destruct w as [|c w]; [contradiction|]. cbn [all_chars] in Hw.
    apply andb_prop in Hw as [Hc _]. exact (proj1 (is_name_char_plain c Hc)). }
  destruct (skip_spaces_spaces k (w +:+ rest) Hsp) as (-> & ->).
  rewrite (span_while_app is_name_char w rest Hw Hrest).
  unfold fits. apply Nat.ltb_lt in Hsize. rewrite Hsize. reflexivity.
Qed.

(** The line of a directive without quote, parenthesis and backslash
    is read, up to its line feed or to the end of the text. *)
Lemma read_line_plain l tail :
  plain_block LF l = true -> no_leading_space l = true -> l <> "" ->
  (String.length l < 1024)%nat ->
  tail = "" \/ peek tail = LF ->
  exists n, read_block NUL LF (l +:+ tail) 1024 = Ok (l, n).
Proof.
  intros Hl Hsp Hne Hlen Htail. apply Nat.ltb_lt in Hlen.
  destruct Htail as [->|Htail].
  - rewrite sapp_nil_r.
    pose proof (read_block_plain_open LF l 0 1024 Hl Hsp Hne) as H.
    cbn [spaces] in H. rewrite sapp_nil_l, Hlen in H. eexists. exact H.
  - destruct tail as [|c t]; [discriminate Htail|]. cbn [peek] in Htail. subst c.
    assert (Hsp' : no_leading_space (l +:+ str1 LF) = true).
    { destruct l; [contradiction|exact Hsp]. }
    pose proof (read_block_plain_closed LF l t 0 1024 Hl eq_refl Hsp') as H.
    cbn [spaces] in H. rewrite sapp_nil_l, Hlen in H. eexists. exact H.
Qed.

Lemma advance_app a b : advance (String.length a) (a +:+ b) = b.
Proof. induction a as [|c a IH]; [reflexivity|]. rewrite sapp_cons. exact IH. Qed.

Lemma avoids_app set a b :
  avoids set (a +:+ b) = avoids set a && avoids set b.
Proof.
  induction a as [|c a IH]; [reflexivity|]. rewrite sapp_cons. cbn [avoids].
  rewrite IH, andb_assoc. reflexivity.
Qed.

Lemma line_feeds_app a b : line_feeds (a +:+ b) = line_feeds a + line_feeds b.
Proof.
  induction a as [|c a IH]; [reflexivity|]. rewrite sapp_cons. cbn [line_feeds].
  rewrite IH. lia.
Qed.

Section Reach.

Variable include_file : string -> Parser -> result (buffer * Parser).
Variable file : string.

Lemma pp_reach_trans a b c :
  pp_reach include_file file a b -> pp_reach include_file file b c ->
  pp_reach include_file file a c.
Proof.
  intros Hab Hbc. induction Hbc as [|st st' _ IH Hs]; [exact Hab|].
  exact (pp_reach_turn _ _ _ _ _ IH Hs).
Qed.

Lemma pp_loop_turn k st c r :
  pp_rest st = String c r ->
  pp_loop include_file file (S k) st
  = (st' ← pp_step include_file file st; pp_loop include_file file k st').
Proof. intros Hr. cbn [pp_loop]. rewrite Hr. reflexivity. Qed.

(** The loop gives from a state that it reaches what it gives from the
    start. *)
Lemma pp_reach_loop st0 st :
  pp_reach include_file file st0 st ->
  pp_loop include_file file (S (String.length (pp_rest st0))) st0
  = pp_loop include_file file (S (String.length (pp_rest st))) st.
Proof.
  induction 1 as [|st st' _ IH Hs]; [reflexivity|]. rewrite IH.
  destruct (pp_rest st) as [|c r] eqn:Hr.
  - unfold pp_step in Hs. rewrite Hr in Hs. injection Hs as <-. rewrite Hr.
    reflexivity.
  - rewrite (pp_loop_turn _ _ _ _ Hr), Hs. cbn [bind mbind result_bind].
    pose proof (pp_step_shrinks include_file file _ _ _ _ Hr Hs) as Hlt.
    apply pp_loop_fuel; simpl; lia.
Qed.

(** Disabled text up to a '#' is stepped over. *)
Lemma pp_reach_disabled body : forall st tail,
  define_ok st = false ->
  pp_rest st = body +:+ tail ->
  avoids "#" body = true ->
  exists st',
    pp_reach include_file file st st'
    /\ pp_rest st' = tail /\ pp_out st' = pp_out st
    /\ pp_defines st' = pp_defines st /\ define_ok st' = false
    /\ current_line st' = current_line st + line_feeds body
    /\ (forall k, k <> "__FILE__" -> k <> "__LINE__" ->
                  defines (pp_this st') !! k = defines (pp_this st) !! k).
Proof.
  induction body as [|c body IH]; intros st tail Hoff Hrest Hplain.
  - exists st. split; [constructor|]. rewrite sapp_nil_l in Hrest.
    cbn [line_feeds]. rewrite Z.add_0_r. split; [exact Hrest|].
    split; [reflexivity|]. split; [reflexivity|]. split; [exact Hoff|].
    split; reflexivity.
  - rewrite sapp_cons in Hrest. cbn [avoids strchr] in Hplain.
    apply andb_prop in Hplain as [Hc Hplain].
    apply negb_true_iff, orb_false_elim in Hc as [Hc _].
    rewrite Ascii.eqb_sym in Hc.
    destruct st as [out rest stack ok line p].
    cbn [pp_rest pp_out define_ok current_line pp_this pp_defines] in *.
    subst ok rest.
    match goal with |- context [pp_reach _ _ ?s0 _] => set (st0 := s0) end.
    assert (Hstep : exists st1,
               pp_step include_file file st0 = Ok st1
               /\ pp_rest st1 = body +:+ tail /\ pp_out st1 = out
               /\ pp_defines st1 = stack /\ define_ok st1 = false
               /\ current_line st1 = (if Ascii.eqb c LF then line + 1 else line)
               /\ (forall k, k <> "__FILE__" -> k <> "__LINE__" ->
                             defines (pp_this st1) !! k = defines p !! k)).
    { eexists. unfold pp_step, st0. cbn [pp_rest pp_out pp_defines define_ok
        current_line pp_this]. rewrite Hc. unfold pp_character.
      cbn [define_ok pp_with negb pp_out pp_this pp_defines current_line].
      split; [reflexivity|].
      cbn [pp_rest pp_out pp_defines define_ok current_line pp_this pp_moved
           pp_with]. repeat split.
      intros k Hf Hl. unfold define. cbn [defines set_defines set_line].
      rewrite !lookup_insert_ne by congruence. reflexivity. }
    destruct Hstep as (st1 & Hs & Hr1 & Ho1 & Hd1 & Hok1 & Hl1 & Hk1).
    destruct (IH st1 tail Hok1 Hr1 Hplain)
      as (st' & Hreach & Hr & Ho & Hd & Hok & Hl & Hk).
    exists st'. split.
    { apply (pp_reach_trans _ st1); [|exact Hreach].
      exact (pp_reach_turn _ _ _ _ _ (pp_reach_start _ _ _) Hs). }
    split; [exact Hr|]. split; [congruence|]. split; [congruence|].
    split; [exact Hok|]. split.
    + rewrite Hl, Hl1. cbn [line_feeds]. destruct (Ascii.eqb c LF); lia.
    + intros k Hf Hn. rewrite (Hk k Hf Hn). exact (Hk1 k Hf Hn).
Qed.

End Reach.

Lemma advance_add a b s : advance (a + b) s = advance b (advance a s).
Proof.
  revert s. induction a as [|a IH]; intros s; [reflexivity|].
  destruct s as [|c r]; [destruct b; reflexivity|]. exact (IH r).
Qed.

Section Conditional.

Variable include_file : string -> Parser -> result (buffer * Parser).
Variable file : string.

(** The directive [#ifdef NAME] or [#ifndef NAME] at the end of its
    line: the stack grows by one entry and the cursor is on the line
    feed. *)
Lemma pp_step_conditional (negated : bool) st name tail :
  pp_rest st = (if negated then "#ifndef " else "#ifdef ") +:+ name
               +:+ String LF tail ->
  all_chars is_name_char name = true -> name <> "" ->
  (String.length name < 256)%nat ->
  exists l,
    pp_step include_file file st
    = Ok {| pp_out := pp_out st; pp_rest := String LF tail;
            pp_defines := pp_defines st
                          ++ [xorb negated (ifdef (pp_this st) name)];
            define_ok := all_defined
                           (pp_defines st
                            ++ [xorb negated (ifdef (pp_this st) name)]);
            current_line := current_line st;
            pp_this := set_line l (pp_this st) |}.
Proof.
  intros Hrest Hname Hne Hlen.
  set (kw := if negated then "ifndef" else "ifdef").
  assert (Hkw : all_chars is_name_char kw = true /\ kw <> ""
                /\ (String.length kw < 256)%nat
                /\ plain_block LF (String "#" kw +:+ " ") = true
                /\ (String.length kw <= 6)%nat).
  { subst kw. destruct negated; repeat split; try discriminate; simpl; lia. }
  destruct Hkw as (Hkw1 & Hkw2 & Hkw3 & Hkw4 & Hkw5).
  assert (Hr : pp_rest st
               = String "#" (kw +:+ String " " (name +:+ String LF tail))).
  { rewrite Hrest. subst kw. destruct negated; reflexivity. }
  destruct (read_line_plain ((String "#" kw +:+ " ") +:+ name) (String LF tail))
    as (n & Hline).
  { apply plain_block_app; [exact Hkw4|apply plain_block_name; exact Hname]. }
  { reflexivity. }
  { discriminate. }
  { rewrite !sapp_length. simpl. lia. }
  { right. reflexivity. }
  assert (Hline' : read_block NUL LF
                     (String "#" (kw +:+ String " " (name +:+ String LF tail))) 1024
                   = Ok ((String "#" kw +:+ " ") +:+ name, n)).
  { rewrite <- Hline. f_equal. rewrite !sapp_cons, !sapp_assoc. reflexivity. }
  exists ((String "#" kw +:+ " ") +:+ name).
  unfold pp_step. rewrite Hr. change (Ascii.eqb "#" LF) with false.
  change (Ascii.eqb "#" "#") with true. cbv iota.
  unfold pp_directive. cbn [pp_rest pp_out pp_defines define_ok current_line
    pp_this pp_with]. rewrite Hline'. cbn [bind mbind result_bind].
  rewrite (read_token_word kw (String " " (name +:+ String LF tail)) 256
             Hkw1 Hkw2 eq_refl Hkw3).
  cbn [bind mbind result_bind]. rewrite advance_app.
  change (String " " (name +:+ String LF tail))
    with (spaces 1 +:+ name +:+ String LF tail).
  rewrite (read_name_word 1 name (String LF tail) 256 Hname Hne eq_refl Hlen).
  cbn [bind mbind result_bind].
  replace (advance (1 + String.length name)
             (spaces 1 +:+ name +:+ String LF tail)) with (String LF tail)
    by (change (spaces 1 +:+ name +:+ String LF tail)
          with (String " " (name +:+ String LF tail));
        rewrite advance_add; cbn [advance]; rewrite advance_app; reflexivity).
  subst kw. destruct negated; reflexivity.
Qed.

(** The directive [#endif] at the end of its line or of the text, on a
    stack that is not empty: the top entry is removed. *)
Lemma pp_step_endif st tail below top :
  pp_rest st = "#endif" +:+ tail ->
  tail = "" \/ peek tail = LF ->
  pp_defines st = (below ++ [top])%list ->
  exists l,
    pp_step include_file file st
    = Ok {| pp_out := pp_out st; pp_rest := tail; pp_defines := below;
            define_ok := all_defined below; current_line := current_line st;
            pp_this := set_line l (pp_this st) |}.
Proof.
  intros Hrest Htail Hstack.
  destruct (read_line_plain "#endif" tail) as (n & Hline);
    [reflexivity|reflexivity|discriminate|simpl; lia|exact Htail|].
  assert (Hpeek : is_name_char (peek tail) = false).
  { destruct Htail as [-> | ->]; reflexivity. }
  exists "#endif". unfold pp_step. rewrite Hrest.
  change ("#endif" +:+ tail) with (String "#" ("endif" +:+ tail)) in *.
  change (Ascii.eqb "#" LF) with false. change (Ascii.eqb "#" "#") with true.
  cbv iota. unfold pp_directive. cbn [pp_rest pp_out pp_defines define_ok
    current_line pp_this pp_with]. rewrite Hline. cbn [bind mbind result_bind].
  rewrite (read_token_word "endif" tail 256 eq_refl); [|discriminate|exact Hpeek|simpl; lia].
  cbn [bind mbind result_bind]. rewrite advance_app.
  change (String.eqb "endif" "ifdef") with false.
  change (String.eqb "endif" "elif") with false.
  change (String.eqb "endif" "ifndef") with false.
  change (String.eqb "endif" "else") with false.
  change (String.eqb "endif" "endif") with true. cbv iota.
  rewrite Hstack. destruct (below ++ [top])%list eqn:E.
  { destruct below; discriminate E. }
  rewrite <- E. unfold pop_back. rewrite removelast_last. reflexivity.
Qed.

End Conditional.

(** X20.  A section that is left out: from an enabled state,
    [#ifdef NAME] with NAME not defined (or [#ifndef NAME] with NAME
    defined), a text without '#' and [#endif] leave no trace in the
    output.  The loop reaches the text behind [#endif] with the output
    and the stack it started with, enabled again; the line counter has
    counted the line feeds of the section, and no define but the two
    keys of the position has changed. *)
Theorem conditional_section_is_dropped
    (include_file : string -> Parser -> result (buffer * Parser))
    (file : string) (negated : bool) (st : pp_state)
    (name body tail : string) :
  define_ok st = true ->
  all_defined (pp_defines st) = true ->
  pp_rest st = (if negated then "#ifndef " else "#ifdef ") +:+ name
               +:+ String LF (body +:+ "#endif" +:+ tail) ->
  all_chars is_name_char name = true -> name <> "" ->
  (String.length name < 256)%nat ->
  xorb negated (ifdef (pp_this st) name) = false ->
  avoids "#" body = true ->
  tail = "" \/ peek tail = LF ->
  exists st',
    pp_reach include_file file st st'
    /\ pp_loop include_file file (S (String.length (pp_rest st))) st
       = pp_loop include_file file (S (String.length tail)) st'
    /\ pp_rest st' = tail /\ pp_out st' = pp_out st
    /\ pp_defines st' = pp_defines st /\ define_ok st' = true
    /\ current_line st' = current_line st + 1 + line_feeds body
    /\ (forall k, k <> "__FILE__" -> k <> "__LINE__" ->
                  defines (pp_this st') !! k = defines (pp_this st) !! k).
Proof.
  intros Hon Hstack Hrest Hname Hne Hlen Hoff Hbody Htail.
  destruct (pp_step_conditional include_file file negated st name
              (body +:+ "#endif" +:+ tail) Hrest Hname Hne Hlen) as (l1 & Hs1).
  rewrite Hoff in Hs1.
  match type of Hs1 with _ = Ok ?s => set (st1 := s) in * end.
  assert (Hoff1 : define_ok st1 = false).
  { unfold st1. cbn [define_ok]. unfold all_defined. rewrite forallb_app.
    cbn. apply andb_false_r. }
  destruct (pp_reach_disabled include_file file (String LF body) st1
              ("#endif" +:+ tail) Hoff1 eq_refl)
    as (st2 & Hreach2 & Hr2 & Ho2 & Hd2 & _ & Hl2 & Hk2).
  { cbn [avoids strchr]. exact Hbody. }
  destruct (pp_step_endif include_file file st2 tail (pp_defines st) false
              Hr2 Htail) as (l3 & Hs3).
  { rewrite Hd2. reflexivity. }
  match type of Hs3 with _ = Ok ?s => set (st3 := s) in * end.
  assert (Hreach : pp_reach include_file file st st3).
  { apply (pp_reach_turn _ _ _ st2); [|exact Hs3].
    apply (pp_reach_trans _ _ _ st1); [|exact Hreach2].
    exact (pp_reach_turn _ _ _ _ _ (pp_reach_start _ _ _) Hs1). }
  exists st3. split; [exact Hreach|].
  split; [exact (pp_reach_loop _ _ _ _ Hreach)|].
  unfold st3. cbn [pp_rest pp_out pp_defines define_ok current_line pp_this].
  split; [reflexivity|]. split; [rewrite Ho2; reflexivity|].
  split; [reflexivity|]. split; [exact Hstack|]. split.
  - rewrite Hl2. unfold st1. cbn [current_line line_feeds].
    change (Ascii.eqb LF LF) with true. cbv iota. lia.
  - intros k Hf Hn. cbn [defines set_line]. rewrite (Hk2 k Hf Hn). reflexivity.
Qed.

(** A declaration under [#ifdef DEBUG] in front of another one: the
    second one alone is in the output. *)
Lemma conditional_section_is_dropped_witness :
  exists st',
    pp_reach (preprocessor_file no_files 1) "a.idl"
      (pp_init ("#ifdef DEBUG" +:+ String LF ("int32_t a;" +:+ String LF ""
                +:+ "#endif" +:+ String LF "int32_t b;")) Parser0) st'
    /\ pp_rest st' = String LF "int32_t b;" /\ pp_out st' = ""
    /\ exists p',
         preprocessor no_files 1 "a.idl"
           ("#ifdef DEBUG" +:+ String LF ("int32_t a;" +:+ String LF ""
            +:+ "#endif" +:+ String LF "int32_t b;")) Parser0
         = Ok (Text (String LF "int32_t b;"), p').
Proof.
  destruct (conditional_section_is_dropped (preprocessor_file no_files 1) "a.idl"
              false
              (pp_init ("#ifdef DEBUG" +:+ String LF ("int32_t a;" +:+ String LF ""
                        +:+ "#endif" +:+ String LF "int32_t b;")) Parser0)
              "DEBUG" ("int32_t a;" +:+ String LF "") (String LF "int32_t b;"))
    as (st' & Hreach & _ & Hr & Ho & _).
  - reflexivity.
  - reflexivity.
  - reflexivity.
  - reflexivity.
  - discriminate.
  - simpl. lia.
  - reflexivity.
  - reflexivity.
  - right. reflexivity.
  - exists st'. split; [exact Hreach|]. split; [exact Hr|].
    split; [exact Ho|]. eexists. vm_compute. reflexivity.
Defined.

(** ** The preprocessor: [#define] and [#undef] *)

Section Define.

Variable include_file : string -> Parser -> result (buffer * Parser).
Variable file : string.

(** [#define NAME VALUE] on a line of its own, VALUE without quote,
    parenthesis and backslash. *)
Lemma pp_step_define st name value tail :
  pp_rest st = "#define " +:+ name +:+ String " " (value +:+ String LF tail) ->
  all_chars is_name_char name = true -> name <> "" ->
  plain_block LF value = true -> no_leading_space value = true ->
  (9 + String.length name + String.length value < 1024)%nat ->
  (String.length name < 256)%nat ->
  exists l,
    pp_step include_file file st
    = Ok {| pp_out := pp_out st; pp_rest := tail; pp_defines := pp_defines st;
            define_ok := define_ok st; current_line := current_line st;
            pp_this := if define_ok st
                       then define name value (set_line l (pp_this st))
                       else set_line l (pp_this st) |}.
Proof.
  intros Hrest Hname Hne Hvalue Hsp Hlen Hlen'.
  assert (Hr : pp_rest st
               = String "#" ("define"
                   +:+ String " " (name +:+ String " " (value +:+ String LF tail))))
    by (rewrite Hrest; reflexivity).
  set (l := ("#define " +:+ name) +:+ String " " value).
  destruct (read_line_plain l (String LF tail)) as (n & Hline).
  { unfold l. apply plain_block_app.
    - apply (plain_block_app LF "#define "); [reflexivity|].
      apply plain_block_name. exact Hname.
    - cbn [plain_block]. exact Hvalue. }
  { reflexivity. }
  { discriminate. }
  { unfold l. rewrite !sapp_length. simpl. lia. }
  { right. reflexivity. }
  assert (Hline' : read_block NUL LF
            (String "#" ("define"
               +:+ String " " (name +:+ String " " (value +:+ String LF tail))))
            1024 = Ok (l, n)).
  { rewrite <- Hline. f_equal. unfold l.
    rewrite !sapp_cons, !sapp_assoc, !sapp_cons. reflexivity. }
  exists l. unfold pp_step. rewrite Hr. change (Ascii.eqb "#" LF) with false.
  change (Ascii.eqb "#" "#") with true. cbv iota.
  unfold pp_directive. cbn [pp_rest pp_out pp_defines define_ok current_line
    pp_this pp_with]. rewrite Hline'. cbn [bind mbind result_bind].
  rewrite (read_token_word "define"
             (String " " (name +:+ String " " (value +:+ String LF tail))) 256
             eq_refl); [|discriminate|reflexivity|simpl; lia].
  cbn [bind mbind result_bind]. rewrite advance_app.
  change (String.eqb "define" "ifdef") with false.
  change (String.eqb "define" "elif") with false.
  change (String.eqb "define" "ifndef") with false.
  change (String.eqb "define" "else") with false.
  change (String.eqb "define" "endif") with false.
  change (String.eqb "define" "if") with false.
  change (String.eqb "define" "define") with true. cbv iota.
  change (String " " (name +:+ String " " (value +:+ String LF tail)))
    with (spaces 1 +:+ name +:+ String " " (value +:+ String LF tail)).
  rewrite (read_name_word 1 name (String " " (value +:+ String LF tail)) 256
             Hname Hne eq_refl Hlen').
  cbn [bind mbind result_bind].
  replace (advance (1 + String.length name)
             (spaces 1 +:+ name +:+ String " " (value +:+ String LF tail)))
    with (String " " (value +:+ String LF tail))
    by (change (spaces 1 +:+ name +:+ String " " (value +:+ String LF tail))
          with (String " " (name +:+ String " " (value +:+ String LF tail)));
        rewrite advance_add; cbn [advance]; rewrite advance_app; reflexivity).
  cbn [peek]. change (Ascii.eqb " " LF) with false. cbv iota.
  assert (Hval : read_block NUL LF (String " " (value +:+ String LF tail)) 1024
                 = Ok (value, (1 + String.length value + 1)%nat)).
  { pose proof (read_block_plain_closed LF value tail 1 1024 Hvalue eq_refl) as H.
    assert (Hfit : (String.length value <? 1024)%nat = true)
      by (apply Nat.ltb_lt; lia).
    rewrite Hfit in H. apply H. destruct value; [reflexivity|exact Hsp]. }
  rewrite Hval. cbn [bind mbind result_bind].
  replace (advance (1 + String.length value + 1)
             (String " " (value +:+ String LF tail))) with tail
    by (rewrite advance_add, advance_add; cbn [advance];
        rewrite advance_app; reflexivity).
  reflexivity.
Qed.

(** [#undef NAME] at the end of its line. *)
Lemma pp_step_undef st name tail :
  pp_rest st = "#undef " +:+ name +:+ tail ->
  all_chars is_name_char name = true -> name <> "" ->
  (String.length name < 256)%nat ->
  tail = "" \/ peek tail = LF ->
  exists l,
    pp_step include_file file st
    = Ok {| pp_out := pp_out st; pp_rest := tail; pp_defines := pp_defines st;
            define_ok := define_ok st; current_line := current_line st;
            pp_this := if define_ok st
                       then undef name (set_line l (pp_this st))
                       else set_line l (pp_this st) |}.
Proof.
  intros Hrest Hname Hne Hlen Htail.
  assert (Hr : pp_rest st = String "#" ("undef" +:+ String " " (name +:+ tail)))
    by (rewrite Hrest; reflexivity).
  assert (Hpeek : is_name_char (peek tail) = false).
  { destruct Htail as [-> | ->]; reflexivity. }
  set (l := "#undef " +:+ name).
  destruct (read_line_plain l tail) as (n & Hline).
  { unfold l. apply (plain_block_app LF "#undef "); [reflexivity|].
    apply plain_block_name. exact Hname. }
  { reflexivity. }
  { discriminate. }
  { unfold l. rewrite !sapp_length. simpl. lia. }
  { exact Htail. }
  assert (Hline' : read_block NUL LF
            (String "#" ("undef" +:+ String " " (name +:+ tail))) 1024
            = Ok (l, n)).
  { rewrite <- Hline. reflexivity. }
  exists l. unfold pp_step. rewrite Hr. change (Ascii.eqb "#" LF) with false.
  change (Ascii.eqb "#" "#") with true. cbv iota.
  unfold pp_directive. cbn [pp_rest pp_out pp_defines define_ok current_line
    pp_this pp_with]. rewrite Hline'. cbn [bind mbind result_bind].
  rewrite (read_token_word "undef" (String " " (name +:+ tail)) 256 eq_refl);
    [|discriminate|reflexivity|simpl; lia].
  cbn [bind mbind result_bind]. rewrite advance_app.
  change (String.eqb "undef" "ifdef") with false.
  change (String.eqb "undef" "elif") with false.
  change (String.eqb "undef" "ifndef") with false.
  change (String.eqb "undef" "else") with false.
  change (String.eqb "undef" "endif") with false.
  change (String.eqb "undef" "if") with false.
  change (String.eqb "undef" "define") with false.
  change (String.eqb "undef" "undef") with true. cbv iota.
  change (String " " (name +:+ tail)) with (spaces 1 +:+ name +:+ tail).
  rewrite (read_name_word 1 name tail 256 Hname Hne Hpeek Hlen).
  cbn [bind mbind result_bind].
  replace (advance (1 + String.length name) (spaces 1 +:+ name +:+ tail))
    with tail
    by (change (spaces 1 +:+ name +:+ tail) with (String " " (name +:+ tail));
        rewrite advance_add; cbn [advance]; rewrite advance_app; reflexivity).
  reflexivity.
Qed.

End Define.

(** X21.  [#define NAME VALUE] on a line of its own: one turn of the
    loop reads the whole line, line feed included, writes nothing and
    leaves the line counter as it was.  The macro is recorded when the
    text is enabled, and only then; no other key of the defines
    changes. *)
Theorem define_directive_records_macro
    (include_file : string -> Parser -> result (buffer * Parser))
    (file : string) (st : pp_state) (name value tail : string) :
  pp_rest st = "#define " +:+ name +:+ String " " (value +:+ String LF tail) ->
  all_chars is_name_char name = true -> name <> "" ->
  plain_block LF value = true -> no_leading_space value = true ->
  (9 + String.length name + String.length value < 1024)%nat ->
  (String.length name < 256)%nat ->
  exists st',
    pp_step include_file file st = Ok st'
    /\ pp_rest st' = tail /\ pp_out st' = pp_out st
    /\ pp_defines st' = pp_defines st /\ define_ok st' = define_ok st
    /\ current_line st' = current_line st
    /\ (forall k, defines (pp_this st') !! k
                  = if define_ok st && String.eqb k name then Some value
                    else defines (pp_this st) !! k).
Proof.
  intros Hrest Hname Hne Hvalue Hsp Hlen Hlen'.
  destruct (pp_step_define include_file file st name value tail
              Hrest Hname Hne Hvalue Hsp Hlen Hlen') as (l & Hs).
  eexists. split; [exact Hs|].
  cbn [pp_rest pp_out pp_defines define_ok current_line pp_this].
  repeat (split; [reflexivity|]).
  intros k. destruct (define_ok st); cbn [andb]; [|reflexivity].
  cbn [define set_defines defines set_line].
  destruct (String.eqb_spec k name) as [->|Hk].
  - apply lookup_insert_eq.
  - apply lookup_insert_ne. congruence.
Qed.

(** [#define WIDTH 32] in front of a field, enabled and disabled. *)
Lemma define_directive_records_macro_witness :
  (exists st',
     pp_step (preprocessor_file no_files 1) "a.idl"
       (pp_init ("#define WIDTH 32" +:+ String LF "int32_t a;") Parser0) = Ok st'
     /\ pp_rest st' = "int32_t a;" /\ pp_out st' = ""
     /\ current_line st' = 0
     /\ defines (pp_this st') !! "WIDTH" = Some "32")
  /\ (exists st',
     pp_step (preprocessor_file no_files 1) "a.idl"
       (pp_stacked [false]
          (pp_init ("#define WIDTH 32" +:+ String LF "int32_t a;") Parser0))
     = Ok st'
     /\ defines (pp_this st') !! "WIDTH" = None).
Proof.
  split.
  - destruct (define_directive_records_macro (preprocessor_file no_files 1)
                "a.idl"
                (pp_init ("#define WIDTH 32" +:+ String LF "int32_t a;") Parser0)
                "WIDTH" "32" "int32_t a;" eq_refl eq_refl)
      as (st' & Hs & Hr & Ho & _ & _ & Hl & Hk);
      [discriminate|reflexivity|reflexivity|simpl; lia|simpl; lia|].
    exists st'. split; [exact Hs|]. split; [exact Hr|]. split; [exact Ho|].
    split; [exact Hl|]. rewrite (Hk "WIDTH"). reflexivity.
  - destruct (define_directive_records_macro (preprocessor_file no_files 1)
                "a.idl"
                (pp_stacked [false]
                   (pp_init ("#define WIDTH 32" +:+ String LF "int32_t a;")
                      Parser0))
                "WIDTH" "32" "int32_t a;" eq_refl eq_refl)
      as (st' & Hs & _ & _ & _ & _ & _ & Hk);
      [discriminate|reflexivity|reflexivity|simpl; lia|simpl; lia|].
    exists st'. split; [exact Hs|]. rewrite (Hk "WIDTH"). reflexivity.
Defined.

(** X22.  [#define NAME VALUE] followed by [#undef NAME]: after the two
    directives NAME is not defined, whatever it was before; in a
    disabled text both are read and neither changes the defines.  The
    output and the line counter are as before the two lines. *)
Theorem define_then_undef
    (include_file : string -> Parser -> result (buffer * Parser))
    (file : string) (st : pp_state) (name value tail : string) :
  pp_rest st = "#define " +:+ name
               +:+ String " " (value +:+ String LF ("#undef " +:+ name +:+ tail)) ->
  all_chars is_name_char name = true -> name <> "" ->
  plain_block LF value = true -> no_leading_space value = true ->
  (9 + String.length name + String.length value < 1024)%nat ->
  (String.length name < 256)%nat ->
  tail = "" \/ peek tail = LF ->
  exists st',
    pp_reach include_file file st st'
    /\ pp_loop include_file file (S (String.length (pp_rest st))) st
       = pp_loop include_file file (S (String.length tail)) st'
    /\ pp_rest st' = tail /\ pp_out st' = pp_out st
    /\ pp_defines st' = pp_defines st /\ current_line st' = current_line st
    /\ (forall k, defines (pp_this st') !! k
                  = if define_ok st && String.eqb k name then None
                    else defines (pp_this st) !! k).
Proof.
  intros Hrest Hname Hne Hvalue Hsp Hlen Hlen' Htail.
  destruct (pp_step_define include_file file st name value
              ("#undef " +:+ name +:+ tail)
              Hrest Hname Hne Hvalue Hsp Hlen Hlen') as (l1 & Hs1).
  match type of Hs1 with _ = Ok ?s => set (st1 := s) in * end.
  destruct (pp_step_undef include_file file st1 name tail eq_refl Hname Hne
              Hlen' Htail) as (l2 & Hs2).
  match type of Hs2 with _ = Ok ?s => set (st2 := s) in * end.
  assert (Hreach : pp_reach include_file file st st2).
  { apply (pp_reach_turn _ _ _ st1); [|exact Hs2].
    exact (pp_reach_turn _ _ _ _ _ (pp_reach_start _ _ _) Hs1). }
  exists st2. split; [exact Hreach|].
  split; [exact (pp_reach_loop _ _ _ _ Hreach)|].
  unfold st2, st1.
  cbn [pp_rest pp_out pp_defines define_ok current_line pp_this].
  repeat (split; [reflexivity|]).
  intros k. destruct (define_ok st); cbn [andb]; [|reflexivity].
  cbn [undef define set_defines defines set_line].
  destruct (String.eqb_spec k name) as [->|Hk].
  - apply lookup_delete_eq.
  - rewrite lookup_delete_ne by congruence. apply lookup_insert_ne. congruence.
Qed.

(** A macro that was defined before the two lines is gone after them. *)
Lemma define_then_undef_witness :
  exists st',
    pp_reach (preprocessor_file no_files 1) "a.idl"
      (pp_init ("#define WIDTH 32" +:+ String LF "#undef WIDTH")
         (define "WIDTH" "16" Parser0)) st'
    /\ pp_rest st' = "" /\ pp_out st' = ""
    /\ defines (pp_this st') !! "WIDTH" = None.
Proof.
  destruct (define_then_undef (preprocessor_file no_files 1) "a.idl"
              (pp_init ("#define WIDTH 32" +:+ String LF "#undef WIDTH")
                 (define "WIDTH" "16" Parser0))
              "WIDTH" "32" "" eq_refl eq_refl)
    as (st' & Hreach & _ & Hr & Ho & _ & _ & Hk);
    [discriminate|reflexivity|reflexivity|simpl; lia|simpl; lia|left; reflexivity|].
  exists st'. split; [exact Hreach|]. split; [exact Hr|]. split; [exact Ho|].
  rewrite (Hk "WIDTH"). reflexivity.
Defined.

(** ** What ends and what may not *)

Lemma bind_ends {A B : Type} (r : result A) (k : A -> result B) :
  r <> Diverges -> (forall a, r = Ok a -> k a <> Diverges) -> r ≫= k <> Diverges.
Proof. destruct r; cbn; [auto|discriminate|discriminate|congruence]. Qed.


Lemma fits_ends {A : Type} size text (a : A) : fits size text a <> Diverges.
Proof. unfold fits. destruct (_ <? _)%nat; discriminate. Qed.

Ltac ends :=
  repeat first
    [ discriminate
    | apply fits_ends
    | solve [auto]
    | match goal with
      | |- (_ ≫= _) <> Diverges => apply bind_ends; [|intros ? ?]
      | |- (let '(_, _) := ?x in _) <> Diverges => destruct x
      | |- (if ?b then _ else _) <> Diverges => destruct b
      | |- (match ?x with _ => _ end) <> Diverges => destruct x
      end ].

Lemma read_block_loop_ends_upto from to n : forall s,
  (String.length s <= n)%nat ->
  forall prev is_string braces counter,
    read_block_loop from to s prev is_string braces counter <> Diverges.
Proof.
  induction n as [|n IH]; intros s Hn prev is_string braces counter;
    destruct s as [|c r]; try discriminate; simpl in Hn; [lia|].
  cbn [read_block_loop].
  assert (Hr : forall prev is_string braces counter,
            read_block_loop from to r prev is_string braces counter <> Diverges).
  { apply IH. lia. }
  destruct is_string; [ends|].
  destruct (Ascii.eqb c DQ); [ends|].
  cbn zeta. destruct (Ascii.eqb c BSL && Ascii.eqb (peek r) LF); [|ends].
  destruct r as [|c1 [|c2 r2]]; cbn iota beta; try discriminate.
  destruct (closes _ _ _ _); [discriminate|].
  apply bind_ends; [apply IH; simpl in Hn; lia|]. intros [t k] _. discriminate.
Qed.

Lemma read_block_loop_ends from to s prev is_string braces counter :
  read_block_loop from to s prev is_string braces counter <> Diverges.
Proof. apply (read_block_loop_ends_upto from to (String.length s)). lia. Qed.

Lemma read_block_ends from to s size : read_block from to s size <> Diverges.
Proof.
  unfold read_block. destruct (advance _ s); [discriminate|].
  apply bind_ends; [apply read_block_loop_ends|]. intros [t n] _.
  apply fits_ends.
Qed.

Lemma read_name_ends s size : read_name s size <> Diverges.
Proof. apply fits_ends. Qed.

Lemma read_token_ends s size : read_token s size <> Diverges.
Proof. unfold read_token. destruct (advance _ s); [discriminate|apply fits_ends]. Qed.

Lemma minify_from_ends s : forall m, minify_from m s <> Diverges.
Proof.
  induction s as [|c r IH]; intros m; cbn [minify_from].
  - destruct m; discriminate.
  - destruct (minify_step m c (peek r)); [apply IH|].
    apply bind_ends; [apply IH|discriminate].
Qed.

Section Ends.

Variable include_file : string -> Parser -> result (buffer * Parser).
Variable file : string.
Hypothesis include_file_ends : forall name p, include_file name p <> Diverges.

Lemma pp_directive_ends st r : pp_directive include_file st r <> Diverges.
Proof.
  unfold pp_directive.
  pose proof read_block_ends. pose proof read_name_ends.
  pose proof read_token_ends.
  ends.
Qed.

Lemma pp_character_ends st c r : pp_character file st c r <> Diverges.
Proof. unfold pp_character. ends. Qed.

Lemma pp_loop_ends fuel : forall st,
  (String.length (pp_rest st) < fuel)%nat ->
  pp_loop include_file file fuel st <> Diverges.
Proof.
  induction fuel as [|k IH]; intros st Hlen; [lia|]. cbn [pp_loop].
  destruct (pp_rest st) as [|c r] eqn:Hr; [discriminate|].
  apply bind_ends.
  - unfold pp_step. rewrite Hr.
    destruct (Ascii.eqb _ _); [apply pp_directive_ends|apply pp_character_ends].
  - intros st' Hs. apply IH.
    pose proof (pp_step_shrinks _ _ _ _ _ _ Hr Hs). simpl in Hlen. lia.
Qed.

Lemma preprocessor_text_ends data p :
  preprocessor_text include_file file data p <> Diverges.
Proof.
  unfold preprocessor_text.
  apply bind_ends; [apply minify_from_ends|]. intros text _.
  apply bind_ends; [apply pp_loop_ends; simpl; lia|]. intros st _.
  destruct (pp_defines st); discriminate.
Qed.

End Ends.

Section ParserEnds.

Variable getHash : string -> Z.








End ParserEnds.



(** X24.  The preprocessor ends when the processing of every file it
    includes ends: every turn of its loop moves the cursor, a directive
    by its line and a character by itself, so a text of n characters
    takes at most n turns, the result is the same for every larger
    number of turns, and no text makes the loop or the call go on for
    ever. *)
Theorem preprocessor_loop_ends
    (include_file : string -> Parser -> result (buffer * Parser))
    (file : string) :
  (forall name p, diverges (include_file name p) = false) ->
  (forall st fuel,
      (String.length (pp_rest st) < fuel)%nat ->
      diverges (pp_loop include_file file fuel st) = false
      /\ pp_loop include_file file fuel st
         = pp_loop include_file file (S (String.length (pp_rest st))) st)
  /\ (forall data p,
        diverges (preprocessor_text include_file file data p) = false).
Proof.
  intros Hinc.
  assert (Hinc' : forall name p, include_file name p <> Diverges).
  { intros name p E. specialize (Hinc name p). rewrite E in Hinc.
    discriminate Hinc. }
  split.
  - intros st fuel Hlen. split; [|apply pp_loop_fuel; [exact Hlen|lia]].
    pose proof (pp_loop_ends include_file file Hinc' fuel st Hlen) as H.
    destruct (pp_loop include_file file fuel st); try reflexivity.
    contradiction.
  - intros data p.
    pose proof (preprocessor_text_ends include_file file Hinc' data p) as H.
    destruct (preprocessor_text include_file file data p); try reflexivity.
    contradiction.
Qed.

(** A text of two lines where no file can be opened. *)
Lemma preprocessor_loop_ends_witness :
  diverges (pp_loop (preprocessor_file no_files 1) "a.idl" 100
              (pp_init else_text Parser0)) = false
  /\ pp_loop (preprocessor_file no_files 1) "a.idl" 100 (pp_init else_text Parser0)
     = pp_loop (preprocessor_file no_files 1) "a.idl"
         (S (String.length else_text)) (pp_init else_text Parser0)
  /\ diverges (preprocessor_text (preprocessor_file no_files 1) "a.idl"
                 else_text Parser0) = false.
Proof.
  destruct (preprocessor_loop_ends (preprocessor_file no_files 1) "a.idl")
    as [Hloop Htext]; [intros name p; reflexivity|].
  destruct (Hloop (pp_init else_text Parser0) 100%nat) as [H1 H2];
    [simpl; lia|].
  split; [exact H1|]. split; [exact H2|]. apply Htext.
Defined.

(** ** The preprocessor: [#if] *)

Lemma skip_line_app cond tail :
  avoids (str1 LF) cond = true ->
  skip_line (cond +:+ String LF tail) = String LF tail.
Proof.
  induction cond as [|c cond IH]; intros H.
  - rewrite sapp_nil_l. cbn [skip_line]. rewrite Ascii.eqb_refl. reflexivity.
  - rewrite sapp_cons. cbn [avoids strchr str1] in H.
    apply andb_prop in H as [Hc H]. apply negb_true_iff in Hc.
    apply orb_false_elim in Hc as [Hc _]. rewrite Ascii.eqb_sym in Hc.
    cbn [skip_line]. rewrite Hc. exact (IH H).
Qed.

Section Unsupported.

Variable include_file : string -> Parser -> result (buffer * Parser).
Variable file : string.

(** Enabled text without directive, quote and single quote is read one
    character at a turn; the stack is left as it is. *)
Lemma pp_reach_enabled_text body : forall st tail,
  define_ok st = true ->
  pp_rest st = body +:+ tail ->
  avoids ("#" +:+ str1 DQ +:+ str1 SQ) body = true ->
  exists st',
    pp_reach include_file file st st'
    /\ pp_rest st' = tail /\ pp_defines st' = pp_defines st
    /\ define_ok st' = true.
Proof.
  induction body as [|c body IH]; intros st tail Hon Hrest Hplain.
  - exists st. split; [constructor|]. rewrite sapp_nil_l in Hrest.
    split; [exact Hrest|]. split; [reflexivity|exact Hon].
  - rewrite sapp_cons in Hrest. cbn [avoids strchr str1] in Hplain.
    change ("#" +:+ String DQ (String SQ ""))
      with (String "#" (String DQ (String SQ ""))) in Hplain.
    cbn [avoids strchr] in Hplain.
    apply andb_prop in Hplain as [Hc Hplain].
    apply negb_true_iff in Hc.
    apply orb_false_elim in Hc as [H1 Hc].
    apply orb_false_elim in Hc as [H2 Hc].
    apply orb_false_elim in Hc as [H3 _].
    rewrite Ascii.eqb_sym in H1. rewrite Ascii.eqb_sym in H2.
    rewrite Ascii.eqb_sym in H3.
    destruct st as [out rest stack ok line p].
    cbn [pp_rest pp_out define_ok current_line pp_this pp_defines] in *.
    subst ok rest.
    match goal with |- context [pp_reach _ _ ?s0 _] => set (st0 := s0) end.
    assert (Hstep : exists st1,
               pp_step include_file file st0 = Ok st1
               /\ pp_rest st1 = body +:+ tail
               /\ pp_defines st1 = stack /\ define_ok st1 = true).
    { eexists. unfold pp_step, st0. cbn [pp_rest pp_out pp_defines define_ok
        current_line pp_this]. rewrite H1. unfold pp_character.
      cbn [define_ok pp_with negb pp_out pp_this pp_defines current_line].
      rewrite H3, H2. cbn [andb].
      split; [reflexivity|]. repeat split. }
    destruct Hstep as (st1 & Hs & Hr1 & Hd1 & Hok1).
    destruct (IH st1 tail Hok1 Hr1 Hplain) as (st' & Hreach & Hr & Hd & Hok).
    exists st'. split.
    + apply (pp_reach_trans _ _ _ st1); [|exact Hreach].
      exact (pp_reach_turn _ _ _ _ _ (pp_reach_start _ _ _) Hs).
    + split; [exact Hr|]. split; [rewrite Hd; exact Hd1|exact Hok].
Qed.

(** [#if]: the rest of the line is skipped and nothing is pushed. *)
Lemma pp_step_if st cond tail :
  pp_rest st = "#if" +:+ cond +:+ String LF tail ->
  is_name_char (peek (cond +:+ str1 LF)) = false ->
  avoids (str1 LF) cond = true ->
  pp_step include_file file st = Undefined
  \/ exists l,
       pp_step include_file file st
       = Ok {| pp_out := pp_out st; pp_rest := String LF tail;
               pp_defines := pp_defines st; define_ok := define_ok st;
               current_line := current_line st;
               pp_this := set_line l (pp_this st) |}.
Proof.
  intros Hrest Hname Hcond.
  assert (Hr : pp_rest st = String "#" ("if" +:+ cond +:+ String LF tail))
    by (rewrite Hrest; reflexivity).
  unfold pp_step. rewrite Hr. change (Ascii.eqb "#" LF) with false.
  change (Ascii.eqb "#" "#") with true. cbv iota.
  unfold pp_directive. cbn [pp_rest pp_out pp_defines define_ok current_line
    pp_this pp_with].
  destruct (read_block NUL LF (String "#" ("if" +:+ cond +:+ String LF tail)) 1024)
    as [[l n]| | |] eqn:El.
  - right. exists l. cbn [bind mbind result_bind].
    assert (Hpeek : is_name_char (peek (cond +:+ String LF tail)) = false).
    { destruct cond; exact Hname. }
    rewrite (read_token_word "if" (cond +:+ String LF tail) 256 eq_refl);
      [|discriminate|exact Hpeek|simpl; lia].
    cbn [bind mbind result_bind]. rewrite advance_app.
    change (String.eqb "if" "ifdef") with false.
    change (String.eqb "if" "elif") with false.
    change (String.eqb "if" "ifndef") with false.
    change (String.eqb "if" "else") with false.
    change (String.eqb "if" "endif") with false.
    change (String.eqb "if" "if") with true. cbv iota.
    rewrite (skip_line_app _ _ Hcond). reflexivity.
  - elim (read_block_no_abort _ _ _ _ El).
  - left. reflexivity.
  - elim (read_block_ends _ _ _ _ El).
Qed.

(** [#endif] on the empty stack, whatever follows it. *)
Lemma pp_step_endif_empty st tail :
  pp_defines st = [] ->
  pp_rest st = "#endif" +:+ tail ->
  pp_step include_file file st = Undefined.
Proof.
  intros Hstack Hrest.
  assert (Hr : pp_rest st = String "#" ("endif" +:+ tail))
    by (rewrite Hrest; reflexivity).
  unfold pp_step. rewrite Hr. change (Ascii.eqb "#" LF) with false.
  change (Ascii.eqb "#" "#") with true. cbv iota.
  unfold pp_directive. cbn [pp_rest pp_out pp_defines define_ok current_line
    pp_this pp_with].
  destruct (read_block NUL LF (String "#" ("endif" +:+ tail)) 1024)
    as [[l n]| | |] eqn:El; [|elim (read_block_no_abort _ _ _ _ El)|reflexivity
                            |elim (read_block_ends _ _ _ _ El)].
  cbn [bind mbind result_bind].
  unfold read_token. change (skip_spaces ("endif" +:+ tail)) with 0%nat.
  cbn [advance]. change ("endif" +:+ tail)
    with (String "e" (String "n" (String "d" (String "i" (String "f" tail))))).
  cbv iota. cbn [span_while].
  change (is_name_char "e") with true. change (is_name_char "n") with true.
  change (is_name_char "d") with true. change (is_name_char "i") with true.
  change (is_name_char "f") with true. cbv iota.
  unfold fits. destruct (_ <? _)%nat; [|reflexivity].
  cbn [bind mbind result_bind]. rewrite Hstack.
  destruct (span_while is_name_char tail) as [|a x]; reflexivity.
Qed.

Lemma pp_loop_Undefined st st' :
  pp_reach include_file file st st' ->
  pp_step include_file file st' = Undefined ->
  pp_rest st' <> "" ->
  forall fuel, (String.length (pp_rest st) < fuel)%nat ->
               pp_loop include_file file fuel st = Undefined.
Proof.
  intros Hreach Hs Hne fuel Hlen.
  rewrite (pp_loop_fuel include_file file fuel (S (String.length (pp_rest st))))
    by lia.
  rewrite (pp_reach_loop _ _ _ _ Hreach). cbn [pp_loop].
  destruct (pp_rest st'); [contradiction|]. rewrite Hs. reflexivity.
Qed.

End Unsupported.

(** X25.  [#if] is read and skipped, so the [#endif] that closes it pops
    a stack that holds nothing of it: with no conditional open, a text
    [#if COND], lines without directive and quote, and [#endif] ends in
    undefined behaviour (the buffer is freed and read on, the empty
    stack is popped), whatever the condition and whatever follows. *)
Theorem if_section_is_undefined
    (include_file : string -> Parser -> result (buffer * Parser))
    (file : string) (cond body tail : string) :
  is_name_char (peek (cond +:+ str1 LF)) = false ->
  avoids (str1 LF) cond = true ->
  avoids ("#" +:+ str1 DQ +:+ str1 SQ) body = true ->
  let text := "#if" +:+ cond +:+ String LF (body +:+ "#endif" +:+ tail) in
  (forall st fuel,
      pp_rest st = text -> pp_defines st = [] -> define_ok st = true ->
      (String.length text < fuel)%nat ->
      pp_loop include_file file fuel st = Undefined)
  /\ (forall data p,
        minify_code data = Ok text ->
        preprocessor_text include_file file data p = Undefined).
Proof.
  intros Hname Hcond Hbody text.
  assert (Hloop : forall st fuel,
             pp_rest st = text -> pp_defines st = [] -> define_ok st = true ->
             (String.length text < fuel)%nat ->
             pp_loop include_file file fuel st = Undefined).
  { intros st fuel Hrest Hstack Hon Hlen. rewrite <- Hrest in Hlen.
    destruct (pp_step_if include_file file st cond
                (body +:+ "#endif" +:+ tail) Hrest Hname Hcond)
      as [Hs|(l & Hs)].
    - apply (pp_loop_Undefined include_file file st st (pp_reach_start _ _ _) Hs);
        [rewrite Hrest; discriminate|exact Hlen].
    - match type of Hs with _ = Ok ?s => set (st1 := s) in * end.
      destruct (pp_reach_enabled_text include_file file (String LF body) st1
                  ("#endif" +:+ tail) Hon eq_refl)
        as (st2 & Hreach & Hr2 & Hd2 & _).
      { change ("#" +:+ str1 DQ +:+ str1 SQ)
          with (String "#" (String DQ (String SQ ""))) in *.
        cbn [avoids strchr]. rewrite Hbody. reflexivity. }
      apply (pp_loop_Undefined include_file file st st2).
      + apply (pp_reach_trans _ _ _ st1); [|exact Hreach].
        exact (pp_reach_turn _ _ _ _ _ (pp_reach_start _ _ _) Hs).
      + apply (pp_step_endif_empty include_file file st2 tail); [|exact Hr2].
        rewrite Hd2. exact Hstack.
      + rewrite Hr2. discriminate.
      + exact Hlen. }
  split; [exact Hloop|].
  intros data p Hmin. unfold preprocessor_text. rewrite Hmin.
  cbn [bind mbind result_bind].
  rewrite (Hloop (pp_init text p) (S (String.length text)));
    [reflexivity|reflexivity|reflexivity|reflexivity|lia].
Qed.

(** A declaration under [#if 1]. *)
Lemma if_section_is_undefined_witness :
  preprocessor no_files 1 "a.idl"
    ("#if 1" +:+ String LF ("int32_t a;" +:+ String LF "#endif")) Parser0
  = Undefined.
Proof.
  unfold preprocessor.
  apply (proj2 (if_section_is_undefined (preprocessor_file no_files 1) "a.idl"
                  " 1" ("int32_t a;" +:+ str1 LF) ""
                  eq_refl eq_refl eq_refl)).
  reflexivity.
Defined.

(** ** The preprocessor: [#include] *)

(** The end of a line: the end of the text or a line feed. *)
Lemma read_block_loop_line_end tail prev :
  tail = "" \/ peek tail = LF ->
  exists e, read_block_loop NUL LF tail prev false 0 0 = Ok ("", e).
Proof.
  intros [-> | H]; [exists 0%nat; reflexivity|].
  destruct tail as [|c t]; [discriminate H|]. cbn [peek] in H. subst c.
  exists 1%nat. reflexivity.
Qed.

(** A quoted text in a line: it is copied with its quotes. *)
Lemma read_block_loop_in_quotes name tail : forall prev,
  avoids (str1 DQ +:+ str1 BSL) name = true ->
  Ascii.eqb prev BSL = false ->
  tail = "" \/ peek tail = LF ->
  exists e,
    read_block_loop NUL LF (name +:+ String DQ tail) prev true 0 0
    = Ok (name +:+ str1 DQ, (String.length name + 1 + e)%nat).
Proof.
  induction name as [|c name IH]; intros prev Hname Hprev Htail.
  - rewrite !sapp_nil_l. cbn [read_block_loop]. rewrite Hprev.
    change (Ascii.eqb DQ DQ) with true. change (Ascii.eqb DQ LF) with false.
    cbn [andb negb]. cbv iota.
    destruct (read_block_loop_line_end tail DQ Htail) as (e & ->).
    exists e. reflexivity.
  - cbn [avoids strchr sapp_cons] in Hname. rewrite !sapp_cons.
    apply andb_prop in Hname as [Hc Hname]. apply negb_true_iff in Hc.
    cbn in Hc. apply orb_false_elim in Hc as [H1 Hc].
    apply orb_false_elim in Hc as [H2 _].
    rewrite Ascii.eqb_sym in H1. rewrite Ascii.eqb_sym in H2.
    cbn [read_block_loop]. rewrite H1. cbn [andb]. cbv iota.
    destruct (IH c Hname H2 Htail) as (e & ->). exists e. reflexivity.
Qed.

(** A line that ends with a quoted text is read with it. *)
Lemma read_block_loop_quoted_line a name tail : forall prev,
  plain_block LF a = true ->
  avoids (str1 DQ +:+ str1 BSL) name = true ->
  tail = "" \/ peek tail = LF ->
  exists e,
    read_block_loop NUL LF (a +:+ String DQ (name +:+ String DQ tail))
      prev false 0 0
    = Ok (a +:+ String DQ (name +:+ str1 DQ),
          (String.length a + (String.length name + 2 + e))%nat).
Proof.
  induction a as [|c a IH]; intros prev Ha Hname Htail.
  - rewrite !sapp_nil_l. cbn [read_block_loop].
    change (Ascii.eqb DQ DQ) with true. cbv iota. unfold closes.
    change (Ascii.eqb DQ LF) with false. cbn [andb]. cbv iota.
    destruct (read_block_loop_in_quotes name tail DQ Hname eq_refl Htail)
      as (e & ->).
    exists e. cbn [bind mbind result_bind]. f_equal. f_equal. simpl. lia.
  - apply plain_block_cons in Ha as (H1 & H2 & H3 & H4 & H5 & _ & Hr).
    rewrite !sapp_cons. cbn [read_block_loop]. unfold closes, count_braces,
      count_nesting. rewrite H1, H2, H3, H4, H5. cbn [andb negb].
    change (Ascii.eqb NUL NUL) with true. cbn [andb negb]. cbv iota.
    destruct (IH c Hr Hname Htail) as (e & ->). exists e. reflexivity.
Qed.

Lemma include_name_parts name :
  include_name name = true ->
  plain_block LF name = true
  /\ avoids (str1 DQ +:+ str1 BSL) name = true
  /\ avoids (str1 "<" +:+ str1 ">" +:+ "()" +:+ str1 DQ +:+ str1 BSL) name = true.
Proof.
  unfold include_name. intros H. apply andb_prop in H as [Hp Ha].
  split; [exact Hp|].
  induction name as [|c name IH]; [split; reflexivity|].
  apply plain_block_cons in Hp as (_ & H2 & H3 & H4 & H5 & _ & Hr).
  cbn [avoids strchr] in Ha. apply andb_prop in Ha as [Hc Ha].
  apply negb_true_iff in Hc. apply orb_false_elim in Hc as [H6 Hc].
  apply orb_false_elim in Hc as [H7 _].
  destruct (IH Hr Ha) as [IH1 IH2].
  rewrite Ascii.eqb_sym in H2. rewrite Ascii.eqb_sym in H3.
  rewrite Ascii.eqb_sym in H4. rewrite Ascii.eqb_sym in H5.
  split.
  - change (str1 DQ +:+ str1 BSL) with (String DQ (String BSL "")) in *.
    cbn [avoids strchr]. rewrite H2, H5, IH1. reflexivity.
  - change (str1 "<" +:+ str1 ">" +:+ "()" +:+ str1 DQ +:+ str1 BSL)
      with (String "<" (String ">" (String "(" (String ")"
              (String DQ (String BSL "")))))) in *.
    cbn [avoids strchr]. rewrite H6, H7, H3, H4, H2, H5, IH2. reflexivity.
Qed.

Section Include.

Variable include_file : string -> Parser -> result (buffer * Parser).
Variable file : string.

(** [#include] with its operand in quotes or in angle brackets, at the
    end of its line. *)
Lemma pp_step_include st (angle : bool) name tail :
  pp_rest st = "#include " +:+ String (if angle then "<" else DQ)%char
                 (name +:+ String (if angle then ">" else DQ)%char tail) ->
  include_name name = true -> (String.length name < 256)%nat ->
  tail = "" \/ peek tail = LF ->
  exists l,
    pp_step include_file file st
    = if define_ok st then
        '(inc, p') ← include_file name (set_line l (pp_this st));
        match inc with
        | Freed => Undefined
        | Text t =>
            Ok {| pp_out := pp_out st +:+ t; pp_rest := tail;
                  pp_defines := pp_defines st; define_ok := define_ok st;
                  current_line := current_line st; pp_this := p' |}
        end
      else
        Ok {| pp_out := pp_out st; pp_rest := tail;
              pp_defines := pp_defines st; define_ok := define_ok st;
              current_line := current_line st;
              pp_this := set_line l (pp_this st) |}.
Proof.
  intros Hrest Hname Hlen Htail.
  destruct (include_name_parts name Hname) as (Hplain & Hquoted & Hangle).
  set (open := (if angle then "<" else DQ)%char) in *.
  set (close := (if angle then ">" else DQ)%char) in *.
  assert (Hr : pp_rest st
               = String "#" ("include"
                   +:+ String " " (String open (name +:+ String close tail))))
    by (rewrite Hrest; reflexivity).
  assert (Hline : exists l n,
             read_block NUL LF
               (String "#" ("include"
                  +:+ String " " (String open (name +:+ String close tail))))
               1024 = Ok (l, n)).
  { destruct angle.
    - destruct (read_line_plain ("#include <" +:+ name +:+ ">") tail)
        as (n & Hl).
      + apply (plain_block_app LF "#include <"); [reflexivity|].
        apply plain_block_app; [exact Hplain|reflexivity].
      + reflexivity.
      + discriminate.
      + rewrite !sapp_length. simpl. lia.
      + exact Htail.
      + exists ("#include <" +:+ name +:+ ">"), n. rewrite <- Hl. f_equal.
        unfold open, close.
        change (String "#" ("include" +:+ String " " (String "<" (name +:+ String ">" tail))))
          with ("#include <" +:+ (name +:+ String ">" tail)).
        rewrite !sapp_assoc. reflexivity.
    - destruct (read_block_loop_quoted_line "#include " name tail "#"
                  eq_refl Hquoted Htail) as (e & Hl).
      eexists _, _. unfold read_block.
      change (span_while (Ascii.eqb " ") (String "#" _)) with "".
      cbn [String.length advance]. cbv zeta.
      change (Ascii.eqb "#" NUL) with false. cbn [andb]. cbv iota.
      unfold open, close.
      change (String "#" ("include" +:+ String " " (String DQ (name +:+ String DQ tail))))
        with ("#include " +:+ String DQ (name +:+ String DQ tail)).
      rewrite Hl. cbn [bind mbind result_bind]. unfold fits.
      assert (Hfit : (String.length ("#include " +:+ String DQ (name +:+ str1 DQ))
                      <? 1024)%nat = true).
      { apply Nat.ltb_lt. rewrite sapp_length. cbn [String.length].
        rewrite sapp_length. simpl. lia. }
      rewrite Hfit. reflexivity. }
  destruct Hline as (l & n & Hline).
  assert (Hoperand :
            read_block open close (String " " (String open (name +:+ String close tail)))
              256 = Ok (name, (1 + String.length name + 2)%nat)).
  { unfold read_block.
    assert (Hsp : span_while (Ascii.eqb " ")
                    (String " " (String open (name +:+ String close tail)))
                  = " ").
    { cbn [span_while]. change (Ascii.eqb " " " ") with true. cbv iota.
      destruct angle; reflexivity. }
    rewrite Hsp. cbn [String.length advance]. cbv zeta.
    rewrite Ascii.eqb_refl. cbn [andb]. cbv beta iota.
    apply Nat.ltb_lt in Hlen.
    destruct angle; unfold open, close.
    - change (Ascii.eqb "<" DQ) with false. change (Ascii.eqb "<" "(") with false.
      cbv iota.
      rewrite (read_block_loop_bracketed "<" ">" name tail "<"
                 eq_refl eq_refl eq_refl Hangle).
      cbn [bind mbind result_bind]. unfold fits. rewrite Hlen.
      f_equal. f_equal. lia.
    - change (Ascii.eqb DQ DQ) with true. change (Ascii.eqb DQ "(") with false.
      cbv iota.
      rewrite (read_block_loop_quoted name tail DQ Hquoted eq_refl).
      cbn [bind mbind result_bind]. unfold fits. rewrite Hlen.
      f_equal. f_equal. lia. }
  exists l. unfold pp_step. rewrite Hr. change (Ascii.eqb "#" LF) with false.
  change (Ascii.eqb "#" "#") with true. cbv iota.
  unfold pp_directive. cbn [pp_rest pp_out pp_defines define_ok current_line
    pp_this pp_with]. rewrite Hline. cbn [bind mbind result_bind].
  rewrite (read_token_word "include"
             (String " " (String open (name +:+ String close tail))) 256 eq_refl);
    [|discriminate|reflexivity|simpl; lia].
  cbn [bind mbind result_bind]. rewrite advance_app.
  change (String.eqb "include" "ifdef") with false.
  change (String.eqb "include" "elif") with false.
  change (String.eqb "include" "ifndef") with false.
  change (String.eqb "include" "else") with false.
  change (String.eqb "include" "endif") with false.
  change (String.eqb "include" "if") with false.
  change (String.eqb "include" "define") with false.
  change (String.eqb "include" "undef") with false.
  change (String.eqb "include" "pragma") with false.
  change (String.eqb "include" "include") with true. cbv iota.
  assert (Hsym : get_symbol (String " " (String open (name +:+ String close tail)))
                 = open).
  { unfold get_symbol, skip_spaces. destruct angle; reflexivity. }
  rewrite Hsym. cbv zeta.
  assert (Hread :
            (if Ascii.eqb open DQ
             then '(name0, n0) ← read_block DQ DQ
                    (String " " (String open (name +:+ String close tail))) 256;
                  Ok (name0, advance n0
                    (String " " (String open (name +:+ String close tail))))
             else if Ascii.eqb open "<"
             then '(name0, n0) ← read_block "<" ">"
                    (String " " (String open (name +:+ String close tail))) 256;
                  Ok (name0, advance n0
                    (String " " (String open (name +:+ String close tail))))
             else Ok ("", String " " (String open (name +:+ String close tail))))
            = Ok (name, tail)).
  { assert (Hadv : advance (1 + String.length name + 2)
                     (String " " (String open (name +:+ String close tail)))
                   = tail).
    { replace (1 + String.length name + 2)%nat
        with (2 + (String.length name + 1))%nat by lia.
      rewrite advance_add. cbn [advance]. rewrite advance_add, advance_app.
      reflexivity. }
    destruct angle; unfold open, close in *.
    - change (Ascii.eqb "<" DQ) with false. change (Ascii.eqb "<" "<") with true.
      cbv iota. rewrite Hoperand. cbn [bind mbind result_bind].
      rewrite Hadv. reflexivity.
    - change (Ascii.eqb DQ DQ) with true. cbv iota.
      rewrite Hoperand. cbn [bind mbind result_bind].
      rewrite Hadv. reflexivity. }
  rewrite Hread. cbn [bind mbind result_bind].
  destruct (define_ok st); reflexivity.
Qed.

End Include.

(** X26.  [#include] with its operand in quotes or in angle brackets, at
    the end of its line.  In disabled text the operand is read and the
    file is not opened.  In enabled text a file that cannot be opened
    aborts the call; else the file is preprocessed in the session of
    the text that includes it, so its defines stay, and its output is
    put behind the output written so far, where it is not read again;
    the text goes on behind the operand. *)
Theorem include_directive_splices
    (getFile : string -> option string) (k : nat) (file : string)
    (st : pp_state) (angle : bool) (name tail : string) :
  pp_rest st = "#include " +:+ String (if angle then "<" else DQ)%char
                 (name +:+ String (if angle then ">" else DQ)%char tail) ->
  include_name name = true -> (String.length name < 256)%nat ->
  tail = "" \/ peek tail = LF ->
  exists l,
    (define_ok st = false ->
     pp_step (preprocessor_file getFile (S k)) file st
     = Ok {| pp_out := pp_out st; pp_rest := tail;
             pp_defines := pp_defines st; define_ok := false;
             current_line := current_line st;
             pp_this := set_line l (pp_this st) |})
    /\ (define_ok st = true -> getFile name = None ->
        pp_step (preprocessor_file getFile (S k)) file st = Abort
        /\ forall fuel,
             pp_loop (preprocessor_file getFile (S k)) file (S fuel) st = Abort)
    /\ (define_ok st = true ->
        forall data t p',
          getFile name = Some data ->
          preprocessor_text (preprocessor_file getFile k) name data
            (set_line l (pp_this st)) = Ok (Text t, p') ->
          pp_step (preprocessor_file getFile (S k)) file st
          = Ok {| pp_out := pp_out st +:+ t; pp_rest := tail;
                  pp_defines := pp_defines st; define_ok := true;
                  current_line := current_line st; pp_this := p' |}).
Proof.
  intros Hrest Hname Hlen Htail.
  destruct (pp_step_include (preprocessor_file getFile (S k)) file st angle
              name tail Hrest Hname Hlen Htail) as (l & Hs).
  exists l. split; [|split].
  - intros Hoff. rewrite Hs, Hoff. reflexivity.
  - intros Hon Hnone.
    assert (Hstep : pp_step (preprocessor_file getFile (S k)) file st = Abort).
    { rewrite Hs, Hon. cbn [preprocessor_file]. rewrite Hnone. reflexivity. }
    split; [exact Hstep|]. intros fuel. cbn [pp_loop].
    destruct (pp_rest st) eqn:E; [discriminate Hrest|].
    rewrite Hstep. reflexivity.
  - intros Hon data t p' Hsome Htext.
    rewrite Hs, Hon. cbn [preprocessor_file]. rewrite Hsome, Htext.
    reflexivity.
Qed.

(** A header that defines [W], included in front of a use of [W]; and a
    header that is missing. *)
Lemma include_directive_splices_witness :
  (exists st',
     pp_step (preprocessor_file one_header 2) "a.idl"
       (pp_init ("#include " +:+ String DQ ("b.idl" +:+ String DQ
                   (String LF "W;"))) Parser0) = Ok st'
     /\ pp_out st' = "" /\ pp_rest st' = String LF "W;"
     /\ defines (pp_this st') !! "W" = Some "8")
  /\ pp_step (preprocessor_file no_files 1) "a.idl"
       (pp_init "#include <b.idl>" Parser0) = Abort
  /\ (exists p',
        preprocessor one_header 2 "a.idl"
          ("#include " +:+ String DQ ("b.idl" +:+ String DQ (String LF "W;")))
          Parser0 = Ok (Text (String LF "8;"), p')).
Proof.
  split; [|split].
  - destruct (include_directive_splices one_header 1 "a.idl"
                (pp_init ("#include " +:+ String DQ ("b.idl" +:+ String DQ
                            (String LF "W;"))) Parser0)
                false "b.idl" (String LF "W;") eq_refl eq_refl)
      as (l & _ & _ & Hsplice); [simpl; lia|right; reflexivity|].
    destruct (preprocessor_text (preprocessor_file one_header 1) "b.idl"
                ("#define W 8" +:+ str1 LF) (set_line l Parser0))
      as [[[t|] p']| | |] eqn:E; try (vm_compute in E; discriminate E).
    eexists. split; [exact (Hsplice eq_refl _ t p' eq_refl E)|].
    cbn [pp_out pp_rest pp_this pp_init].
    vm_compute in E. injection E as <- <-. repeat split.
  - destruct (include_directive_splices no_files 0 "a.idl"
                (pp_init "#include <b.idl>" Parser0)
                true "b.idl" "" eq_refl eq_refl)
      as (l & _ & Habort & _); [simpl; lia|left; reflexivity|].
    exact (proj1 (Habort eq_refl eq_refl)).
  - eexists. vm_compute. reflexivity.
Defined.

(** ** Declarations: the base code of a struct *)



Section StructCode.

Variable getHash : string -> Z.





End StructCode.



(** ** Declarations: a symbol that starts no declaration *)


Section Symbol.

Variable getHash : string -> Z.


End Symbol.



(** ** The preprocessor: what stops a call *)



Section AbortSource.

Variable include_file : string -> Parser -> result (buffer * Parser).
Variable file : string.





End AbortSource.



